(** * Squash tracker: rating engine and match store

    A shallow embedding of [src/models/squash.py] (the [Player], [Session]
    and [Match] rows and the rating computation) and of the request
    handlers of [src/routes/squash.py], with the properties the
    specification states about them.

    Numbers.  Python integers are [Z].  Python floats are IEEE-754 binary64
    values; every finite one is a rational, so a float is represented by the
    rational it denotes and each float operation is the exact operation
    followed by rounding to the nearest binary64 value ([rnd64], ties to
    even).  The one operation that the language run-time delegates to the C
    library, [10 ** x], is a variable of the development. *)

From Stdlib Require Import ZArith QArith Qround Qabs Qpower Qreduction Lia Lqa.
From Stdlib Require Import Ascii String.
From stdpp Require Import base option list gmap strings sorting.

#[local] Open Scope Z_scope.

(** ** Binary64 arithmetic on rationals *)

Module Float.

#[local] Open Scope Q_scope.

(** [ilog2 q] is the integer [k] with [2^k <= q < 2^(k+1)], for [0 < q]. *)
Definition ilog2 (q : Q) : Z :=
  let k := (Z.log2 (Qnum q) - Z.log2 (Z.pos (Qden q)))%Z in
  if Qle_bool (2 ^ k) q then k else (k - 1)%Z.

(** Nearest integer, ties to the even one. *)
Definition rne (q : Q) : Z :=
  let f := Qfloor q in
  match Qcompare (q - inject_Z f) (1 # 2) with
  | Lt => f
  | Gt => (f + 1)%Z
  | Eq => if Z.even f then f else (f + 1)%Z
  end.

(** The exponent of the unit in the last place of a positive rational:
    53 significant bits, never below the exponent of the subnormals. *)
Definition ulp_exp (q : Q) : Z := Z.max (ilog2 q - 52) (-1074).

(** Rounding of a positive rational to a multiple of its unit in the last
    place. *)
Definition rnd_mag (q : Q) : Q :=
  let e := ulp_exp q in
  Qred (inject_Z (rne (q / 2 ^ e)) * 2 ^ e).

(** Round to nearest binary64, ties to even; the sign is kept apart from
    the magnitude as in the format itself.  The exponent is not capped
    from above: a caller that can leave the finite range tests the
    rounded value against [2^1024], see [overflows]. *)
Definition rnd64 (q : Q) : Q :=
  match Qnum q with
  | Z0 => 0
  | Zpos _ => rnd_mag q
  | Zneg _ => - rnd_mag (- q)
  end.

Definition overflows (q : Q) : bool := Qle_bool (2 ^ 1024) (Qabs q).

Definition fadd (x y : Q) : Q := rnd64 (x + y).
Definition fsub (x y : Q) : Q := rnd64 (x - y).
Definition fmul (x y : Q) : Q := rnd64 (x * y).
Definition fdiv (x y : Q) : Q := rnd64 (x / y).

(** Python's [a / b] on two integers: the correctly rounded quotient;
    [None] stands for the exception raised when the divisor is zero or
    the quotient is too large for a float. *)
Definition int_truediv (a b : Z) : option Q :=
  if (b =? 0)%Z then None
  else
    let q := rnd64 (inject_Z a / inject_Z b) in
    if overflows q then None else Some q.

(** Python's [int(x)] on a finite float: truncation toward zero. *)
Definition int_of_float (x : Q) : Z := Z.quot (Qnum x) (Z.pos (Qden x)).

End Float.

Import Float.

(** ** The rating engine ([Match.calculate_elo_changes]) *)

Section RatingEngine.

(** [pow10 x] is Python's [10 ** x] for a float [x]: the C library's
    [pow(10.0, x)], or [None] when it overflows (Python then raises
    [OverflowError]). *)
Variable pow10 : Q -> option Q.

Definition calculate_elo_changes (elo1 elo2 score1 score2 : Z)
  : option (Z * Z) :=
  let K : Q := 32%Q in
  x ← int_truediv (elo2 - elo1) 400;
  p ← pow10 x;
  let expected1 := fdiv 1 (fadd 1 p) in
  let expected2 := fsub 1 expected1 in
  let total_points := score1 + score2 in
  actual ← (if total_points =? 0 then Some ((1 # 2)%Q, (1 # 2)%Q)
            else a1 ← int_truediv score1 total_points;
                 a2 ← int_truediv score2 total_points;
                 Some (a1, a2));
  let point_diff := Z.abs (score1 - score2) in
  let max_possible_diff := Z.max score1 score2 in
  diff_multiplier ← (if max_possible_diff =? 0 then Some 1%Q
                     else d ← int_truediv point_diff max_possible_diff;
                          Some (fadd (1 # 2) d));
  let change1 :=
    int_of_float (fmul (fmul K diff_multiplier) (fsub actual.1 expected1)) in
  let change2 :=
    int_of_float (fmul (fmul K diff_multiplier) (fsub actual.2 expected2)) in
  Some (change1, change2).

(** The reference definition of the specification (section 4.1), written
    from its five steps with the same float operations. *)
Definition computeDeltas_spec (ratingA ratingB scoreA scoreB : Z)
  : option (Z * Z) :=
  x ← int_truediv (ratingB - ratingA) 400;
  p ← pow10 x;
  let expectedA := fdiv 1 (fadd 1 p) in
  let expectedB := fsub 1 expectedA in
  actual ← (if (scoreA =? 0) && (scoreB =? 0)
            then Some ((1 # 2)%Q, (1 # 2)%Q)
            else aA ← int_truediv scoreA (scoreA + scoreB);
                 aB ← int_truediv scoreB (scoreA + scoreB);
                 Some (aA, aB));
  let pointDiff := Z.abs (scoreA - scoreB) in
  let maxScore := Z.max scoreA scoreB in
  multiplier ← (if 0 <? maxScore
                then d ← int_truediv pointDiff maxScore;
                     Some (fadd (1 # 2) d)
                else Some 1%Q);
  let K : Q := 32%Q in
  let deltaA :=
    int_of_float (fmul (fmul K multiplier) (fsub actual.1 expectedA)) in
  let deltaB :=
    int_of_float (fmul (fmul K multiplier) (fsub actual.2 expectedB)) in
  Some (deltaA, deltaB).

End RatingEngine.

(** A table is a finite map from the primary key to the row, so a row does
    not repeat its own [id].  Columns that no handler reads (creation
    timestamps, the session's date and completion flags) are left out. *)
Record Player := mkPlayer {
  name : string;
  elo_rating : Z;
  active : bool
}.

Record Session := mkSession {
  session_notes : option string
}.

Record Match := mkMatch {
  session_id : Z;
  player1_id : Z;
  player2_id : Z;
  player1_score : option Z;
  player2_score : option Z;
  winner_id : option Z;
  player1_elo_before : option Z;
  player2_elo_before : option Z;
  player1_elo_change : option Z;
  player2_elo_change : option Z;
  completed_at : option Z;
  notes : option string
}.

Record Store := mkStore {
  players : gmap Z Player;
  sessions : gmap Z Session;
  matches : gmap Z Match
}.

(** The key the database gives to a new row: one more than the largest key
    of the table. *)
Definition fresh_id {A} (table : gmap Z A) : Z :=
  1 + foldr Z.max 0 (map_to_list table).*1.

(** [Query.all()]: the rows of a table with their keys, in primary-key
    order. *)
Definition key_le {A} (a b : Z * A) : Prop := a.1 ≤ b.1.

#[global] Instance key_le_dec {A} (a b : Z * A) : Decision (key_le a b) :=
  Z_le_dec a.1 b.1.

Definition table_rows {A} (table : gmap Z A) : list (Z * A) :=
  merge_sort key_le (map_to_list table).

(** [Player(name=name)]: the column defaults. *)
Definition new_player (nm : string) : Player :=
  {| name := nm; elo_rating := 1000; active := true |}.

(** [Match(session_id=..., player1_id=..., player2_id=...)] with the other
    columns as given or empty. *)
Definition new_match (sid p1 p2 : Z) (s1 s2 : option Z) (nt : option string)
  : Match :=
  {| session_id := sid; player1_id := p1; player2_id := p2;
     player1_score := s1; player2_score := s2; winner_id := None;
     player1_elo_before := None; player2_elo_before := None;
     player1_elo_change := None; player2_elo_change := None;
     completed_at := None; notes := nt |}.

Definition is_completed (m : Match) : bool :=
  bool_decide (player1_score m ≠ None) && bool_decide (player2_score m ≠ None).

Definition with_rating (p : Player) (r : Z) : Player :=
  {| name := name p; elo_rating := r; active := active p |}.

(** [player.elo_rating += delta] on the row that a foreign key designates;
    [None] when there is no such row (the relationship attribute is then
    [None] and the attribute access raises). *)
Definition add_rating (pid delta : Z) (ps : gmap Z Player)
  : option (gmap Z Player) :=
  p ← ps !! pid;
  Some (<[pid := with_rating p (elo_rating p + delta)]> ps).

Definition set_notes (m : Match) (nt : option string) : Match :=
  {| session_id := session_id m; player1_id := player1_id m;
     player2_id := player2_id m;
     player1_score := player1_score m; player2_score := player2_score m;
     winner_id := winner_id m;
     player1_elo_before := player1_elo_before m;
     player2_elo_before := player2_elo_before m;
     player1_elo_change := player1_elo_change m;
     player2_elo_change := player2_elo_change m;
     completed_at := completed_at m; notes := nt |}.

(** ** Request data *)

(** The value found under a score key of a JSON body, as far as
    [isinstance(v, int)] tells values apart: an integer, a boolean (which
    Python counts as an integer), or anything else, [null] included. *)
Inductive JScore :=
| JInt (z : Z)
| JBool (b : bool)
| JNotInt.

Definition isinstance_int (v : JScore) : bool :=
  match v with JInt _ | JBool _ => true | JNotInt => false end.

Definition int_value (v : JScore) : Z :=
  match v with JInt z => z | JBool b => Z.b2z b | JNotInt => 0 end.

(** Body of [PUT /matches/<id>].  A field is [None] when the key is absent;
    [u_notes = Some None] is a present key with a [null] value. *)
Record MatchUpdate := mkMatchUpdate {
  u_player1_score : option JScore;
  u_player2_score : option JScore;
  u_notes : option (option string)
}.

(** Body of [POST /matches].  [data.get] does not tell an absent key from
    [null], so both are [None]; scores, when given, are JSON integers. *)
Record MatchCreate := mkMatchCreate {
  c_session_id : option Z;
  c_player1_id : option Z;
  c_player2_id : option Z;
  c_player1_score : option Z;
  c_player2_score : option Z;
  c_notes : option string
}.

(** [str.strip()], for the ASCII white space characters. *)
Definition is_space (c : ascii) : bool :=
  let n := nat_of_ascii c in
  ((9 <=? n) && (n <=? 13) || (28 <=? n) && (n <=? 32))%nat.

Fixpoint lstrip (s : string) : string :=
  match s with
  | String c r => if is_space c then lstrip r else s
  | EmptyString => EmptyString
  end.

Definition strip (s : string) : string :=
  String.rev (lstrip (String.rev (lstrip s))).

(** [v.strip() if v else None] *)
Definition clean_notes (v : option string) : option string :=
  match v with
  | Some EmptyString | None => None
  | Some s => Some (strip s)
  end.

(** [not v] for an optional integer: true for [None] and for [0]. *)
Definition falsy (v : option Z) : bool :=
  match v with Some z => z =? 0 | None => true end.

Section Handlers.

Variable pow10 : Q -> option Q.

(** *** [Match.update_scores] *)
Definition update_scores (m : Match) (score1 score2 : Z) (now : Z)
    (ps : gmap Z Player) : option (Match * gmap Z Player) :=
  p1 ← ps !! player1_id m;
  p2 ← ps !! player2_id m;
  let elo_before1 := elo_rating p1 in
  let elo_before2 := elo_rating p2 in
  let winner :=
    if score2 <? score1 then Some (player1_id m)
    else if score1 <? score2 then Some (player2_id m)
    else None in
  elo_changes ← calculate_elo_changes pow10 elo_before1 elo_before2
                  score1 score2;
  let m' :=
    {| session_id := session_id m; player1_id := player1_id m;
       player2_id := player2_id m;
       player1_score := Some score1; player2_score := Some score2;
       winner_id := winner;
       player1_elo_before := Some elo_before1;
       player2_elo_before := Some elo_before2;
       player1_elo_change := Some elo_changes.1;
       player2_elo_change := Some elo_changes.2;
       completed_at := Some now; notes := notes m |} in
  ps1 ← add_rating (player1_id m) elo_changes.1 ps;
  ps2 ← add_rating (player2_id m) elo_changes.2 ps1;
  Some (m', ps2).

(** The reversal shared by [update_match] and [delete_match]: applied
    when the match is completed and both stored changes are present. *)
Definition revert_match (m : Match) (ps : gmap Z Player)
  : option (gmap Z Player) :=
  match player1_elo_change m, player2_elo_change m with
  | Some c1, Some c2 =>
      if is_completed m then
        ps1 ← add_rating (player1_id m) (- c1) ps;
        add_rating (player2_id m) (- c2) ps1
      else Some ps
  | _, _ => Some ps
  end.

(** A handler returns the HTTP status and the committed store.  Where
    the source returns before [db.session.commit()], or an exception
    other than a database error escapes (status 500), the changes made
    to the session's objects are discarded with the request. *)
Definition reply := (Z * Store)%type.

(** *** [POST /sessions] *)
Definition session_pairs (player_ids : list Z) : list (Z * Z) :=
  i ← seq 0 (length player_ids);
  j ← seq (i + 1) (length player_ids - (i + 1));
  [(player_ids !!! i, player_ids !!! j)].

Definition add_match (m : Match) (ms : gmap Z Match) : gmap Z Match :=
  <[fresh_id ms := m]> ms.

Definition create_session (player_ids : list Z) (db : Store) : reply :=
  if (length player_ids <? 2)%nat then (400, db)
  else
    let found :=
      filter (λ kp : Z * Player, kp.1 ∈ player_ids)
             (table_rows (players db)) in
    if negb (length found =? length player_ids)%nat then (404, db)
    else
      let sid := fresh_id (sessions db) in
      let sessions' := <[sid := mkSession None]> (sessions db) in
      let matches' :=
        foldl (λ ms pr, add_match (new_match sid pr.1 pr.2 None None None) ms)
              (matches db) (session_pairs player_ids) in
      (200, {| players := players db; sessions := sessions';
               matches := matches' |}).

(** *** [DELETE /sessions/<id>] *)
Definition revert_side (pid : Z) (change : option Z) (ps : gmap Z Player)
  : option (gmap Z Player) :=
  match change with
  | Some c => add_rating pid (- c) ps
  | None => Some ps
  end.

Definition revert_in_session (ps : option (gmap Z Player)) (km : Z * Match)
  : option (gmap Z Player) :=
  ps0 ← ps;
  ps1 ← revert_side (player1_id km.2) (player1_elo_change km.2) ps0;
  revert_side (player2_id km.2) (player2_elo_change km.2) ps1.

Definition delete_session (sid : Z) (db : Store) : reply :=
  match sessions db !! sid with
  | None => (404, db)
  | Some _ =>
      let completed_matches :=
        filter (λ km : Z * Match, session_id km.2 = sid ∧ is_completed km.2)
               (table_rows (matches db)) in
      match foldl revert_in_session (Some (players db)) completed_matches with
      | None => (500, db)
      | Some ps =>
          (200, {| players := ps;
                   sessions := delete sid (sessions db);
                   matches := filter (λ km : Z * Match, session_id km.2 ≠ sid)
                                     (matches db) |})
      end
  end.

(** *** [POST /matches]

    [update_scores] runs on the new object before [db.session.add]: the
    object is built from the foreign keys only and belongs to no session
    yet, so its relationships [player1] and [player2] load no row
    ([transient_rows]) and reading [self.player1.elo_rating] raises
    [AttributeError].  The exception escapes the handler (status 500)
    with nothing committed. *)
Definition transient_rows : gmap Z Player := ∅.

Definition create_match (data : MatchCreate) (now : Z) (db : Store) : reply :=
  if falsy (c_session_id data) || falsy (c_player1_id data)
     || falsy (c_player2_id data)
  then (400, db)
  else
    let sid := default 0 (c_session_id data) in
    let p1 := default 0 (c_player1_id data) in
    let p2 := default 0 (c_player2_id data) in
    if p1 =? p2 then (400, db)
    else
      match players db !! p1, players db !! p2 with
      | Some _, Some _ =>
          match sessions db !! sid with
          | None => (404, db)
          | Some _ =>
              let m := new_match sid p1 p2 (c_player1_score data)
                         (c_player2_score data) (clean_notes (c_notes data)) in
              let scored :=
                match c_player1_score data, c_player2_score data with
                | Some s1, Some s2 =>
                    fst <$> update_scores m s1 s2 now transient_rows
                | _, _ => Some m
                end in
              match scored with
              | None => (500, db)
              | Some m' =>
                  (201, {| players := players db; sessions := sessions db;
                           matches := add_match m' (matches db) |})
              end
          end
      | _, _ => (404, db)
      end.

(** *** [PUT /matches/<id>]

    The handler first reads the ratings of both players
    ([original_player1_elo], [original_player2_elo]), which requires
    both rows to exist. *)
Definition update_match (match_id : Z) (data : MatchUpdate) (now : Z)
    (db : Store) : reply :=
  match matches db !! match_id with
  | None => (404, db)
  | Some m =>
      match players db !! player1_id m, players db !! player2_id m,
            revert_match m (players db) with
      | Some _, Some _, Some ps =>
          let scored :=
            match u_player1_score data, u_player2_score data with
            | Some v1, Some v2 =>
                if negb (isinstance_int v1) || negb (isinstance_int v2)
                then inl 400
                else if (int_value v1 <? 0) || (int_value v2 <? 0)
                then inl 400
                else match update_scores m (int_value v1) (int_value v2)
                             now ps with
                     | Some r => inr r
                     | None => inl 500
                     end
            | _, _ => inr (m, ps)
            end in
          match scored with
          | inl code => (code, db)
          | inr (m1, ps1) =>
              let m2 :=
                match u_notes data with
                | Some v => set_notes m1 (clean_notes v)
                | None => m1
                end in
              (200, {| players := ps1; sessions := sessions db;
                       matches := <[match_id := m2]> (matches db) |})
          end
      | _, _, _ => (500, db)
      end
  end.

(** *** [DELETE /matches/<id>] *)
Definition delete_match (match_id : Z) (db : Store) : reply :=
  match matches db !! match_id with
  | None => (404, db)
  | Some m =>
      match revert_match m (players db) with
      | None => (500, db)
      | Some ps =>
          (200, {| players := ps; sessions := sessions db;
                   matches := delete match_id (matches db) |})
      end
  end.

End Handlers.

(** ** Derived views ([GET /leaderboard], [GET /highlights]) *)

(** A stable sort into descending order, as [list.sort(..., reverse=True)]
    and as [ORDER BY ... DESC] over rows in primary-key order: [less x y]
    tells that [x] sorts strictly after [y]. *)
Fixpoint insert_desc {A} (less : A → A → bool) (x : A) (l : list A) : list A :=
  match l with
  | [] => [x]
  | y :: r => if less x y then y :: insert_desc less x r else x :: l
  end.

Definition sort_desc {A} (less : A → A → bool) (l : list A) : list A :=
  foldr (insert_desc less) [] l.

(** Python's [round(x, ndigits)] on a float: the decimal with [ndigits]
    places nearest to the exact value of [x] (ties to even), read back as a
    float. *)
Definition py_round (x : Q) (ndigits : Z) : Q :=
  rnd64 (inject_Z (rne (x * 10 ^ ndigits)) / 10 ^ ndigits)%Q.

Record LeaderRow := mkLeaderRow {
  lb_id : Z;
  lb_name : string;
  lb_elo_rating : Z;
  lb_matches_played : Z;
  lb_wins : Z;
  lb_losses : Z;
  lb_win_rate : Q;
  lb_total_points : Z;
  lb_points_per_match : Q
}.

(** The completed matches in which the player takes part. *)
Definition completed_matches_of (pid : Z) (db : Store) : list (Z * Match) :=
  filter (λ km : Z * Match,
            (player1_id km.2 = pid ∨ player2_id km.2 = pid)
            ∧ player1_score km.2 ≠ None ∧ player2_score km.2 ≠ None)
         (table_rows (matches db)).

Definition leader_row (kp : Z * Player) (db : Store) : list LeaderRow :=
  let all_matches := completed_matches_of kp.1 db in
  match all_matches with
  | [] => []
  | _ =>
      let total_matches := Z.of_nat (length all_matches) in
      let wins :=
        Z.of_nat (length (filter (λ km : Z * Match, winner_id km.2 = Some kp.1)
                                 all_matches)) in
      let losses := total_matches - wins in
      let win_rate :=
        if 0 <? total_matches
        then default 0%Q (int_truediv wins total_matches) else 0%Q in
      let total_points := wins * 3 + losses * 1 in
      let points_per_match :=
        if 0 <? total_matches
        then default 0%Q (int_truediv total_points total_matches) else 0%Q in
      [ {| lb_id := kp.1; lb_name := name kp.2;
           lb_elo_rating := elo_rating kp.2;
           lb_matches_played := total_matches;
           lb_wins := wins; lb_losses := losses;
           lb_win_rate := py_round (fmul win_rate 100) 1;
           lb_total_points := total_points;
           lb_points_per_match := py_round points_per_match 2 |} ]
  end.

(** The sort key [(elo_rating, points_per_match)], compared as tuples. *)
Definition leader_less (x y : LeaderRow) : bool :=
  (lb_elo_rating x <? lb_elo_rating y)
  || ((lb_elo_rating x =? lb_elo_rating y)
      && negb (Qle_bool (lb_points_per_match y) (lb_points_per_match x))).

Definition get_leaderboard (db : Store) : list LeaderRow :=
  let rows :=
    filter (λ kp : Z * Player, active kp.2 = true) (table_rows (players db)) in
  sort_desc leader_less (kp ← rows; leader_row kp db).

(** One entry of the [recent_matches] list of the highlights. *)
Record Highlight := mkHighlight {
  h_match_id : Z;
  h_session_id : Z;
  h_completed_at : Z;
  h_player1_name : string;
  h_player2_name : string;
  h_player1_score : option Z;
  h_player2_score : option Z;
  h_winner_name : string;
  h_player1_elo_before : option Z;
  h_player2_elo_before : option Z;
  h_player1_elo_change : option Z;
  h_player2_elo_change : option Z;
  h_player1_elo_after : Z;
  h_player2_elo_after : Z
}.

(** The [biggest_elo_gain] / [biggest_elo_loss] dictionaries; the score
    text ["a-b"] is kept as the pair it is printed from. *)
Record Extreme := mkExtreme {
  x_player_name : string;
  x_elo_change : Z;
  x_opponent : string;
  x_score : option Z * option Z
}.

Record Highlights := mkHighlights {
  recent_matches : list Highlight;
  matches_today : Z;
  biggest_elo_gain : option Extreme;
  biggest_elo_loss : option Extreme
}.

(** [v or 0] *)
Definition or_zero (v : option Z) : Z :=
  match v with Some z => z | None => 0 end.

Definition time_of (km : Z * Match) : Z := default 0 (completed_at km.2).

(** The query of [get_highlights]: completed matches with a completion
    time, latest first, at most ten. *)
Definition recent_rows (db : Store) : list (Z * Match) :=
  take 10
    (sort_desc (λ a b, time_of a <? time_of b)
       (filter (λ km : Z * Match,
                  player1_score km.2 ≠ None ∧ player2_score km.2 ≠ None
                  ∧ completed_at km.2 ≠ None)
               (table_rows (matches db)))).

Definition highlight_of (ps : gmap Z Player) (km : Z * Match)
  : option Highlight :=
  p1 ← ps !! player1_id km.2;
  p2 ← ps !! player2_id km.2;
  let winner_name :=
    match winner_id km.2 ≫= (λ w, ps !! w) with
    | Some w => name w
    | None => "Tie"%string
    end in
  Some {| h_match_id := km.1; h_session_id := session_id km.2;
          h_completed_at := time_of km;
          h_player1_name := name p1; h_player2_name := name p2;
          h_player1_score := player1_score km.2;
          h_player2_score := player2_score km.2;
          h_winner_name := winner_name;
          h_player1_elo_before := player1_elo_before km.2;
          h_player2_elo_before := player2_elo_before km.2;
          h_player1_elo_change := player1_elo_change km.2;
          h_player2_elo_change := player2_elo_change km.2;
          h_player1_elo_after :=
            or_zero (player1_elo_before km.2) + or_zero (player1_elo_change km.2);
          h_player2_elo_after :=
            or_zero (player2_elo_before km.2) + or_zero (player2_elo_change km.2)
       |}.

(** The two per-player entries a match contributes to the search for the
    extremes, player 1 first. *)
Definition side_entries (ps : gmap Z Player) (m : Match) (c1 c2 : Z)
  : option (Extreme * Extreme) :=
  p1 ← ps !! player1_id m;
  p2 ← ps !! player2_id m;
  Some ({| x_player_name := name p1; x_elo_change := c1;
           x_opponent := name p2;
           x_score := (player1_score m, player2_score m) |},
        {| x_player_name := name p2; x_elo_change := c2;
           x_opponent := name p1;
           x_score := (player2_score m, player1_score m) |}).

(** [if best is None or e.elo_change > best.elo_change: best = e] *)
Definition raise_gain (best : option Extreme) (e : Extreme) : option Extreme :=
  match best with
  | None => Some e
  | Some b => if x_elo_change b <? x_elo_change e then Some e else best
  end.

(** [if best is None or e.elo_change < best.elo_change: best = e] *)
Definition lower_loss (best : option Extreme) (e : Extreme) : option Extreme :=
  match best with
  | None => Some e
  | Some b => if x_elo_change e <? x_elo_change b then Some e else best
  end.

(** One turn of the second loop of [get_highlights]; the guard is the
    truth value of the two stored changes (neither [None] nor [0]). *)
Definition extremes_step (ps : gmap Z Player)
    (acc : option (option Extreme * option Extreme)) (km : Z * Match)
  : option (option Extreme * option Extreme) :=
  '(gain, loss) ← acc;
  if negb (falsy (player1_elo_change km.2))
     && negb (falsy (player2_elo_change km.2))
  then
    '(e1, e2) ← side_entries ps km.2 (or_zero (player1_elo_change km.2))
                  (or_zero (player2_elo_change km.2));
    Some (raise_gain (raise_gain gain e1) e2, lower_loss (lower_loss loss e1) e2)
  else Some (gain, loss).

(** [today] is the start of the current day, [datetime.utcnow().date()].
    The result is [None] when a match refers to a player row that does not
    exist (the attribute access on the relationship raises). *)
Definition get_highlights (today : Z) (db : Store) : option Highlights :=
  let recent := recent_rows db in
  highlights ← mapM (highlight_of (players db)) recent;
  let total_matches_today :=
    Z.of_nat (length (filter (λ km : Z * Match,
                                 match completed_at km.2 with
                                 | Some t => bool_decide (today ≤ t)
                                 | None => false
                                 end = true
                                 ∧ player1_score km.2 ≠ None
                                 ∧ player2_score km.2 ≠ None)
                             (table_rows (matches db)))) in
  '(gain, loss) ← foldl (extremes_step (players db)) (Some (None, None)) recent;
  Some {| recent_matches := highlights;
          matches_today := total_matches_today;
          biggest_elo_gain := gain;
          biggest_elo_loss := loss |}.

(** ** Instances used by the examples *)

(** A stand-in for the C library's [pow(10.0, x)], exact at integral
    exponents, used where a concrete instance is needed. *)
Definition pow10_floor (x : Q) : option Q :=
  if Qle_bool 309 x then None else Some (rnd64 (Qpower 10 (Qfloor x))).

(** The store after the first start: the four default players. *)
Definition init_store : Store :=
  {| players :=
       list_to_map [(1, new_player "Miklas"); (2, new_player "Morten");
                    (3, new_player "Patrick"); (4, new_player "Jens")];
     sessions := ∅; matches := ∅ |}.

(** ** Notions used to state the properties *)

(** The power function never returns a negative number. *)
Definition pow10_nonneg (pow10 : Q -> option Q) : Prop :=
  forall x p, pow10 x = Some p -> (0 <= p)%Q.

(** The unordered pairs of the entries of a list, each pair in list order. *)
Fixpoint unordered_pairs (l : list Z) : list (Z * Z) :=
  match l with
  | [] => []
  | x :: r => ((λ y, (x, y)) <$> r) ++ unordered_pairs r
  end.

(** The rows that the existence check of [create_session] finds. *)
Definition found_players (ids : list Z) (ps : gmap Z Player) : list (Z * Player) :=
  filter (λ kp : Z * Player, kp.1 ∈ ids) (table_rows ps).

(** The store that [create_session] commits when it accepts the list. *)
Definition created_store (ids : list Z) (db : Store) : Store :=
  {| players := players db;
     sessions := <[fresh_id (sessions db) := mkSession None]> (sessions db);
     matches :=
       foldl (λ ms pr, add_match (new_match (fresh_id (sessions db)) pr.1 pr.2
                                    None None None) ms)
             (matches db) (session_pairs ids) |}.

(** What the stored changes of a match give to player [pid]. *)
Definition applied_delta (pid : Z) (m : Match) : Z :=
  (if decide (player1_id m = pid) then or_zero (player1_elo_change m) else 0)
  + (if decide (player2_id m = pid) then or_zero (player2_elo_change m) else 0).

Definition total_delta (pid : Z) (rows : list (Z * Match)) : Z :=
  foldr (λ km acc, applied_delta pid km.2 + acc) 0 rows.

(** [shifted f ps ps']: the table [ps'] is [ps] with the rating of each
    player [q] moved by [f q]. *)
Definition shifted (f : Z → Z) (ps ps' : gmap Z Player) : Prop :=
  ∀ q, ps' !! q = (λ p, with_rating p (elo_rating p + f q)) <$> ps !! q.

(** Both players of the match have a row. *)
Definition sides_exist (ps : gmap Z Player) (m : Match) : Prop :=
  is_Some (ps !! player1_id m) ∧ is_Some (ps !! player2_id m).

(** The counts of the leaderboard. *)
Definition count_rows (P : Z * Match → Prop) `{!∀ km, Decision (P km)}
    (rows : list (Z * Match)) : Z :=
  Z.of_nat (length (filter P rows)).

Definition won_by (pid : Z) (km : Z * Match) : Prop := winner_id km.2 = Some pid.
Definition tied (km : Z * Match) : Prop := winner_id km.2 = None.
Definition lost_by (pid : Z) (km : Z * Match) : Prop :=
  ∃ w, winner_id km.2 = Some w ∧ w ≠ pid.

#[global] Instance won_by_dec pid km : Decision (won_by pid km).
Proof. unfold won_by. apply _. Defined.
#[global] Instance tied_dec km : Decision (tied km).
Proof. unfold tied. apply _. Defined.
#[global] Instance lost_by_dec pid km : Decision (lost_by pid km).
Proof.
  unfold lost_by. destruct (winner_id km.2) as [w|].
  - destruct (decide (w = pid)) as [->|Hne].
    + right. intros (w' & [= <-] & ?). done.
    + left. eauto.
  - right. intros (w' & ? & _). done.
Defined.

(** The tally the specification describes: 3 per win, 1 per loss, 0 per
    tie. *)
Definition points_spec (pid : Z) (rows : list (Z * Match)) : Z :=
  3 * count_rows (won_by pid) rows + 1 * count_rows (lost_by pid) rows
  + 0 * count_rows tied rows.

(** The filter of the query of [get_highlights]. *)
Definition dated (km : Z * Match) : Prop :=
  player1_score km.2 ≠ None ∧ player2_score km.2 ≠ None ∧ completed_at km.2 ≠ None.

(** The matches that pass the guard of the second loop. *)
Definition qualifies (km : Z * Match) : bool :=
  negb (falsy (player1_elo_change km.2)) && negb (falsy (player2_elo_change km.2)).

(** The per-player entries of the qualifying matches, in iteration order. *)
Definition qualifying_entries (ps : gmap Z Player) (rows : list (Z * Match))
  : list Extreme :=
  km ← rows;
  if qualifies km then
    match side_entries ps km.2 (or_zero (player1_elo_change km.2))
                       (or_zero (player2_elo_change km.2)) with
    | Some (e1, e2) => [e1; e2]
    | None => []
    end
  else [].

(** [e] is the first entry of [l] whose key is the largest. *)
Definition first_largest (key : Extreme → Z) (l : list Extreme) (e : Extreme) : Prop :=
  ∃ l1 l2, l = l1 ++ e :: l2
           ∧ (∀ x, x ∈ l1 → key x < key e) ∧ (∀ x, x ∈ l2 → key x ≤ key e).

(** The result of a search for the first largest entry: absent only on the
    empty list. *)
Definition best_of (key : Extreme → Z) (l : list Extreme) (r : option Extreme) : Prop :=
  match r with
  | Some e => first_largest key l e
  | None => l = []
  end.

(** One comparison of the search, [raise_gain] and [lower_loss] in one. *)
Definition pick (key : Extreme → Z) (best : option Extreme) (e : Extreme)
  : option Extreme :=
  match best with
  | None => Some e
  | Some b => if key b <? key e then Some e else best
  end.

(** Exactly one of the two score keys is present. *)
Definition lone_score (s1 s2 : option JScore) : Prop :=
  (is_Some s1 ∧ s2 = None) ∨ (s1 = None ∧ is_Some s2).

(** The rows whose stored changes count for the ratings. *)
Definition completed_rows (db : Store) : list (Z * Match) :=
  filter (λ km : Z * Match, is_completed km.2) (table_rows (matches db)).

(** The accounting invariant of the specification (section 3): a rating is
    1000 plus the stored changes of the completed matches of the player. *)
Definition accounting (db : Store) : Prop :=
  ∀ pid p, players db !! pid = Some p →
           elo_rating p = 1000 + total_delta pid (completed_rows db).

(** The same as a test, for the evaluation on a given store. *)
Definition accounting_b (db : Store) : bool :=
  forallb (λ kp : Z * Player,
             elo_rating kp.2 =? 1000 + total_delta kp.1 (completed_rows db))
          (table_rows (players db)).

(** What a row adds to a player's rating: its stored changes once it is
    completed. *)
Definition contribution (pid : Z) (m : Match) : Z :=
  if is_completed m then applied_delta pid m else 0.

(** The sum of the contributions of a list of rows, and of a table. *)
Definition sum_contributions (pid : Z) (rows : list (Z * Match)) : Z :=
  foldr (λ km acc, contribution pid km.2 + acc) 0 rows.

Definition ledger (pid : Z) (ms : gmap Z Match) : Z :=
  total_delta pid (filter (λ km : Z * Match, is_completed km.2) (table_rows ms)).

(** A completed match carries both changes. *)
Definition deltas_present (ms : gmap Z Match) : Prop :=
  ∀ k m, ms !! k = Some m → is_completed m →
         is_Some (player1_elo_change m) ∧ is_Some (player2_elo_change m).

(** The invariant that the handlers keep (with one exception, see
    [update_match_without_scores]). *)
Definition consistent (db : Store) : Prop :=
  accounting db ∧ deltas_present (matches db).

(** The reference definition of section 4.1 in exact rational arithmetic,
    for a rating gap [ratingB - ratingA = 400 * k], where the power of ten
    is rational. *)
Definition computeDeltas_exact (k scoreA scoreB : Z) : Z * Z :=
  let expectedA := (1 / (1 + 10 ^ k))%Q in
  let expectedB := (1 - expectedA)%Q in
  let actual :=
    if (scoreA =? 0) && (scoreB =? 0) then ((1 # 2)%Q, (1 # 2)%Q)
    else ((inject_Z scoreA / inject_Z (scoreA + scoreB))%Q,
          (inject_Z scoreB / inject_Z (scoreA + scoreB))%Q) in
  let multiplier :=
    if 0 <? Z.max scoreA scoreB
    then ((1 # 2) + inject_Z (Z.abs (scoreA - scoreB))
                    / inject_Z (Z.max scoreA scoreB))%Q
    else 1%Q in
  (int_of_float (32 * multiplier * (actual.1 - expectedA))%Q,
   int_of_float (32 * multiplier * (actual.2 - expectedB))%Q).

(** The scores 0 to 21 against each other, at the rating gaps -400, 0 and
    400. *)
Definition score_grid : list (Z * Z * Z) :=
  k ← [-1; 0; 1]; a ← seqZ 0 22; b ← seqZ 0 22; [(k, a, b)].

(** ** Stores and requests of the examples *)

(** The store after [POST /sessions {player_ids: [1, 2]}] on the initial
    one. *)
Definition one_session_store : Store := (create_session [1; 2] init_store).2.

Definition lone_score_update : MatchUpdate :=
  {| u_player1_score := Some (JInt 11); u_player2_score := None; u_notes := None |}.

Definition lone_score_create : MatchCreate :=
  {| c_session_id := Some 1; c_player1_id := Some 1; c_player2_id := Some 2;
     c_player1_score := Some 11; c_player2_score := None; c_notes := None |}.

Definition negative_score_create : MatchCreate :=
  {| c_session_id := Some 1; c_player1_id := Some 1; c_player2_id := Some 2;
     c_player1_score := Some (-5); c_player2_score := Some 3; c_notes := None |}.

Definition lone_negative_create : MatchCreate :=
  {| c_session_id := Some 1; c_player1_id := Some 1; c_player2_id := Some 2;
     c_player1_score := Some (-5); c_player2_score := None; c_notes := None |}.

Definition score_11_0 : MatchUpdate :=
  {| u_player1_score := Some (JInt 11); u_player2_score := Some (JInt 0);
     u_notes := None |}.

Definition notes_only : MatchUpdate :=
  {| u_player1_score := None; u_player2_score := None;
     u_notes := Some (Some "good game"%string) |}.

(** Match 1 of the session once it is scored 11-0 at time 100. *)
Definition scored_match : Match :=
  {| session_id := 1; player1_id := 1; player2_id := 2;
     player1_score := Some 11; player2_score := Some 0; winner_id := Some 1;
     player1_elo_before := Some 1000; player2_elo_before := Some 1000;
     player1_elo_change := Some 24; player2_elo_change := Some (-24);
     completed_at := Some 100; notes := None |}.

(** The store after match 1 of the session was scored 11-0. *)
Definition scored_store : Store :=
  (update_match pow10_floor 1 score_11_0 100 one_session_store).2.

Definition boolean_score_update : MatchUpdate :=
  {| u_player1_score := Some (JBool true); u_player2_score := Some (JInt 0);
     u_notes := None |}.

Definition negative_score_update : MatchUpdate :=
  {| u_player1_score := Some (JInt (-5)); u_player2_score := Some (JInt 3);
     u_notes := None |}.

Definition text_score_update : MatchUpdate :=
  {| u_player1_score := Some JNotInt; u_player2_score := Some (JInt 3);
     u_notes := None |}.

Definition score_5_5 : MatchUpdate :=
  {| u_player1_score := Some (JInt 5); u_player2_score := Some (JInt 5);
     u_notes := None |}.

(** The store after match 1 of the session ended in a 5-5 tie. *)
Definition tie_store : Store :=
  (update_match pow10_floor 1 score_5_5 100 one_session_store).2.

(** A store whose single completed match carries the changes [+1] and
    [0]: the two changes of a match are truncated separately, and the
    specification notes that they need not sum to zero. *)
Definition skew_store : Store :=
  {| players := <[1 := with_rating (new_player "Miklas") 1001]> (players init_store);
     sessions := {[1 := mkSession None]};
     matches :=
       {[1 := {| session_id := 1; player1_id := 1; player2_id := 2;
                 player1_score := Some 11; player2_score := Some 9;
                 winner_id := Some 1;
                 player1_elo_before := Some 1000; player2_elo_before := Some 1000;
                 player1_elo_change := Some 1; player2_elo_change := Some 0;
                 completed_at := Some 100; notes := None |}]} |}.

(** ** The player handlers and the start-up data *)

(** What leaves the body of a handler that runs under
    [validate_json_request]: a response, or an exception that the body
    does not catch. *)
Inductive Outcome :=
| Response (r : reply)
| Uncaught.

(** The value under the [name] key of a JSON body: a string, or anything
    else ([null] included), on which [.strip()] raises. *)
Inductive JText :=
| JString (s : string)
| JNotString.

(** Body of [POST /players]; [None] when the key is absent. *)
Record PlayerCreate := mkPlayerCreate {
  n_name : option JText
}.

(** [Player.query.filter_by(name=name).first()] finds a row. *)
Definition name_taken (nm : string) (ps : gmap Z Player) : bool :=
  bool_decide (Exists (λ kp : Z * Player, name kp.2 = nm) (table_rows ps)).

(** [db.session.add(Player(name=name))] *)
Definition add_player (nm : string) (db : Store) : Store :=
  {| players := <[fresh_id (players db) := new_player nm]> (players db);
     sessions := sessions db; matches := matches db |}.

(** *** [POST /players] *)
Definition create_player (data : PlayerCreate) (db : Store) : Outcome :=
  match default (JString "") (n_name data) with
  | JNotString => Uncaught
  | JString s =>
      let nm := strip s in
      if bool_decide (nm = ""%string) then Response (400, db)
      else if name_taken nm (players db) then Response (400, db)
      else Response (201, add_player nm db)
  end.

Definition deactivated (p : Player) : Player :=
  {| name := name p; elo_rating := elo_rating p; active := false |}.

(** *** [DELETE /players/<id>] *)
Definition delete_player (player_id : Z) (db : Store) : reply :=
  match players db !! player_id with
  | None => (404, db)
  | Some p =>
      (200, {| players := <[player_id := deactivated p]> (players db);
               sessions := sessions db; matches := matches db |})
  end.

(** *** [GET /players] *)
Definition get_players (db : Store) : list (Z * Player) :=
  filter (λ kp : Z * Player, active kp.2 = true) (table_rows (players db)).

(** *** [init_database]: the default players are added unless a player of
    that name exists. *)
Definition default_players : list string :=
  ["Miklas"; "Morten"; "Patrick"; "Jens"]%string.

Definition init_database (db : Store) : Store :=
  foldl (λ acc nm, if name_taken nm (players acc) then acc else add_player nm acc)
        db default_players.

(** ** The request decorator ([validate_json_request]) *)

(** [content_type] is the header of the request, if any.  [body] is what
    [request.get_json()] gives: [None] when it raises (the text is not
    JSON), [Some None] for the JSON value [null], which the decorator
    replaces by the empty object, [Some (Some d)] for an object.  The
    call of the handler stands inside the [try], so an exception that
    leaves the handler is answered like unreadable JSON, and what the
    handler did to the session is not committed. *)
Definition validate_json_request {D} (empty : D) (f : D → Store → Outcome)
    (content_type : option string) (body : option (option D)) (db : Store)
  : reply :=
  if bool_decide (content_type = Some "application/json"%string) then
    match body with
    | None => (400, db)
    | Some data =>
        match f (default empty data) db with
        | Response r => r
        | Uncaught => (400, db)
        end
    end
  else (400, db).

(** The handler bodies of the matches and sessions report an exception
    that leaves them by the status it has when nothing else catches it:
    500, and 404 for the [NotFound] that [get_or_404] raises.
    [uncaught_at] recovers the outcome from the statuses that a body
    reaches only by raising. *)
Definition uncaught_at (statuses : list Z) (r : reply) : Outcome :=
  if bool_decide (r.1 ∈ statuses) then Uncaught else Response r.

(** Body of [POST /sessions]; [data.get('player_ids', [])]. *)
Record SessionCreate := mkSessionCreate {
  s_player_ids : option (list Z)
}.

Definition empty_player : PlayerCreate := {| n_name := None |}.
Definition empty_session : SessionCreate := {| s_player_ids := None |}.
Definition empty_create : MatchCreate :=
  {| c_session_id := None; c_player1_id := None; c_player2_id := None;
     c_player1_score := None; c_player2_score := None; c_notes := None |}.
Definition empty_update : MatchUpdate :=
  {| u_player1_score := None; u_player2_score := None; u_notes := None |}.

Section Endpoints.

Variable pow10 : Q -> option Q.

(** The four decorated routes: [POST /players], [POST /sessions],
    [POST /matches] and [PUT /matches/<id>]. *)
Definition post_players := validate_json_request empty_player create_player.

Definition post_sessions :=
  validate_json_request empty_session
    (λ data db, uncaught_at [500] (create_session (default [] (s_player_ids data)) db)).

Definition post_matches (now : Z) :=
  validate_json_request empty_create
    (λ data db, uncaught_at [500] (create_match pow10 data now db)).

Definition put_match (match_id : Z) (now : Z) :=
  validate_json_request empty_update
    (λ data db, uncaught_at [404; 500] (update_match pow10 match_id data now db)).

End Endpoints.

(** ** The backup trigger ([BackupScheduler.trigger_match_backup]) *)

(** What [db_manager.create_backup] does when it is called: it returns a
    path, returns nothing, or raises. *)
Inductive BackupResult :=
| BackupPath
| BackupNothing
| BackupRaised.

Record BackupScheduler := mkBackupScheduler {
  match_counter : Z;
  matches_per_backup : Z
}.

(** [setup_schedule] *)
Definition new_scheduler : BackupScheduler :=
  {| match_counter := 0; matches_per_backup := 10 |}.

(** The scheduler after the call, and whether a backup was asked for. *)
Definition trigger_match_backup (create_backup : BackupResult) (s : BackupScheduler)
  : BackupScheduler * bool :=
  let counter := match_counter s + 1 in
  if matches_per_backup s <=? counter then
    match create_backup with
    | BackupPath =>
        ({| match_counter := 0; matches_per_backup := matches_per_backup s |}, true)
    | _ =>
        ({| match_counter := counter; matches_per_backup := matches_per_backup s |},
         true)
    end
  else ({| match_counter := counter; matches_per_backup := matches_per_backup s |},
        false).

(** A run of calls, one backup result for each; the number of backups
    asked for is counted. *)
Definition trigger_run (results : list BackupResult) (s : BackupScheduler)
  : BackupScheduler * Z :=
  foldl (λ acc r, let '(s', asked) := trigger_match_backup r acc.1 in
                  (s', acc.2 + Z.b2z asked))
        (s, 0) results.

(** ** Further notions used to state the properties *)

(** Referential integrity: a match refers to two different players and to
    a session, all of which have a row. *)
Definition references_ok (db : Store) : Prop :=
  ∀ k m, matches db !! k = Some m →
         sides_exist (players db) m
         ∧ is_Some (sessions db !! session_id m)
         ∧ player1_id m ≠ player2_id m.

(** No two players share a name. *)
Definition names_distinct (ps : gmap Z Player) : Prop :=
  ∀ i j p q, ps !! i = Some p → ps !! j = Some q → name p = name q → i = j.

(** Every player of [db] is still there in [db'], under the same name,
    and is not active again if it was not. *)
Definition players_kept (db db' : Store) : Prop :=
  ∀ pid p, players db !! pid = Some p →
           ∃ p', players db' !! pid = Some p' ∧ name p' = name p
                 ∧ (active p = false → active p' = false).

(** The two matches have the same session and the same players. *)
Definition same_sides (m m' : Match) : Prop :=
  session_id m' = session_id m ∧ player1_id m' = player1_id m
  ∧ player2_id m' = player2_id m.

(** ** Further requests of the examples *)

Definition named_anna : PlayerCreate :=
  {| n_name := Some (JString "  Anna ") |}.

Definition json : option string := Some "application/json"%string.

(** [POST /matches] with the score 11-0 between players 3 and 4. *)
Definition scored_create : MatchCreate :=
  {| c_session_id := Some 1; c_player1_id := Some 3; c_player2_id := Some 4;
     c_player1_score := Some 11; c_player2_score := Some 0; c_notes := None |}.

(** * Properties *)

(** ** Binary64 rounding *)

Section FloatLemmas.
#[local] Open Scope Q_scope.

Lemma pow2_pos e : 0 < 2 ^ e.
Proof. apply Qpower_0_lt. reflexivity. Qed.

Lemma pow2_add a b : 2 ^ (a + b) == 2 ^ a * 2 ^ b.
Proof. apply Qpower_plus. discriminate. Qed.

Lemma pow2_le a b : (a <= b)%Z -> 2 ^ a <= 2 ^ b.
Proof. intros H. apply Qpower_le_compat_l; [exact H | discriminate]. Qed.

Lemma pow2_lt_inv a b : 2 ^ a < 2 ^ b -> (a < b)%Z.
Proof. intros H. apply (Qpower_lt_compat_l_inv 2); [exact H | reflexivity]. Qed.

Lemma pow2_succ a : 2 ^ (a + 1) == 2 * 2 ^ a.
Proof. rewrite pow2_add. change (2 ^ 1) with 2. ring. Qed.

(* Z.log2 bounds as rationals *)
Lemma log2_bounds_Q (n : Z) : (0 < n)%Z ->
  2 ^ (Z.log2 n) <= inject_Z n /\ inject_Z n < 2 ^ (Z.log2 n + 1).
Proof.
  intros Hn. destruct (Z.log2_spec n Hn) as [H1 H2].
  pose proof (Z.log2_nonneg n) as H0.
  rewrite <- !(Zpower_Qpower 2) by lia.
  split; [rewrite <- Zle_Qle | rewrite <- Zlt_Qlt]; [exact H1|].
  replace (Z.log2 n + 1)%Z with (Z.succ (Z.log2 n)) by lia. exact H2.
Qed.

Lemma ilog2_spec q : 0 < q -> 2 ^ ilog2 q <= q /\ q < 2 ^ (ilog2 q + 1).
Proof.
  intros Hq. unfold ilog2.
  destruct q as [n d]. cbn [Qnum Qden].
  assert (Hn : (0 < n)%Z) by (unfold Qlt in Hq; cbn in Hq; lia).
  destruct (log2_bounds_Q n Hn) as [Hn1 Hn2].
  destruct (log2_bounds_Q (Z.pos d) eq_refl) as [Hd1 Hd2].
  set (a := Z.log2 n) in *. set (b := Z.log2 (Z.pos d)) in *.
  assert (Heq : n # d == inject_Z n / inject_Z (Z.pos d)) by (apply Qmake_Qdiv).
  assert (Hdpos : 0 < inject_Z (Z.pos d)) by reflexivity.
  pose proof (pow2_pos a) as Pa. pose proof (pow2_pos b) as Pb.
  pose proof (pow2_pos (a - b)) as Pab.
  assert (E1 : 2 ^ a == 2 ^ (a - b) * 2 ^ b).
  { rewrite <- pow2_add. replace (a - b + b)%Z with a by lia. reflexivity. }
  assert (Hq' : (n # d) * inject_Z (Z.pos d) == inject_Z n).
  { rewrite Heq. field. discriminate. }
  destruct (Qle_bool (2 ^ (a - b)) (n # d)) eqn:Hb.
  - apply Qle_bool_iff in Hb. split; [exact Hb|].
    (* n/d < 2^(a+1)/2^b *)
    apply (Qmult_lt_r _ _ (inject_Z (Z.pos d))); [exact Hdpos|].
    rewrite Hq'. rewrite pow2_succ.
    apply Qlt_le_trans with (2 ^ (a + 1)); [exact Hn2|].
    rewrite pow2_succ, E1.
    rewrite <- !Qmult_assoc.
    apply Qmult_le_l; [reflexivity|]. apply Qmult_le_l; [exact Pab|]. exact Hd1.
  - assert (Hlt : (n # d) < 2 ^ (a - b)).
    { apply Qnot_le_lt. intros C. apply Qle_bool_iff in C. congruence. }
    replace (a - b - 1 + 1)%Z with (a - b)%Z by lia.
    split; [|exact Hlt].
    apply (Qmult_le_r _ _ (inject_Z (Z.pos d))); [exact Hdpos|].
    rewrite Hq'.
    apply Qle_trans with (2 ^ a); [|exact Hn1].
    assert (E2 : 2 ^ a == 2 ^ (a - b - 1) * 2 ^ (b + 1)).
    { rewrite <- pow2_add. replace (a - b - 1 + (b + 1))%Z with a by lia. reflexivity. }
    rewrite E2. apply Qmult_le_l; [apply pow2_pos|]. apply Qlt_le_weak. exact Hd2.
Qed.

Lemma ilog2_mono x y : 0 < x -> x <= y -> (ilog2 x <= ilog2 y)%Z.
Proof.
  intros Hx Hxy.
  destruct (ilog2_spec x Hx) as [H1 _].
  destruct (ilog2_spec y (Qlt_le_trans _ _ _ Hx Hxy)) as [_ H2].
  assert (H : 2 ^ ilog2 x < 2 ^ (ilog2 y + 1)) by lra.
  apply pow2_lt_inv in H. lia.
Qed.

Lemma rne_Z z : rne (inject_Z z) = z.
Proof.
  unfold rne. rewrite Qfloor_Z.
  destruct (Qcompare_spec (inject_Z z - inject_Z z) (1 # 2)); [exfalso; lra | reflexivity | exfalso; lra].
Qed.

Lemma rne_mono x y : x <= y -> (rne x <= rne y)%Z.
Proof.
  intros Hxy. unfold rne.
  pose proof (Qfloor_resp_le x y Hxy) as Hf.
  pose proof (Qfloor_le x) as Hx1. pose proof (Qlt_floor x) as Hx2.
  pose proof (Qfloor_le y) as Hy1. pose proof (Qlt_floor y) as Hy2.
  set (fx := Qfloor x) in *. set (fy := Qfloor y) in *.
  rewrite inject_Z_plus in Hx2, Hy2. change (inject_Z 1) with 1 in Hx2, Hy2.
  destruct (Z.eq_dec fx fy) as [E|NE].
  - rewrite <- E in *. clearbody fx. clear fy E Hf.
    destruct (Qcompare_spec (x - inject_Z fx) (1 # 2));
      destruct (Qcompare_spec (y - inject_Z fx) (1 # 2));
      try destruct (Z.even fx); try lia; exfalso; lra.
  - assert (fx + 1 <= fy)%Z by lia.
    destruct (Qcompare (x - inject_Z fx) (1 # 2));
      destruct (Qcompare (y - inject_Z fy) (1 # 2));
      try destruct (Z.even fx); try destruct (Z.even fy); lia.
Qed.

Lemma rne_comp x y : x == y -> rne x = rne y.
Proof.
  intros E. apply Z.le_antisymm; apply rne_mono; rewrite E; apply Qle_refl.
Qed.

Lemma rnd_mag_eq q : rnd_mag q == inject_Z (rne (q / 2 ^ ulp_exp q)) * 2 ^ ulp_exp q.
Proof. unfold rnd_mag. apply Qred_correct. Qed.

Lemma rnd_mag_nonneg q : 0 <= q -> 0 <= rnd_mag q.
Proof.
  intros Hq. rewrite rnd_mag_eq.
  pose proof (pow2_pos (ulp_exp q)) as P.
  apply Qmult_le_0_compat; [|lra].
  change 0 with (inject_Z 0). rewrite <- Zle_Qle.
  rewrite <- (rne_Z 0) at 1. apply rne_mono.
  apply Qle_shift_div_l; [exact P|]. change (inject_Z 0) with 0. lra.
Qed.

Lemma rnd_mag_mono x y : 0 < x -> x <= y -> rnd_mag x <= rnd_mag y.
Proof.
  intros Hx Hxy. assert (Hy : 0 < y) by lra.
  rewrite !rnd_mag_eq.
  pose proof (ilog2_mono x y Hx Hxy) as Hl.
  pose proof (pow2_pos (ulp_exp x)) as Px. pose proof (pow2_pos (ulp_exp y)) as Py.
  destruct (Z.eq_dec (ulp_exp x) (ulp_exp y)) as [E|NE].
  - rewrite E in *. apply Qmult_le_compat_r; [|lra].
    rewrite <- Zle_Qle. apply rne_mono.
    apply Qmult_le_compat_r; [exact Hxy|].
    apply Qlt_le_weak, Qinv_lt_0_compat, Py.
  - assert (Hlt : (ulp_exp x < ulp_exp y)%Z) by (unfold ulp_exp in *; lia).
    assert (Ey : ulp_exp y = (ilog2 y - 52)%Z) by (unfold ulp_exp in *; lia).
    assert (Ex : (ilog2 x - 52 <= ulp_exp x)%Z) by (unfold ulp_exp; lia).
    destruct (ilog2_spec x Hx) as [_ Hx2]. destruct (ilog2_spec y Hy) as [Hy1 _].
    (* lower bound on the significand of y *)
    assert (My : (2 ^ 52 <= rne (y / 2 ^ ulp_exp y))%Z).
    { rewrite <- (rne_Z (2 ^ 52)). apply rne_mono.
      apply Qle_shift_div_l; [exact Py|].
      rewrite (Zpower_Qpower 2 52) by lia. change (inject_Z 2) with 2.
      rewrite <- pow2_add. replace (52 + ulp_exp y)%Z with (ilog2 y) by lia. exact Hy1. }
    assert (Mx : (rne (x / 2 ^ ulp_exp x) <= 2 ^ 53)%Z).
    { rewrite <- (rne_Z (2 ^ 53)). apply rne_mono.
      apply Qle_shift_div_r; [exact Px|].
      rewrite (Zpower_Qpower 2 53) by lia. change (inject_Z 2) with 2.
      rewrite <- pow2_add.
      apply Qle_trans with (2 ^ (ilog2 x + 1)); [lra|]. apply pow2_le. lia. }
    apply Qle_trans with (inject_Z (2 ^ 53) * 2 ^ ulp_exp x).
    { apply Qmult_le_compat_r; [|lra]. rewrite <- Zle_Qle. exact Mx. }
    apply Qle_trans with (inject_Z (2 ^ 52) * 2 ^ ulp_exp y).
    2:{ apply Qmult_le_compat_r; [|lra]. rewrite <- Zle_Qle. exact My. }
    rewrite (Zpower_Qpower 2 53), (Zpower_Qpower 2 52) by lia. change (inject_Z 2) with 2.
    rewrite <- !pow2_add. apply pow2_le. lia.
Qed.

Lemma Qnum_sign q :
  match Qnum q with Z0 => q == 0 | Zpos _ => 0 < q | Zneg _ => q < 0 end.
Proof. destruct q as [[|n|n] d]; cbn; unfold Qeq, Qlt; cbn; lia. Qed.

Lemma rnd64_nonneg q : 0 <= q -> 0 <= rnd64 q.
Proof.
  intros H. unfold rnd64. pose proof (Qnum_sign q) as S.
  destruct (Qnum q); [lra| apply rnd_mag_nonneg; lra | lra].
Qed.

Lemma rnd64_nonpos q : q <= 0 -> rnd64 q <= 0.
Proof.
  intros H. unfold rnd64. pose proof (Qnum_sign q) as S.
  destruct (Qnum q); [lra | lra |].
  assert (0 <= rnd_mag (- q)) by (apply rnd_mag_nonneg; lra). lra.
Qed.

Theorem rnd64_mono x y : x <= y -> rnd64 x <= rnd64 y.
Proof.
  intros Hxy.
  destruct (Qlt_le_dec 0 x) as [Hx|Hx].
  - (* both positive *)
    unfold rnd64. pose proof (Qnum_sign x) as Sx. pose proof (Qnum_sign y) as Sy.
    destruct (Qnum x); [lra| |lra]. destruct (Qnum y); [lra| |lra].
    apply rnd_mag_mono; assumption.
  - destruct (Qlt_le_dec y 0) as [Hy|Hy].
    + unfold rnd64. pose proof (Qnum_sign x) as Sx. pose proof (Qnum_sign y) as Sy.
      destruct (Qnum x); [lra|lra|]. destruct (Qnum y); [lra|lra|].
      apply Qopp_le_compat. apply rnd_mag_mono; lra.
    + apply Qle_trans with 0; [apply rnd64_nonpos | apply rnd64_nonneg]; assumption.
Qed.

End FloatLemmas.

(** ** Consequences for the float operations *)

Section FloatFacts.
#[local] Open Scope Q_scope.

Lemma rnd64_comp x y : x == y -> rnd64 x == rnd64 y.
Proof.
  intros E. apply Qle_antisym; apply rnd64_mono; rewrite E; apply Qle_refl.
Qed.

#[global] Instance rnd64_proper : Proper (Qeq ==> Qeq) rnd64.
Proof. intros x y E. apply rnd64_comp, E. Qed.

Lemma rnd64_lower a x : rnd64 a == a -> a <= x -> a <= rnd64 x.
Proof. intros Fa H. rewrite <- Fa. apply rnd64_mono, H. Qed.

Lemma rnd64_upper b x : rnd64 b == b -> x <= b -> rnd64 x <= b.
Proof. intros Fb H. rewrite <- Fb. apply rnd64_mono, H. Qed.

Lemma rnd64_0 : rnd64 0 == 0. Proof. reflexivity. Qed.
Lemma rnd64_1 : rnd64 1 == 1. Proof. vm_compute. reflexivity. Qed.
Lemma rnd64_m1 : rnd64 (-1) == -1. Proof. vm_compute. reflexivity. Qed.
Lemma rnd64_half : rnd64 (1 # 2) == 1 # 2. Proof. vm_compute. reflexivity. Qed.
Lemma rnd64_3half : rnd64 (3 # 2) == 3 # 2. Proof. vm_compute. reflexivity. Qed.
Lemma rnd64_16 : rnd64 16 == 16. Proof. vm_compute. reflexivity. Qed.
Lemma rnd64_48 : rnd64 48 == 48. Proof. vm_compute. reflexivity. Qed.
Lemma rnd64_m48 : rnd64 (-48) == -48. Proof. vm_compute. reflexivity. Qed.

Lemma Zdiv_unit_Q (a b : Z) :
  (0 <= a <= b)%Z -> (0 < b)%Z -> 0 <= inject_Z a / inject_Z b <= 1.
Proof.
  intros [Ha Hab] Hb.
  assert (Hb' : 0 < inject_Z b) by (change 0 with (inject_Z 0); rewrite <- Zlt_Qlt; exact Hb).
  assert (Ha' : 0 <= inject_Z a) by (change 0 with (inject_Z 0); rewrite <- Zle_Qle; exact Ha).
  assert (Hab' : inject_Z a <= inject_Z b) by (rewrite <- Zle_Qle; exact Hab).
  split.
  - apply Qle_shift_div_l; [exact Hb'|]. lra.
  - apply Qle_shift_div_r; [exact Hb'|]. lra.
Qed.

Lemma not_overflows q B : Qabs q <= B -> B < 2 ^ 1024 -> overflows q = false.
Proof.
  intros H HB. unfold overflows.
  destruct (Qle_bool (2 ^ 1024) (Qabs q)) eqn:E; [|reflexivity].
  apply Qle_bool_iff in E. exfalso. lra.
Qed.

Lemma int_truediv_Some a b q :
  int_truediv a b = Some q -> b <> 0%Z /\ q = rnd64 (inject_Z a / inject_Z b).
Proof.
  unfold int_truediv. destruct (Z.eqb_spec b 0); [discriminate|].
  destruct (overflows _); [discriminate|]. intros [= <-]. auto.
Qed.

Lemma int_truediv_unit a b :
  (0 <= a <= b)%Z -> (0 < b)%Z ->
  exists q, int_truediv a b = Some q /\ 0 <= q <= 1.
Proof.
  intros Hab Hb. pose proof (Zdiv_unit_Q a b Hab Hb) as [H0 H1].
  assert (B : 0 <= rnd64 (inject_Z a / inject_Z b) <= 1).
  { split; [apply rnd64_lower | apply rnd64_upper]; auto using rnd64_0, rnd64_1. }
  exists (rnd64 (inject_Z a / inject_Z b)). split; [|exact B].
  unfold int_truediv. destruct (Z.eqb_spec b 0); [lia|].
  rewrite (not_overflows _ 1); [reflexivity| |reflexivity].
  apply Qabs_Qle_condition. lra.
Qed.

Lemma int_of_float_bound (x : Q) (n : Z) :
  (0 <= n)%Z -> - inject_Z n <= x <= inject_Z n ->
  (- n <= int_of_float x <= n)%Z.
Proof.
  intros Hn [Hl Hu]. unfold int_of_float. destruct x as [m d]. cbn [Qnum Qden].
  unfold Qle in Hl, Hu. cbn in Hl, Hu.
  assert (Hd : (0 < Z.pos d)%Z) by lia.
  destruct (Z.le_gt_cases 0 m) as [Hm|Hm].
  - rewrite Z.quot_div_nonneg by lia. split.
    + pose proof (Z.div_pos m (Z.pos d)). lia.
    + apply Z.div_le_upper_bound; lia.
  - replace m with (- (- m))%Z by lia. rewrite Z.quot_opp_l by lia.
    rewrite Z.quot_div_nonneg by lia. split.
    + assert ((- m) / Z.pos d <= n)%Z by (apply Z.div_le_upper_bound; lia). lia.
    + pose proof (Z.div_pos (- m) (Z.pos d)). lia.
Qed.

Lemma int_truediv_400_defined (d : Z) :
  (Z.abs d <= 2 ^ 64)%Z -> is_Some (int_truediv d 400).
Proof.
  intros Hd. unfold int_truediv. cbn [Z.eqb].
  assert (F1 : rnd64 (2 ^ 64) == 2 ^ 64) by (vm_compute; reflexivity).
  assert (F2 : rnd64 (- 2 ^ 64) == - 2 ^ 64) by (vm_compute; reflexivity).
  assert (B : - 2 ^ 64 <= inject_Z d / 400 <= 2 ^ 64).
  { assert (Hl : (- 2 ^ 64 <= d)%Z) by lia. assert (Hu : (d <= 2 ^ 64)%Z) by lia.
    rewrite Zle_Qle in Hl, Hu. rewrite inject_Z_opp in Hl.
    rewrite (Zpower_Qpower 2 64) in Hl, Hu by lia. change (inject_Z 2) with 2 in Hl, Hu.
    assert (P : 0 < 2 ^ 64) by reflexivity.
    split; [apply Qle_shift_div_l | apply Qle_shift_div_r]; try reflexivity; lra. }
  rewrite (not_overflows _ (2 ^ 64)); [eauto| |reflexivity].
  apply Qabs_Qle_condition. destruct B as [B1 B2].
  split; [rewrite <- F2 | rewrite <- F1]; by apply rnd64_mono.
Qed.

End FloatFacts.

(** ** The rating engine *)

Section EngineFacts.
Variable pow10 : Q -> option Q.
#[local] Open Scope Q_scope.

(** the rounded expectation lies in the unit interval *)
Lemma expected_unit p : 0 <= p -> 0 <= fdiv 1 (fadd 1 p) <= 1.
Proof.
  intros Hp. unfold fdiv, fadd.
  assert (H1 : 1 <= rnd64 (1 + p)) by (apply rnd64_lower; [apply rnd64_1 | lra]).
  set (s := rnd64 (1 + p)) in *.
  split; [apply rnd64_lower | apply rnd64_upper]; auto using rnd64_0, rnd64_1.
  - apply Qle_shift_div_l; lra.
  - apply Qle_shift_div_r; lra.
Qed.

Lemma fsub_unit a e : 0 <= a <= 1 -> 0 <= e <= 1 -> -1 <= fsub a e <= 1.
Proof.
  intros Ha He. unfold fsub.
  split; [apply rnd64_lower | apply rnd64_upper]; auto using rnd64_m1, rnd64_1; lra.
Qed.

Lemma fsub_1_unit e : 0 <= e <= 1 -> 0 <= fsub 1 e <= 1.
Proof.
  intros He. unfold fsub.
  split; [apply rnd64_lower | apply rnd64_upper]; auto using rnd64_0, rnd64_1; lra.
Qed.

Lemma scaled_bound m d :
  0 <= m <= 48 -> -1 <= d <= 1 -> (-48 <= int_of_float (fmul m d) <= 48)%Z.
Proof.
  intros Hm Hd. apply (int_of_float_bound _ 48); [lia|].
  change (inject_Z 48) with 48. unfold fmul.
  split; [apply rnd64_lower | apply rnd64_upper]; auto using rnd64_m48, rnd64_48; nra.
Qed.

Lemma K_mult_bound m : (1 # 2) <= m <= (3 # 2) -> 0 <= fmul 32 m <= 48.
Proof.
  intros Hm. unfold fmul.
  split; [apply rnd64_lower | apply rnd64_upper]; auto using rnd64_0, rnd64_48; lra.
Qed.

Lemma actual_unit s1 s2 act :
  (0 <= s1)%Z -> (0 <= s2)%Z ->
  (if (s1 + s2 =? 0)%Z then Some (1 # 2, 1 # 2)
   else a1 ← int_truediv s1 (s1 + s2); a2 ← int_truediv s2 (s1 + s2); Some (a1, a2))
  = Some act ->
  0 <= act.1 <= 1 /\ 0 <= act.2 <= 1.
Proof.
  intros H1 H2. destruct (Z.eqb_spec (s1 + s2) 0).
  - intros [= <-]. cbn. lra.
  - destruct (int_truediv_unit s1 (s1 + s2)) as (a1 & E1 & B1); [lia|lia|].
    destruct (int_truediv_unit s2 (s1 + s2)) as (a2 & E2 & B2); [lia|lia|].
    rewrite E1, E2. cbn. intros [= <-]. cbn. auto.
Qed.

Lemma actual_defined s1 s2 :
  (0 <= s1)%Z -> (0 <= s2)%Z ->
  is_Some (if (s1 + s2 =? 0)%Z then Some (1 # 2, 1 # 2)
   else a1 ← int_truediv s1 (s1 + s2); a2 ← int_truediv s2 (s1 + s2); Some (a1, a2)).
Proof.
  intros H1 H2. destruct (Z.eqb_spec (s1 + s2) 0); [eauto|].
  destruct (int_truediv_unit s1 (s1 + s2)) as (a1 & E1 & B1); [lia|lia|].
  destruct (int_truediv_unit s2 (s1 + s2)) as (a2 & E2 & B2); [lia|lia|].
  rewrite E1, E2. cbn. eauto.
Qed.

Lemma multiplier_range s1 s2 :
  (0 <= s1)%Z -> (0 <= s2)%Z ->
  exists m,
    (if (Z.max s1 s2 =? 0)%Z then Some 1
     else d ← int_truediv (Z.abs (s1 - s2)) (Z.max s1 s2); Some (fadd (1 # 2) d))
    = Some m /\ (1 # 2) <= m <= (3 # 2).
Proof.
  intros H1 H2. destruct (Z.eqb_spec (Z.max s1 s2) 0).
  - exists 1. split; [reflexivity | lra].
  - destruct (int_truediv_unit (Z.abs (s1 - s2)) (Z.max s1 s2)) as (d & E & B);
      [lia|lia|].
    rewrite E. cbn. eexists; split; [reflexivity|]. unfold fadd.
    split; [apply rnd64_lower | apply rnd64_upper];
      auto using rnd64_half, rnd64_3half; lra.
Qed.

End EngineFacts.

(** C9.  For all integer ratings and non-negative integer scores, a result
    of [calculate_elo_changes] has both changes of absolute value at most
    48, and there is a result whenever the division of the rating gap and
    the power do not overflow.  The hypothesis is that the C library's
    [pow(10.0, x)] is never negative. *)
Theorem elo_change_bounded (pow10 : Q -> option Q) (elo1 elo2 score1 score2 : Z) :
  pow10_nonneg pow10 -> 0 <= score1 -> 0 <= score2 ->
  (forall x p, int_truediv (elo2 - elo1) 400 = Some x -> pow10 x = Some p ->
     is_Some (calculate_elo_changes pow10 elo1 elo2 score1 score2))
  /\ (forall c1 c2,
        calculate_elo_changes pow10 elo1 elo2 score1 score2 = Some (c1, c2) ->
        Z.abs c1 <= 48 /\ Z.abs c2 <= 48).
Proof.
  intros Hpow H1 H2. unfold calculate_elo_changes. split.
  - intros x p Ex Ep. rewrite Ex. cbn. rewrite Ep. cbn.
    destruct (actual_defined score1 score2 H1 H2) as [act ->].
    destruct (multiplier_range score1 score2 H1 H2) as (m & -> & _).
    cbn. eauto.
  - intros c1 c2.
    destruct (int_truediv (elo2 - elo1) 400) as [x|]; [|discriminate].
    cbn. destruct (pow10 x) as [p|] eqn:Ep; [|discriminate]. cbn.
    pose proof (expected_unit p (Hpow _ _ Ep)) as He1.
    pose proof (fsub_1_unit _ He1) as He2.
    destruct (if score1 + score2 =? 0 then _ else _) as [act|] eqn:Ea; [|discriminate].
    destruct (actual_unit _ _ _ H1 H2 Ea) as [Ba1 Ba2].
    destruct (multiplier_range score1 score2 H1 H2) as (m & -> & Bm).
    cbn. intros [= <- <-].
    pose proof (K_mult_bound m Bm) as BK.
    pose proof (scaled_bound _ _ BK (fsub_unit _ _ Ba1 He1)).
    pose proof (scaled_bound _ _ BK (fsub_unit _ _ Ba2 He2)).
    lia.
Qed.

Lemma int_truediv_0_400 : int_truediv 0 400 = Some 0%Q.
Proof. vm_compute. reflexivity. Qed.

Lemma calculate_equal_ratings pow10 r s1 s2 :
  pow10 0%Q = Some 1%Q ->
  calculate_elo_changes pow10 r r s1 s2
  = calculate_elo_changes (fun _ => Some 1%Q) 0 0 s1 s2.
Proof.
  intros H0. unfold calculate_elo_changes.
  rewrite Z.sub_diag. cbn [Z.sub Z.opp Z.add]. rewrite int_truediv_0_400. cbn [mbind option_bind].
  rewrite H0. reflexivity.
Qed.

(** C1.  On positive ratings and non-negative scores
    [calculate_elo_changes] is the reference definition of section 4.1 of
    the specification: expected outcome [1/(1+10^((ratingB-ratingA)/400))],
    actual share of the points (one half each when both scores are zero),
    margin multiplier [0.5 + |scoreA-scoreB|/max] ([1.0] when the maximum
    is zero), [K = 32], each change truncated toward zero.  In particular
    [(1000, 1000, 11, 0)] gives [(24, -24)] and [(r, r, 0, 0)] gives
    [(0, 0)] for every rating [r].  The hypothesis is the C standard's
    [pow(x, 0) = 1]. *)
Theorem calculate_elo_changes_reference (pow10 : Q -> option Q) :
  pow10 0%Q = Some 1%Q ->
  (forall ratingA ratingB scoreA scoreB,
      0 < ratingA -> 0 < ratingB -> 0 <= scoreA -> 0 <= scoreB ->
      calculate_elo_changes pow10 ratingA ratingB scoreA scoreB
      = computeDeltas_spec pow10 ratingA ratingB scoreA scoreB)
  /\ calculate_elo_changes pow10 1000 1000 11 0 = Some (24, -24)
  /\ (forall r, calculate_elo_changes pow10 r r 0 0 = Some (0, 0)).
Proof.
  intros H0. split; [|split].
  - intros rA rB sA sB _ _ HA HB.
    unfold calculate_elo_changes, computeDeltas_spec.
    destruct (int_truediv (rB - rA) 400) as [x|]; [|reflexivity]. cbn [mbind option_bind].
    destruct (pow10 x) as [p|]; [|reflexivity]. cbn [mbind option_bind].
    assert (E1 : (sA + sB =? 0) = (sA =? 0) && (sB =? 0)).
    { destruct (Z.eqb_spec (sA + sB) 0), (Z.eqb_spec sA 0), (Z.eqb_spec sB 0); cbn; lia. }
    assert (E2 : (Z.max sA sB =? 0) = negb (0 <? Z.max sA sB)).
    { destruct (Z.eqb_spec (Z.max sA sB) 0), (Z.ltb_spec 0 (Z.max sA sB)); cbn; lia. }
    rewrite E1, E2. destruct (0 <? Z.max sA sB); reflexivity.
  - rewrite (calculate_equal_ratings pow10 1000 11 0 H0). vm_compute. reflexivity.
  - intros r. rewrite (calculate_equal_ratings pow10 r 0 0 H0). vm_compute. reflexivity.
Qed.

Lemma calculate_elo_changes_reference_witness :
  pow10_floor 0%Q = Some 1%Q
  /\ calculate_elo_changes pow10_floor 1200 1000 11 9
     = computeDeltas_spec pow10_floor 1200 1000 11 9
  /\ calculate_elo_changes pow10_floor 1000 1000 11 0 = Some (24, -24).
Proof.
  split; [reflexivity|].
  pose proof (calculate_elo_changes_reference pow10_floor eq_refl) as (H1 & H2 & _).
  split; [apply H1; lia | exact H2].
Defined.

(** On a grid of inputs the float computation gives what the reference
    definition gives in exact rational arithmetic: the scores up to 21 both
    ways, at rating gaps where the power of ten is exact. *)
Lemma float_agrees_with_exact_on_grid :
  Forall (λ '(k, a, b),
            calculate_elo_changes pow10_floor 1000 (1000 + 400 * k) a b
            = Some (computeDeltas_exact k a b))
         score_grid.
Proof.
  apply Forall_forall. intros [[k a] b] Hin.
  assert (H : forallb (λ '(k, a, b),
                bool_decide (calculate_elo_changes pow10_floor 1000 (1000 + 400 * k) a b
                             = Some (computeDeltas_exact k a b))) score_grid = true)
    by (vm_compute; reflexivity).
  rewrite forallb_forall in H. apply list_elem_of_In in Hin.
  specialize (H _ Hin). cbn in H. by apply bool_decide_eq_true_1 in H.
Qed.

(** ** Tables and fresh keys *)

Section Tables.
Context {A : Type}.
Implicit Types (m : gmap Z A) (k : Z) (x : A).

Lemma table_rows_perm m : table_rows m ≡ₚ map_to_list m.
Proof. apply merge_sort_Permutation. Qed.

Lemma elem_of_table_rows m k x : (k, x) ∈ table_rows m ↔ m !! k = Some x.
Proof. rewrite table_rows_perm. apply elem_of_map_to_list. Qed.

Lemma NoDup_table_keys m : NoDup (table_rows m).*1.
Proof. rewrite table_rows_perm. apply NoDup_fst_map_to_list. Qed.

Lemma length_table_rows m : length (table_rows m) = size m.
Proof. rewrite table_rows_perm. apply length_map_to_list. Qed.

(** the largest key bounds every key, and the next key is unused *)
Lemma foldr_max_ge (l : list Z) k : k ∈ l → k ≤ foldr Z.max 0 l.
Proof.
  induction l as [|y l IH]; [by intros ?%elem_of_nil|].
  intros [->|H]%elem_of_cons; cbn; [lia|]. specialize (IH H). lia.
Qed.

Lemma foldr_max_in (l : list Z) :
  0 ≤ foldr Z.max 0 l ∧ (foldr Z.max 0 l = 0 ∨ foldr Z.max 0 l ∈ l).
Proof.
  induction l as [|y l [IH0 IH]]; cbn; [split; [lia|by left]|].
  split; [lia|].
  destruct (Z.max_spec y (foldr Z.max 0 l)) as [[? ->]|[? ->]].
  - destruct IH as [->|IH]; [by left | right; by right].
  - right. by left.
Qed.

Lemma fresh_id_above m k : is_Some (m !! k) → k < fresh_id m.
Proof.
  intros [x Hx]. unfold fresh_id.
  assert (k ∈ (map_to_list m).*1).
  { apply list_elem_of_fmap. exists (k, x). split; [done|]. by apply elem_of_map_to_list. }
  pose proof (foldr_max_ge _ _ H). lia.
Qed.

Lemma fresh_id_fresh m k : fresh_id m ≤ k → m !! k = None.
Proof.
  intros Hk. destruct (m !! k) eqn:E; [|done].
  pose proof (fresh_id_above m k (mk_is_Some _ _ E)). lia.
Qed.

Lemma fresh_id_pos m : 1 ≤ fresh_id m.
Proof. unfold fresh_id. pose proof (foldr_max_in (map_to_list m).*1). lia. Qed.

Lemma fresh_id_insert m x : fresh_id (<[fresh_id m := x]> m) = fresh_id m + 1.
Proof.
  set (f := fresh_id m).
  assert (Hf : f < fresh_id (<[f := x]> m)).
  { apply fresh_id_above. rewrite lookup_insert_eq. eauto. }
  unfold fresh_id at 1. unfold fresh_id at 1 in Hf.
  destruct (foldr_max_in (map_to_list (<[f := x]> m)).*1) as [H0 [E|Hin]].
  - pose proof (fresh_id_pos m). fold f in H. lia.
  - apply list_elem_of_fmap in Hin as ([k y] & Hk & Hin). cbn in Hk.
    apply elem_of_map_to_list in Hin.
    destruct (decide (k = f)) as [->|Hne]; [lia|].
    rewrite lookup_insert_ne in Hin by done.
    pose proof (fresh_id_above m k (mk_is_Some _ _ Hin)). fold f in H. lia.
Qed.
End Tables.

(** rows added one after the other take consecutive fresh keys *)
Lemma fresh_id_add_match m ms : fresh_id (add_match m ms) = fresh_id ms + 1.
Proof. apply fresh_id_insert. Qed.

Lemma add_match_lookup_new m ms : add_match m ms !! fresh_id ms = Some m.
Proof. apply lookup_insert_eq. Qed.

Lemma add_match_lookup_old m ms k :
  k < fresh_id ms → add_match m ms !! k = ms !! k.
Proof. intros H. apply lookup_insert_ne. lia. Qed.

Lemma size_add_match m ms : size (add_match m ms) = S (size ms).
Proof. apply map_size_insert_None, fresh_id_fresh. lia. Qed.

Lemma add_matches_lookup (new : list Match) (ms : gmap Z Match) :
  let ms' := foldl (λ acc m, add_match m acc) ms new in
  fresh_id ms' = fresh_id ms + Z.of_nat (length new)
  ∧ (∀ (i : nat) m, new !! i = Some m → ms' !! (fresh_id ms + Z.of_nat i) = Some m)
  ∧ (∀ k, k < fresh_id ms → ms' !! k = ms !! k)
  ∧ size ms' = (size ms + length new)%nat.
Proof.
  revert ms. induction new as [|m new IH]; intros ms; cbn.
  - split_and!; [lia| |done|lia]. intros i m. by rewrite lookup_nil.
  - specialize (IH (add_match m ms)). cbn in IH.
    destruct IH as (IH1 & IH2 & IH3 & IH4).
    rewrite fresh_id_add_match in IH1, IH2, IH3.
    split_and!.
    + rewrite IH1. lia.
    + intros [|i] m' Hi; cbn in Hi.
      * injection Hi as ->. rewrite IH3 by lia.
        rewrite Z.add_0_r. apply add_match_lookup_new.
      * rewrite <- (IH2 i m' Hi). f_equal. lia.
    + intros k Hk. rewrite IH3 by lia. by apply add_match_lookup_old.
    + rewrite IH4, size_add_match. lia.
Qed.

(** ** Sessions: creation *)

Lemma bind_seq_shift {B} (f : nat → list B) a n :
  seq (S a) n ≫= f = seq a n ≫= (f ∘ S).
Proof. rewrite <- fmap_S_seq. apply list_fmap_bind. Qed.

Lemma bind_ext {X B} (f g : X → list B) (l : list X) :
  (∀ x, x ∈ l → f x = g x) → l ≫= f = l ≫= g.
Proof.
  induction l as [|x l IH]; [done|]. intros H. rewrite !bind_cons.
  rewrite (H x) by apply list_elem_of_here.
  f_equal. apply IH. intros y Hy. apply H. by apply list_elem_of_further.
Qed.

Lemma bind_singleton_lookup {B} (g : Z → B) (r : list Z) :
  seq 0 (length r) ≫= (λ j, [g (r !!! j)]) = g <$> r.
Proof.
  induction r as [|y r IH]; [done|].
  cbn [length seq]. rewrite bind_cons. cbn. f_equal.
  rewrite bind_seq_shift. exact IH.
Qed.

Lemma session_pairs_unordered (l : list Z) : session_pairs l = unordered_pairs l.
Proof.
  unfold session_pairs. induction l as [|x r IH]; [done|].
  cbn [length seq unordered_pairs]. rewrite bind_cons. f_equal.
  - cbn [Nat.add]. replace (S (length r) - 1)%nat with (length r) by lia.
    rewrite bind_seq_shift. apply (bind_singleton_lookup (λ y, (x, y))).
  - rewrite bind_seq_shift. rewrite <- IH. apply bind_ext. intros i _. cbn.
    rewrite bind_seq_shift. reflexivity.
Qed.

Lemma length_unordered_pairs (l : list Z) :
  (2 * length (unordered_pairs l) = length l * (length l - 1))%nat.
Proof.
  induction l as [|x r IH]; [done|].
  cbn [unordered_pairs length]. rewrite length_app, length_fmap. nia.
Qed.

Lemma elem_of_unordered_pairs (l : list Z) a b :
  (a, b) ∈ unordered_pairs l ↔
  ∃ (i j : nat), (i < j)%nat ∧ l !! i = Some a ∧ l !! j = Some b.
Proof.
  induction l as [|x r IH]; cbn.
  - split; [by intros ?%elem_of_nil|]. intros (i & j & _ & H & _). by rewrite lookup_nil in H.
  - rewrite elem_of_app, list_elem_of_fmap, IH. split.
    + intros [(y & [= -> ->] & Hy)|(i & j & Hij & Hi & Hj)].
      * apply list_elem_of_lookup in Hy as [j Hj]. exists 0%nat, (S j). split; [lia|done].
      * exists (S i), (S j). split; [lia|done].
    + intros (i & j & Hij & Hi & Hj). destruct j as [|j]; [lia|]. cbn in Hj.
      destruct i as [|i]; cbn in Hi.
      * injection Hi as ->. left. exists b. split; [done|]. by eapply list_elem_of_lookup_2.
      * right. exists i, j. split; [lia|done].
Qed.

Lemma found_keys_NoDup ids ps : NoDup (found_players ids ps).*1.
Proof.
  apply (sublist_NoDup _ (table_rows ps).*1);
    [apply NoDup_table_keys | apply fmap_sublist, sublist_filter].
Qed.

Lemma elem_of_found_keys ids ps k :
  k ∈ (found_players ids ps).*1 ↔ is_Some (ps !! k) ∧ k ∈ ids.
Proof.
  unfold found_players. rewrite list_elem_of_fmap. split.
  - intros ([k' p] & -> & [Hin Hrow]%list_elem_of_filter). cbn in *.
    apply elem_of_table_rows in Hrow. eauto.
  - intros [[p Hp] Hin]. exists (k, p). split; [done|].
    apply list_elem_of_filter. split; [done|]. by apply elem_of_table_rows.
Qed.

Lemma found_length_le ids ps : (length (found_players ids ps) ≤ length ids)%nat.
Proof.
  rewrite <- (length_fmap fst). apply submseteq_length, NoDup_submseteq.
  - apply found_keys_NoDup.
  - intros k Hk. by apply elem_of_found_keys in Hk as [_ ?].
Qed.

Lemma found_length_eq ids ps :
  length (found_players ids ps) = length ids ↔
  NoDup ids ∧ ∀ k, k ∈ ids → is_Some (ps !! k).
Proof.
  split.
  - intros Hlen.
    assert (Hperm : (found_players ids ps).*1 ≡ₚ ids).
    { apply submseteq_length_Permutation.
      - apply NoDup_submseteq; [apply found_keys_NoDup|].
        intros k Hk. by apply elem_of_found_keys in Hk as [_ ?].
      - rewrite length_fmap. lia. }
    split.
    + rewrite <- Hperm. apply found_keys_NoDup.
    + intros k Hk. rewrite <- Hperm in Hk. by apply elem_of_found_keys in Hk as [? _].
  - intros [Hnd Hall]. rewrite <- (length_fmap fst).
    apply Permutation_length, NoDup_Permutation; [apply found_keys_NoDup|done|].
    intros k. rewrite elem_of_found_keys.
    split; [by intros [_ ?] | intros Hk; split; [by apply Hall | done]].
Qed.

Lemma create_session_cases ids db :
  create_session ids db =
    if (length ids <? 2)%nat then (400, db)
    else if bool_decide (NoDup ids ∧ Forall (λ k, is_Some (players db !! k)) ids)
         then (200, created_store ids db)
         else (404, db).
Proof.
  unfold create_session. destruct (length ids <? 2)%nat; [done|].
  fold (found_players ids (players db)).
  pose proof (found_length_eq ids (players db)) as Hiff.
  destruct (Nat.eqb_spec (length (found_players ids (players db))) (length ids)) as [E|NE]; cbn.
  - apply Hiff in E as [Hnd Hall].
    rewrite bool_decide_eq_true_2; [done|]. split; [done|]. by apply Forall_forall.
  - rewrite bool_decide_eq_false_2; [done|]. intros [Hnd Hall]. apply NE, Hiff.
    split; [done|]. by apply Forall_forall.
Qed.

Lemma foldl_fmap_l {X Y B} (f : B → Y → B) (g : X → Y) (l : list X) (b : B) :
  foldl (λ acc x, f acc (g x)) b l = foldl f b (g <$> l).
Proof. revert b. induction l as [|x l IH]; intros b; cbn; [done|apply IH]. Qed.

(** C6.  [POST /sessions] with [N >= 2] distinct identifiers of existing
    players answers 200, adds exactly one session and exactly
    [N*(N-1)/2] matches, the unscored matches of the unordered pairs of the
    list in order (under consecutive fresh keys), and changes nothing
    else; with fewer than two identifiers, or with an identifier of no
    player, the request is refused (400 or 404) and the store is
    unchanged. *)
Theorem create_session_all_pairs (ids : list Z) (db : Store) :
  let n := Z.of_nat (length ids) in
  let sid := fresh_id (sessions db) in
  let first := fresh_id (matches db) in
  ((2 ≤ length ids)%nat → NoDup ids → (∀ k, k ∈ ids → is_Some (players db !! k)) →
   ∃ db',
     create_session ids db = (200, db')
     ∧ players db' = players db
     ∧ sessions db !! sid = None
     ∧ sessions db' = <[sid := mkSession None]> (sessions db)
     ∧ size (sessions db') = S (size (sessions db))
     ∧ session_pairs ids = unordered_pairs ids
     ∧ Z.of_nat (length (unordered_pairs ids)) = n * (n - 1) / 2
     ∧ size (matches db') = (size (matches db) + length (unordered_pairs ids))%nat
     ∧ (∀ (i : nat) a b, unordered_pairs ids !! i = Some (a, b) →
          matches db' !! (first + Z.of_nat i) = Some (new_match sid a b None None None))
     ∧ (∀ k, k < first → matches db' !! k = matches db !! k)
     ∧ (∀ k, first ≤ k → matches db !! k = None))
  ∧ (∀ a b, (a, b) ∈ unordered_pairs ids ↔
            ∃ (i j : nat), (i < j)%nat ∧ ids !! i = Some a ∧ ids !! j = Some b)
  ∧ (∀ p1 p2 p3, session_pairs [p1; p2; p3] = [(p1, p2); (p1, p3); (p2, p3)])
  ∧ ((length ids < 2)%nat → create_session ids db = (400, db))
  ∧ ((∃ k, k ∈ ids ∧ players db !! k = None) →
     (create_session ids db).2 = db
     ∧ ((create_session ids db).1 = 400 ∨ (create_session ids db).1 = 404)).
Proof.
  intros n sid first. rewrite create_session_cases. split_and!.
  - intros Hlen Hnd Hall.
    destruct (Nat.ltb_spec (length ids) 2) as [?|_]; [lia|].
    rewrite bool_decide_eq_true_2 by (split; [done|by apply Forall_forall]).
    exists (created_store ids db).
    pose proof (add_matches_lookup
                  ((λ pr, new_match sid pr.1 pr.2 None None None) <$> unordered_pairs ids)
                  (matches db)) as (_ & Hnew & Hold & Hsize).
    rewrite <- foldl_fmap_l, length_fmap in *.
    assert (Hfresh : sessions db !! sid = None) by (apply fresh_id_fresh; lia).
    unfold created_store. rewrite session_pairs_unordered. cbn [players sessions matches].
    split_and!; try done.
    + by apply map_size_insert_None.
    + pose proof (length_unordered_pairs ids) as H2. subst n.
      apply Z.div_unique_exact; [lia|]. nia.
    + intros i a b Hi. apply Hnew. rewrite list_lookup_fmap, Hi. done.
    + intros k Hk. by apply fresh_id_fresh.
  - apply elem_of_unordered_pairs.
  - intros p1 p2 p3. by rewrite session_pairs_unordered.
  - intros Hlen. destruct (Nat.ltb_spec (length ids) 2) as [_|?]; [done|lia].
  - intros (k & Hk & Hnone). destruct (length ids <? 2)%nat; [cbn; auto|].
    rewrite bool_decide_eq_false_2; [cbn; auto|].
    intros [_ Hall]. rewrite Forall_forall in Hall.
    destruct (Hall k Hk) as [? ?]. congruence.
Qed.

(** C10.  [POST /sessions] with a list that repeats an identifier is
    answered 404 and leaves the store unchanged: the players found cannot
    be as many as the entries of the list. *)
Theorem create_session_rejects_duplicates (ids : list Z) (db : Store) :
  ¬ NoDup ids → create_session ids db = (404, db).
Proof.
  intros Hdup. rewrite create_session_cases.
  destruct (Nat.ltb_spec (length ids) 2) as [Hlt|_].
  - exfalso. apply Hdup. destruct ids as [|x [|y ids]]; cbn in Hlt; try lia.
    + constructor.
    + apply NoDup_singleton.
  - rewrite bool_decide_eq_false_2; [done|]. by intros [? _].
Qed.

(** ** Sessions: deletion and the reversal of stored changes *)

Lemma with_rating_same p : with_rating p (elo_rating p + 0) = p.
Proof. destruct p. unfold with_rating. cbn. f_equal. lia. Qed.

Lemma shifted_refl ps : shifted (λ _, 0) ps ps.
Proof. intros q. destruct (ps !! q) as [p|]; cbn; [|done]. by rewrite with_rating_same. Qed.

Lemma shifted_trans f g ps1 ps2 ps3 :
  shifted f ps1 ps2 → shifted g ps2 ps3 → shifted (λ q, f q + g q) ps1 ps3.
Proof.
  intros H1 H2 q. rewrite H2, H1. destruct (ps1 !! q) as [p|]; cbn; [|done].
  unfold with_rating. cbn. do 2 f_equal. lia.
Qed.

Lemma shifted_ext f g ps ps' : (∀ q, f q = g q) → shifted f ps ps' → shifted g ps ps'.
Proof. intros E H q. rewrite H, E. done. Qed.

Lemma shifted_is_Some f ps ps' q : shifted f ps ps' → is_Some (ps' !! q) ↔ is_Some (ps !! q).
Proof. intros H. rewrite H. by rewrite fmap_is_Some. Qed.

Lemma add_rating_shifted pid d ps ps' :
  add_rating pid d ps = Some ps' →
  shifted (λ q, if decide (pid = q) then d else 0) ps ps'.
Proof.
  unfold add_rating. destruct (ps !! pid) as [p|] eqn:E; [|done]. cbn.
  intros [= <-] q. destruct (decide (pid = q)) as [<-|Hne].
  - rewrite lookup_insert_eq, E. done.
  - rewrite lookup_insert_ne by done. destruct (ps !! q); cbn; [|done].
    by rewrite with_rating_same.
Qed.

Lemma add_rating_is_Some pid d ps : is_Some (ps !! pid) → is_Some (add_rating pid d ps).
Proof. intros [p E]. unfold add_rating. rewrite E. cbn. eauto. Qed.

Lemma revert_side_shifted pid c ps :
  (is_Some c → is_Some (ps !! pid)) →
  ∃ ps', revert_side pid c ps = Some ps'
         ∧ shifted (λ q, if decide (pid = q) then - or_zero c else 0) ps ps'.
Proof.
  intros H. destruct c as [c|]; cbn.
  - destruct (add_rating_is_Some pid (- c) ps) as [ps' E]; [eauto|].
    exists ps'. split; [done|]. by apply add_rating_shifted.
  - exists ps. split; [done|]. eapply shifted_ext; [|apply shifted_refl].
    intros q. cbn. by destruct (decide _).
Qed.

Lemma revert_rows_shifted rows ps :
  Forall (λ km : Z * Match, sides_exist ps km.2) rows →
  ∃ ps', foldl revert_in_session (Some ps) rows = Some ps'
         ∧ shifted (λ q, - total_delta q rows) ps ps'.
Proof.
  revert ps. induction rows as [|[k m] rows IH]; intros ps Hall.
  - exists ps. split; [done|]. apply shifted_refl.
  - apply Forall_cons in Hall as [[H1 H2] Hall]. cbn in H1, H2.
    destruct (revert_side_shifted (player1_id m) (player1_elo_change m) ps) as (ps1 & E1 & S1);
      [done|].
    destruct (revert_side_shifted (player2_id m) (player2_elo_change m) ps1) as (ps2 & E2 & S2).
    { intros _. by apply (shifted_is_Some _ _ _ _ S1). }
    destruct (IH ps2) as (ps' & E & S).
    { eapply Forall_impl; [exact Hall|]. intros [k' m'] [? ?]. cbn in *.
      pose proof (shifted_trans _ _ _ _ _ S1 S2) as S12.
      split; by apply (shifted_is_Some _ _ _ _ S12). }
    exists ps'. split.
    + cbn [foldl]. unfold revert_in_session at 2. cbn. rewrite E1. cbn. rewrite E2. exact E.
    + eapply shifted_ext; [|exact (shifted_trans _ _ _ _ _ (shifted_trans _ _ _ _ _ S1 S2) S)].
      intros q. change (total_delta q ((k, m) :: rows))
        with (applied_delta q m + total_delta q rows).
      unfold applied_delta.
      destruct (decide (player1_id m = q)), (decide (player2_id m = q)); lia.
Qed.

(** C4.  [DELETE /sessions/<id>] on an existing session whose completed
    matches refer to existing players answers 200, removes the session and
    every match of it, and lowers each player's rating by the stored
    changes of the completed matches of the session that refer to the
    player (matches without scores contribute nothing).  When the single
    completed match of the session had applied [+24] and [-24] to two
    distinct players, both ratings are back at their values before it. *)
Theorem delete_session_reverts (sid : Z) (db : Store) :
  let completed :=
    filter (λ km : Z * Match, session_id km.2 = sid ∧ is_completed km.2)
           (table_rows (matches db)) in
  is_Some (sessions db !! sid) →
  Forall (λ km : Z * Match, sides_exist (players db) km.2) completed →
  ∃ db',
    delete_session sid db = (200, db')
    ∧ sessions db' = delete sid (sessions db)
    ∧ (∀ k m, matches db' !! k = Some m ↔ matches db !! k = Some m ∧ session_id m ≠ sid)
    ∧ (∀ pid, players db' !! pid
              = (λ p, with_rating p (elo_rating p - total_delta pid completed))
                <$> players db !! pid)
    ∧ (∀ k m p1 p2 r1 r2,
         completed = [(k, m)] →
         player1_elo_change m = Some 24 → player2_elo_change m = Some (-24) →
         player1_id m ≠ player2_id m →
         players db !! player1_id m = Some p1 → elo_rating p1 = r1 + 24 →
         players db !! player2_id m = Some p2 → elo_rating p2 = r2 - 24 →
         elo_rating <$> players db' !! player1_id m = Some r1
         ∧ elo_rating <$> players db' !! player2_id m = Some r2).
Proof.
  intros completed [s Hs] Hex. unfold delete_session. rewrite Hs.
  fold completed.
  destruct (revert_rows_shifted completed (players db) Hex) as (ps' & E & S).
  rewrite E. eexists. split; [reflexivity|]. cbn [players sessions matches].
  assert (Hps : ∀ pid, ps' !! pid
              = (λ p, with_rating p (elo_rating p - total_delta pid completed))
                <$> players db !! pid).
  { intros pid. rewrite S. done. }
  split_and!; [done| |exact Hps|].
  - intros k m. rewrite map_lookup_filter_Some. cbn. done.
  - intros k m p1 p2 r1 r2 Hc Hc1 Hc2 Hne Hp1 Hr1 Hp2 Hr2.
    rewrite !Hps, Hp1, Hp2, Hc. cbn. unfold applied_delta. rewrite Hc1, Hc2. cbn.
    repeat case_decide; try congruence. split; f_equal; lia.
Qed.

(** ** The leaderboard *)

Section SortDesc.
Context {A : Type} (less : A → A → bool).

Lemma insert_desc_perm x l : insert_desc less x l ≡ₚ x :: l.
Proof.
  induction l as [|y l IH]; cbn; [done|].
  destruct (less x y); [|done]. rewrite IH. apply Permutation_swap.
Qed.

Lemma sort_desc_perm l : sort_desc less l ≡ₚ l.
Proof.
  induction l as [|x l IH]; cbn; [done|].
  fold (sort_desc less l). by rewrite insert_desc_perm, IH.
Qed.

Lemma elem_of_sort_desc x l : x ∈ sort_desc less l ↔ x ∈ l.
Proof. by rewrite sort_desc_perm. Qed.
End SortDesc.

Lemma count_split pid rows :
  Z.of_nat (length rows)
  = count_rows (won_by pid) rows + count_rows (lost_by pid) rows + count_rows tied rows.
Proof.
  unfold count_rows. induction rows as [|km rows IH]; [done|].
  rewrite !filter_cons. cbn [length]. 
  destruct (decide (won_by pid km)) as [Hw|Hw], (decide (lost_by pid km)) as [Hl|Hl],
    (decide (tied km)) as [Ht|Ht]; cbn [length]; try lia; exfalso;
    unfold won_by, lost_by, tied in *.
  - destruct Hl as (w & ? & ?). congruence.
  - destruct Hl as (w & ? & ?). congruence.
  - congruence.
  - destruct Hl as (w & ? & ?). congruence.
  - destruct (winner_id km.2) as [w|] eqn:E; [|done].
    destruct (decide (w = pid)) as [->|]; [done|]. apply Hl. eauto.
Qed.

(** C7, as amended.  A row of the leaderboard belongs to an active player
    with at least one completed match and counts that player's completed
    matches: [wins] are the matches whose winner is the player, [losses]
    are all the others, ties included, and the points are 3 per win and 1
    per other match, so a tie earns 1 point as a loss does.  Every
    active player with a completed match has a row, and a player without
    a completed match has none. *)
Theorem leaderboard_rows (db : Store) :
  (∀ row, row ∈ get_leaderboard db →
     ∃ p, players db !! lb_id row = Some p ∧ active p = true
          ∧ lb_name row = name p ∧ lb_elo_rating row = elo_rating p
          ∧ let rows := completed_matches_of (lb_id row) db in
            rows ≠ []
            ∧ lb_matches_played row = Z.of_nat (length rows)
            ∧ lb_wins row = count_rows (won_by (lb_id row)) rows
            ∧ lb_losses row
              = count_rows (lost_by (lb_id row)) rows + count_rows tied rows
            ∧ lb_total_points row
              = 3 * count_rows (won_by (lb_id row)) rows
                + 1 * count_rows (lost_by (lb_id row)) rows
                + 1 * count_rows tied rows)
  ∧ (∀ pid p, players db !! pid = Some p → active p = true →
       completed_matches_of pid db ≠ [] →
       ∃ row, row ∈ get_leaderboard db ∧ lb_id row = pid)
  ∧ (∀ pid, completed_matches_of pid db = [] →
       ∀ row, row ∈ get_leaderboard db → lb_id row ≠ pid).
Proof.
  assert (Hrow : ∀ row, row ∈ get_leaderboard db ↔
            ∃ kp, players db !! kp.1 = Some kp.2 ∧ active kp.2 = true
                  ∧ row ∈ leader_row kp db).
  { intros row. unfold get_leaderboard. rewrite elem_of_sort_desc, list_elem_of_bind.
    split.
    - intros ([k p] & Hin & [Hact Hp%elem_of_table_rows]%list_elem_of_filter).
      by exists (k, p).
    - intros ([k p] & Hp & Hact & Hin). exists (k, p). split; [done|].
      apply list_elem_of_filter. split; [done|]. by apply elem_of_table_rows. }
  assert (Hlr : ∀ kp row, row ∈ leader_row kp db →
            lb_id row = kp.1 ∧ lb_name row = name kp.2
            ∧ lb_elo_rating row = elo_rating kp.2
            ∧ completed_matches_of kp.1 db ≠ []
            ∧ lb_matches_played row = Z.of_nat (length (completed_matches_of kp.1 db))
            ∧ lb_wins row = count_rows (won_by kp.1) (completed_matches_of kp.1 db)
            ∧ lb_losses row = lb_matches_played row - lb_wins row
            ∧ lb_total_points row = lb_wins row * 3 + lb_losses row * 1).
  { intros kp row. unfold leader_row.
    destruct (completed_matches_of kp.1 db) as [|km rows] eqn:E; [by intros ?%elem_of_nil|].
    intros ->%list_elem_of_singleton. cbn [lb_id lb_name lb_elo_rating lb_matches_played
      lb_wins lb_losses lb_total_points]. split_and!; done. }
  split_and!.
  - intros row (kp & Hp & Hact & Hin)%Hrow.
    destruct (Hlr kp row Hin) as (Hid & Hn & Hr & Hne & Hpl & Hw & Hl & Ht).
    exists kp.2. rewrite Hid. cbv zeta.
    pose proof (count_split kp.1 (completed_matches_of kp.1 db)) as Hsplit.
    split_and!; try done; lia.
  - intros pid p Hp Hact Hne.
    destruct (completed_matches_of pid db) as [|km rows] eqn:E; [done|].
    eexists. split.
    + apply Hrow. exists (pid, p). split_and!; [done..|].
      unfold leader_row. cbn [fst snd]. rewrite E. apply list_elem_of_singleton. reflexivity.
    + done.
  - intros pid Hnone row (kp & Hp & Hact & Hin)%Hrow Hid.
    destruct (Hlr kp row Hin) as (Hid' & _ & _ & Hne & _). congruence.
Qed.

(** ** The highlights *)

Section SortedDesc.
Context {A : Type} (key : A → Z).

Lemma insert_desc_sorted x l :
  StronglySorted (λ a b, key b ≤ key a) l →
  StronglySorted (λ a b, key b ≤ key a) (insert_desc (λ a b, key a <? key b) x l).
Proof.
  induction 1 as [|y l Hs IH Hy]; cbn.
  - repeat constructor.
  - destruct (Z.ltb_spec (key x) (key y)) as [Hlt|Hge].
    + constructor; [exact IH|].
      rewrite Forall_forall. intros z Hz.
      apply (elem_of_Permutation_proper _ _ _ (insert_desc_perm _ x l)) in Hz.
      apply elem_of_cons in Hz as [->|Hz]; [lia|].
      rewrite Forall_forall in Hy. by apply Hy.
    + constructor; [by constructor|].
      constructor; [exact Hge|].
      eapply Forall_impl; [exact Hy|]. intros z Hz. cbn in *. lia.
Qed.

Lemma sort_desc_sorted l :
  StronglySorted (λ a b, key b ≤ key a) (sort_desc (λ a b, key a <? key b) l).
Proof.
  induction l as [|x l IH]; cbn; [constructor|].
  apply insert_desc_sorted, IH.
Qed.
End SortedDesc.

Lemma recent_rows_spec (db : Store) :
  let recent := recent_rows db in
  (length recent ≤ 10)%nat
  ∧ (∀ km, km ∈ recent → matches db !! km.1 = Some km.2 ∧ dated km)
  ∧ StronglySorted (λ a b, time_of b ≤ time_of a) recent
  ∧ (∀ k m, matches db !! k = Some m → dated (k, m) → (k, m) ∉ recent →
       length recent = 10%nat ∧ ∀ km, km ∈ recent → time_of (k, m) ≤ time_of km).
Proof.
  unfold recent_rows.
  set (all := filter _ (table_rows (matches db))).
  set (sorted := sort_desc _ all).
  assert (Hs : StronglySorted (λ a b, time_of b ≤ time_of a) sorted)
    by apply (sort_desc_sorted time_of).
  assert (Hin : ∀ km, km ∈ sorted ↔ matches db !! km.1 = Some km.2 ∧ dated km).
  { intros [k m]. unfold sorted. rewrite elem_of_sort_desc. unfold all.
    rewrite list_elem_of_filter, elem_of_table_rows. cbn. unfold dated. tauto. }
  rewrite <- (take_drop 10 sorted) in Hs.
  cbv zeta. split_and!.
  - rewrite length_take. lia.
  - intros km Hkm. apply Hin. by apply (subseteq_take 10).
  - by apply StronglySorted_app_1_l in Hs.
  - intros k m Hm Hd Hnot.
    assert (Hsorted : (k, m) ∈ sorted) by (by apply Hin).
    rewrite <- (take_drop 10 sorted) in Hsorted.
    apply elem_of_app in Hsorted as [?|Hdrop]; [done|].
    split.
    + rewrite length_take. destruct (decide (10 ≤ length sorted)%nat); [lia|].
      rewrite drop_ge in Hdrop by lia. by apply elem_of_nil in Hdrop.
    + intros km Hkm. by apply (StronglySorted_app_1_elem_of _ _ _ km (k, m)) in Hs.
Qed.

(** ** the search for the extremes *)

Lemma raise_gain_pick best e : raise_gain best e = pick x_elo_change best e.
Proof. done. Qed.

Lemma lower_loss_pick best e : lower_loss best e = pick (λ x, - x_elo_change x) best e.
Proof.
  unfold lower_loss, pick. destruct best as [b|]; [|done].
  destruct (Z.ltb_spec (x_elo_change e) (x_elo_change b)),
           (Z.ltb_spec (- x_elo_change b) (- x_elo_change e)); (done || lia).
Qed.

Lemma best_of_snoc key l r e : best_of key l r → best_of key (l ++ [e]) (pick key r e).
Proof.
  destruct r as [b|]; cbn.
  - intros (l1 & l2 & -> & H1 & H2).
    destruct (Z.ltb_spec (key b) (key e)) as [Hlt|Hge]; cbn.
    + exists (l1 ++ b :: l2), []. split_and!; [done| |by intros ? ?%elem_of_nil].
      intros x [Hx|[->|Hx]%elem_of_cons]%elem_of_app; [|done|].
      * specialize (H1 x Hx). lia.
      * specialize (H2 x Hx). lia.
    + exists l1, (l2 ++ [e]). split_and!; [by rewrite <- app_assoc|done|].
      intros x [Hx| ->%list_elem_of_singleton]%elem_of_app; [by apply H2|done].
  - intros ->. exists nil, nil. split_and!; [done|..]; by intros ? ?%elem_of_nil.
Qed.

Lemma best_of_foldl key l0 r0 es :
  best_of key l0 r0 → best_of key (l0 ++ es) (foldl (pick key) r0 es).
Proof.
  revert l0 r0. induction es as [|e es IH]; intros l0 r0 H; cbn.
  - by rewrite app_nil_r.
  - replace (l0 ++ e :: es) with ((l0 ++ [e]) ++ es) by (by rewrite <- app_assoc).
    apply IH. by apply best_of_snoc.
Qed.

Lemma extremes_fold ps rows gain loss :
  Forall (λ km : Z * Match, sides_exist ps km.2) rows →
  foldl (extremes_step ps) (Some (gain, loss)) rows
  = Some (foldl raise_gain gain (qualifying_entries ps rows),
          foldl lower_loss loss (qualifying_entries ps rows)).
Proof.
  revert gain loss. induction rows as [|km rows IH]; intros gain loss Hall; [done|].
  apply Forall_cons in Hall as [[[p1 H1] [p2 H2]] Hall].
  cbn [foldl]. unfold qualifying_entries. rewrite bind_cons.
  fold (qualifying_entries ps rows). rewrite !foldl_app.
  unfold extremes_step at 2. cbn [mbind option_bind]. fold (qualifies km).
  destruct (qualifies km); cbn [foldl]; [|by apply IH].
  unfold side_entries. rewrite H1, H2. cbn. by apply IH.
Qed.

Lemma foldl_ext_pick {X} (f g : option X → X → option X) r l :
  (∀ a b, f a b = g a b) → foldl f r l = foldl g r l.
Proof. intros E. revert r. induction l as [|x l IH]; intros r; cbn; [done|]. by rewrite E, IH. Qed.

(** the view is defined when the recent matches refer to existing players *)
Lemma get_highlights_defined (today : Z) (db : Store) :
  Forall (λ km : Z * Match, sides_exist (players db) km.2) (recent_rows db) →
  is_Some (get_highlights today db).
Proof.
  intros Hall. unfold get_highlights.
  destruct (mapM (highlight_of (players db)) (recent_rows db)) as [hs|] eqn:E.
  - cbn [mbind option_bind]. rewrite (extremes_fold _ _ _ _ Hall). cbn. eauto.
  - apply mapM_None in E. apply Exists_exists in E as (km & Hin & Hnone).
    rewrite Forall_forall in Hall. destruct (Hall km Hin) as [[p1 H1] [p2 H2]].
    unfold highlight_of in Hnone. rewrite H1, H2 in Hnone. done.
Qed.

(** C8, as amended.  The highlights are taken over the at most ten latest
    completed matches, latest first.  Among them only the matches whose
    two stored changes are both present and non-zero take part in the
    search for the extremes; over the per-player entries of these
    matches, in iteration order, the biggest gain is the first entry with
    the largest change and the biggest loss the first entry with the
    smallest change; both are absent exactly when no match takes part. *)
Theorem highlights_extremes (today : Z) (db : Store) (r : Highlights) :
  get_highlights today db = Some r →
  let recent := recent_rows db in
  let entries := qualifying_entries (players db) recent in
  ((length recent ≤ 10)%nat
   ∧ (∀ km, km ∈ recent → matches db !! km.1 = Some km.2 ∧ dated km)
   ∧ StronglySorted (λ a b, time_of b ≤ time_of a) recent
   ∧ (∀ k m, matches db !! k = Some m → dated (k, m) → (k, m) ∉ recent →
        length recent = 10%nat ∧ ∀ km, km ∈ recent → time_of (k, m) ≤ time_of km))
  ∧ best_of x_elo_change entries (biggest_elo_gain r)
  ∧ best_of (λ e, - x_elo_change e) entries (biggest_elo_loss r).
Proof.
  intros Hget recent entries. split; [apply recent_rows_spec|].
  unfold get_highlights in Hget. fold recent in Hget.
  destruct (mapM (highlight_of (players db)) recent) as [hs|] eqn:Hmap; [|done].
  cbn [mbind option_bind] in Hget.
  assert (Hall : Forall (λ km : Z * Match, sides_exist (players db) km.2) recent).
  { apply mk_is_Some, mapM_is_Some in Hmap. eapply Forall_impl; [exact Hmap|].
    intros km [h Hh]. cbn in Hh. unfold highlight_of in Hh. unfold sides_exist.
    destruct (players db !! player1_id km.2); [|done].
    destruct (players db !! player2_id km.2); [|done]. eauto. }
  rewrite (extremes_fold _ _ _ _ Hall) in Hget. fold entries in Hget.
  cbn in Hget. injection Hget as <-. cbn [biggest_elo_gain biggest_elo_loss].
  split.
  - apply (best_of_foldl x_elo_change [] None entries). done.
  - rewrite (foldl_ext_pick _ _ _ _ lower_loss_pick).
    apply (best_of_foldl (λ e, - x_elo_change e) [] None entries). done.
Qed.

(** ** Scoring requests *)

Lemma revert_match_uncompleted m ps : is_completed m = false → revert_match m ps = Some ps.
Proof.
  intros H. unfold revert_match. rewrite H.
  by destruct (player1_elo_change m), (player2_elo_change m).
Qed.

(** C3, as amended.  A request that carries exactly one of the two scores
    is not refused.  [PUT /matches/<id>] on a match that is not completed
    answers 200, ignores the score and changes nothing but the notes;
    [POST /matches] with valid references answers 201 and stores the new
    match with the one score.  In both cases no change is computed or
    stored and no rating moves. *)
Theorem lone_score_not_applied (pow10 : Q → option Q) (now : Z) (db : Store) :
  (∀ match_id m data,
      matches db !! match_id = Some m → is_completed m = false →
      sides_exist (players db) m →
      lone_score (u_player1_score data) (u_player2_score data) →
      update_match pow10 match_id data now db
      = (200, {| players := players db; sessions := sessions db;
                 matches := <[match_id := match u_notes data with
                                          | Some v => set_notes m (clean_notes v)
                                          | None => m
                                          end]> (matches db) |}))
  ∧ (∀ data sid p1 p2 s,
      c_session_id data = Some sid → c_player1_id data = Some p1 →
      c_player2_id data = Some p2 →
      sid ≠ 0 → p1 ≠ 0 → p2 ≠ 0 → p1 ≠ p2 →
      is_Some (players db !! p1) → is_Some (players db !! p2) →
      is_Some (sessions db !! sid) →
      (c_player1_score data = Some s ∧ c_player2_score data = None)
      ∨ (c_player1_score data = None ∧ c_player2_score data = Some s) →
      create_match pow10 data now db
      = (201, {| players := players db; sessions := sessions db;
                 matches := add_match
                              (new_match sid p1 p2 (c_player1_score data)
                                 (c_player2_score data) (clean_notes (c_notes data)))
                              (matches db) |})).
Proof.
  split.
  - intros match_id m [u1 u2 nt] Hm Hc [[p1 H1] [p2 H2]] Hlone.
    unfold update_match. rewrite Hm, H1, H2, (revert_match_uncompleted _ _ Hc).
    cbn [u_player1_score u_player2_score u_notes] in *.
    destruct Hlone as [[[v E1] E2]|[E1 [v E2]]]; subst u1 u2; reflexivity.
  - intros [csid cp1 cp2 cs1 cs2 cnt] sid p1 p2 s Hsid Hp1 Hp2 Hs0 H10 H20 Hne
      [q1 Hq1] [q2 Hq2] [ss Hss] Hlone.
    cbn [c_session_id c_player1_id c_player2_id c_player1_score c_player2_score
         c_notes] in *. subst csid cp1 cp2.
    unfold create_match.
    cbn [c_session_id c_player1_id c_player2_id c_player1_score c_player2_score
         c_notes falsy from_option id].
    rewrite !(proj2 (Z.eqb_neq _ _)) by done. cbn [orb].
    rewrite Hq1, Hq2, Hss.
    destruct Hlone as [[E1 E2]|[E1 E2]]; subst cs1 cs2; reflexivity.
Qed.

Lemma revert_match_defined m ps : sides_exist ps m → is_Some (revert_match m ps).
Proof.
  intros [H1 H2]. unfold revert_match.
  destruct (player1_elo_change m) as [c1|]; [|eauto].
  destruct (player2_elo_change m) as [c2|]; [|eauto].
  destruct (is_completed m); [|eauto].
  destruct (add_rating_is_Some (player1_id m) (- c1) ps H1) as [ps1 E1].
  rewrite E1. cbn. apply add_rating_is_Some.
  by apply (shifted_is_Some _ _ _ _ (add_rating_shifted _ _ _ _ E1)).
Qed.

(** X1.  [PUT /matches/<id>] with both scores in the body, one of which
    is negative or not an integer, changes nothing, whatever the store:
    it is answered 400 when the match and its two players exist, and
    otherwise 404 (no such match) or 500 (no such player). *)
Lemma update_match_validates (pow10 : Q → option Q) match_id data now db v1 v2 :
  u_player1_score data = Some v1 → u_player2_score data = Some v2 →
  isinstance_int v1 = false ∨ isinstance_int v2 = false
  ∨ int_value v1 < 0 ∨ int_value v2 < 0 →
  (update_match pow10 match_id data now db).2 = db
  ∧ (update_match pow10 match_id data now db).1 ∈ [400; 404; 500]
  ∧ (∀ m, matches db !! match_id = Some m → sides_exist (players db) m →
       (update_match pow10 match_id data now db).1 = 400).
Proof.
  intros E1 E2 Hbad.
  assert (Hm : ∀ m ps, revert_match m (players db) = Some ps →
            (match u_player1_score data, u_player2_score data with
             | Some v1, Some v2 =>
                 if negb (isinstance_int v1) || negb (isinstance_int v2)
                 then inl 400
                 else if (int_value v1 <? 0) || (int_value v2 <? 0)
                      then inl 400
                      else match update_scores pow10 m (int_value v1) (int_value v2)
                                   now ps with
                           | Some r => inr r
                           | None => inl 500
                           end
             | _, _ => inr (m, ps)
             end) = inl 400).
  { intros m ps _. rewrite E1, E2.
    destruct (isinstance_int v1) eqn:I1; [|done].
    destruct (isinstance_int v2) eqn:I2; [|done]. cbn [negb orb].
    destruct (Z.ltb_spec (int_value v1) 0); [done|].
    destruct (Z.ltb_spec (int_value v2) 0); [done|].
    exfalso. destruct Hbad as [?|[?|[?|?]]]; (done || lia). }
  unfold update_match.
  destruct (matches db !! match_id) as [m|];
    [|split_and!; [done|cbn; repeat constructor|done]].
  destruct (players db !! player1_id m) as [p1|] eqn:H1;
    [|split_and!; [done|cbn; repeat constructor|intros ? [= <-] [[? ?] _]; congruence]].
  destruct (players db !! player2_id m) as [p2|] eqn:H2;
    [|split_and!; [done|cbn; repeat constructor|intros ? [= <-] [_ [? ?]]; congruence]].
  destruct (revert_match m (players db)) as [ps|] eqn:Hr.
  - rewrite (Hm m ps Hr). split_and!; [done|cbn; repeat constructor|done].
  - split_and!; [done|cbn; repeat constructor|].
    intros ? [= <-] Hs. destruct (revert_match_defined m (players db) Hs). congruence.
Qed.

Lemma update_match_examples :
  update_match pow10_floor 1 negative_score_update 100 one_session_store
  = (400, one_session_store)
  ∧ update_match pow10_floor 1 text_score_update 100 one_session_store
    = (400, one_session_store)
  ∧ (update_match pow10_floor 1 boolean_score_update 100 one_session_store).1 = 200
  ∧ player1_score
      <$> matches (update_match pow10_floor 1 boolean_score_update 100
                     one_session_store).2 !! 1
    = Some (Some 1).
Proof. vm_compute. done. Qed.

(** The new match of [POST /matches] is scored before it is added to the
    session: its relationships load no row and [update_scores] raises. *)
Lemma update_scores_transient (pow10 : Q → option Q) m score1 score2 now :
  update_scores pow10 m score1 score2 now transient_rows = None.
Proof. unfold update_scores, transient_rows. by rewrite lookup_empty. Qed.

(** So a body with both scores is never stored, whatever the scores are:
    the handler ends with 400, 404 or the escaping exception. *)
Lemma create_match_both_scores (pow10 : Q → option Q) data now db :
  is_Some (c_player1_score data) → is_Some (c_player2_score data) →
  (create_match pow10 data now db).2 = db
  ∧ (create_match pow10 data now db).1 ∈ [400; 404; 500].
Proof.
  intros [s1 E1] [s2 E2]. unfold create_match. rewrite E1, E2.
  rewrite update_scores_transient. cbn [fmap option_fmap option_map].
  destruct (falsy _ || falsy _ || falsy _); [split; [done|cbn; repeat constructor]|].
  destruct (_ =? _); [split; [done|cbn; repeat constructor]|].
  destruct (players db !! _); [|split; [done|cbn; repeat constructor]].
  destruct (players db !! _); [|split; [done|cbn; repeat constructor]].
  destruct (sessions db !! _); split; (done || cbn; repeat constructor).
Qed.

(** [POST /matches] with the scores [-5] and [3], and with the scores
    [11] and [0]: both requests end with the exception of
    [update_scores], which the route answers 400, and nothing is
    stored. *)
Lemma post_matches_examples (pow10 : Q → option Q) :
  post_matches pow10 100 json (Some (Some negative_score_create)) one_session_store
  = (400, one_session_store)
  ∧ post_matches pow10 100 json (Some (Some scored_create)) one_session_store
    = (400, one_session_store).
Proof.
  assert (E : ∀ k, 1 ≤ k ≤ 4 → is_Some (players one_session_store !! k)).
  { intros k Hk.
    assert (Hk' : k = 1 ∨ k = 2 ∨ k = 3 ∨ k = 4) by lia.
    destruct Hk' as [-> | [-> | [-> | ->]]]; vm_compute; eauto. }
  assert (E3 : sessions one_session_store !! 1 = Some (mkSession None))
    by (vm_compute; done).
  unfold post_matches, validate_json_request, uncaught_at, json.
  rewrite bool_decide_eq_true_2 by done. cbn [default from_option id].
  unfold create_match, negative_score_create, scored_create.
  cbn [c_session_id c_player1_id c_player2_id c_player1_score c_player2_score
       c_notes falsy from_option id Z.eqb orb Pos.eqb clean_notes].
  destruct (E 1) as [q1 H1]; [lia|]. destruct (E 2) as [q2 H2]; [lia|].
  destruct (E 3) as [q3 H3]; [lia|]. destruct (E 4) as [q4 H4]; [lia|].
  rewrite H1, H2, H3, H4, E3, !update_scores_transient. done.
Qed.

(** C5, at the failing request.  [POST /matches] with the single score
    [-5] between two existing players is answered 201, by the handler and
    by the decorated route alike: the match is stored with the negative
    score, and no rating changes. *)
Theorem create_match_scores_unchecked (pow10 : Q → option Q) :
  let r := post_matches pow10 100 json (Some (Some lone_negative_create))
             one_session_store in
  r = create_match pow10 lone_negative_create 100 one_session_store
  ∧ r.1 = 201
  ∧ matches r.2 !! 2 = Some (new_match 1 1 2 (Some (-5)) None None)
  ∧ players r.2 = players one_session_store.
Proof.
  assert (E1 : players one_session_store !! 1 = Some (new_player "Miklas"))
    by (vm_compute; done).
  assert (E2 : players one_session_store !! 2 = Some (new_player "Morten"))
    by (vm_compute; done).
  assert (E3 : sessions one_session_store !! 1 = Some (mkSession None))
    by (vm_compute; done).
  assert (E : create_match pow10 lone_negative_create 100 one_session_store
              = (201, {| players := players one_session_store;
                         sessions := sessions one_session_store;
                         matches := add_match (new_match 1 1 2 (Some (-5)) None None)
                                      (matches one_session_store) |})).
  { unfold create_match, lone_negative_create.
    cbn [c_session_id c_player1_id c_player2_id c_player1_score c_player2_score
         c_notes falsy from_option id Z.eqb orb Pos.eqb clean_notes].
    by rewrite E1, E2, E3. }
  cbv zeta. unfold post_matches, validate_json_request, uncaught_at, json.
  rewrite bool_decide_eq_true_2 by done. cbn [default from_option id].
  rewrite E. cbn [fst snd players matches].
  split_and!; [done|done| |done].
  vm_compute. done.
Qed.

(** ** The accounting invariant *)

Lemma accounting_b_spec db : accounting_b db = true ↔ accounting db.
Proof.
  unfold accounting_b, accounting. rewrite forallb_forall. split.
  - intros H pid p Hp. apply Z.eqb_eq.
    apply (H (pid, p)). apply list_elem_of_In. by apply elem_of_table_rows.
  - intros H [pid p] Hin%list_elem_of_In%elem_of_table_rows. apply Z.eqb_eq. by apply H.
Qed.

Lemma sum_contributions_perm pid l l' :
  l ≡ₚ l' → sum_contributions pid l = sum_contributions pid l'.
Proof.
  unfold sum_contributions.
  induction 1 as [|x l l' _ IH|x y l|l1 l2 l3 _ IH1 _ IH2]; cbn [foldr];
    [done | by rewrite IH | lia | congruence].
Qed.

Lemma sum_contributions_cons pid k m l :
  sum_contributions pid ((k, m) :: l) = contribution pid m + sum_contributions pid l.
Proof. done. Qed.

Lemma sum_contributions_app pid l l' :
  sum_contributions pid (l ++ l') = sum_contributions pid l + sum_contributions pid l'.
Proof.
  unfold sum_contributions. induction l as [|x l IH]; cbn [foldr app]; [done|].
  rewrite IH. lia.
Qed.

Lemma total_delta_completed pid rows :
  total_delta pid (filter (λ km : Z * Match, is_completed km.2) rows)
  = sum_contributions pid rows.
Proof.
  induction rows as [|[k m] rows IH]; [done|].
  rewrite filter_cons. cbn [sum_contributions foldr snd]. unfold contribution at 1.
  destruct (decide (is_completed (k, m).2)) as [H|H]; cbn in H.
  - apply Is_true_true in H. rewrite H. cbn. fold (sum_contributions pid rows).
    rewrite <- IH. done.
  - apply Is_true_false in H. rewrite H. fold (sum_contributions pid rows).
    rewrite <- IH. done.
Qed.

Lemma ledger_alt pid ms : ledger pid ms = sum_contributions pid (map_to_list ms).
Proof.
  unfold ledger. rewrite total_delta_completed.
  apply sum_contributions_perm, table_rows_perm.
Qed.

Lemma ledger_insert_None pid ms k m :
  ms !! k = None → ledger pid (<[k := m]> ms) = contribution pid m + ledger pid ms.
Proof.
  intros H. rewrite !ledger_alt.
  rewrite (sum_contributions_perm _ _ _ (map_to_list_insert ms k m H)).
  apply sum_contributions_cons.
Qed.

Lemma ledger_delete pid ms k m :
  ms !! k = Some m → ledger pid (delete k ms) = ledger pid ms - contribution pid m.
Proof.
  intros H. rewrite !ledger_alt.
  rewrite <- (sum_contributions_perm _ _ _ (map_to_list_delete ms k m H)).
  rewrite sum_contributions_cons. lia.
Qed.

Lemma ledger_insert_Some pid ms k m m' :
  ms !! k = Some m →
  ledger pid (<[k := m']> ms) = ledger pid ms - contribution pid m + contribution pid m'.
Proof.
  intros H. rewrite <- insert_delete_eq.
  rewrite ledger_insert_None by apply lookup_delete_eq.
  rewrite (ledger_delete _ _ _ _ H). lia.
Qed.

Lemma map_to_list_filter_perm {A} (P : Z * A → Prop) `{!∀ x, Decision (P x)}
    (m : gmap Z A) :
  map_to_list (filter P m) ≡ₚ filter P (map_to_list m).
Proof.
  rewrite map_filter_alt. apply map_to_list_to_map.
  apply (sublist_NoDup _ (map_to_list m).*1);
    [apply NoDup_fst_map_to_list | apply fmap_sublist, sublist_filter].
Qed.

Lemma sum_contributions_split pid (P : Z * Match → Prop) `{!∀ x, Decision (P x)} l :
  sum_contributions pid l
  = sum_contributions pid (filter P l) + sum_contributions pid (filter (λ x, ¬ P x) l).
Proof.
  rewrite <- sum_contributions_app. apply sum_contributions_perm.
  symmetry. apply filter_app_complement.
Qed.

Lemma ledger_filter_session pid sid ms :
  ledger pid (filter (λ km : Z * Match, session_id km.2 ≠ sid) ms)
  = ledger pid ms
    - total_delta pid (filter (λ km : Z * Match, session_id km.2 = sid ∧ is_completed km.2)
                              (table_rows ms)).
Proof.
  rewrite !ledger_alt.
  rewrite (sum_contributions_perm _ _ _ (map_to_list_filter_perm _ ms)).
  assert (E : total_delta pid
                (filter (λ km : Z * Match, session_id km.2 = sid ∧ is_completed km.2)
                        (table_rows ms))
              = sum_contributions pid
                  (filter (λ km : Z * Match, session_id km.2 = sid) (map_to_list ms))).
  { rewrite <- (sum_contributions_perm pid _ _
                  (filter_Permutation (λ km : Z * Match, session_id km.2 = sid) _ _
                     (table_rows_perm ms))).
    rewrite <- total_delta_completed, list_filter_filter. f_equal.
    apply list_filter_iff. intros [k m]. cbn. tauto. }
  rewrite E.
  rewrite (sum_contributions_split pid (λ km : Z * Match, session_id km.2 = sid)
             (map_to_list ms)). lia.
Qed.

Lemma accounting_ledger db :
  accounting db ↔
  ∀ pid p, players db !! pid = Some p → elo_rating p = 1000 + ledger pid (matches db).
Proof. done. Qed.

Lemma accounting_shift f ps ps' ms ms' ss ss' :
  accounting {| players := ps; sessions := ss; matches := ms |} →
  shifted f ps ps' →
  (∀ pid, ledger pid ms' = ledger pid ms + f pid) →
  accounting {| players := ps'; sessions := ss'; matches := ms' |}.
Proof.
  intros Hacc Hsh Hled. apply accounting_ledger. intros pid p'. cbn.
  rewrite Hsh. destruct (ps !! pid) as [p|] eqn:Hp; [|done]. cbn. intros [= <-].
  cbn [with_rating elo_rating]. rewrite Hled.
  rewrite accounting_ledger in Hacc. rewrite (Hacc pid p Hp). cbn [matches]. lia.
Qed.

Section HandlerEffects.
Variable pow10 : Q → option Q.

Lemma update_scores_effect m s1 s2 now ps m' ps' :
  update_scores pow10 m s1 s2 now ps = Some (m', ps') →
  shifted (λ q, contribution q m') ps ps'
  ∧ is_completed m' = true
  ∧ is_Some (player1_elo_change m') ∧ is_Some (player2_elo_change m').
Proof.
  unfold update_scores.
  destruct (ps !! player1_id m) as [p1|]; [|done].
  destruct (ps !! player2_id m) as [p2|]; [|done]. cbn [mbind option_bind].
  destruct (calculate_elo_changes _ _ _ _ _) as [[c1 c2]|]; [|done].
  cbn [mbind option_bind fst snd].
  destruct (add_rating (player1_id m) c1 ps) as [ps1|] eqn:E1; [|done].
  cbn [mbind option_bind].
  destruct (add_rating (player2_id m) c2 ps1) as [ps2|] eqn:E2; [|done].
  cbn [mbind option_bind]. intros [= <- <-].
  split_and!; [|done|by eexists|by eexists].
  eapply shifted_ext;
    [|exact (shifted_trans _ _ _ _ _ (add_rating_shifted _ _ _ _ E1)
                                   (add_rating_shifted _ _ _ _ E2))].
  intros q. unfold contribution, applied_delta, is_completed. cbn. done.
Qed.

Lemma revert_match_effect m ps ps' :
  (is_completed m → is_Some (player1_elo_change m) ∧ is_Some (player2_elo_change m)) →
  revert_match m ps = Some ps' →
  shifted (λ q, - contribution q m) ps ps'.
Proof.
  intros Hpres. unfold revert_match, contribution.
  destruct (is_completed m) eqn:Hc.
  - destruct (Hpres I) as [[c1 H1] [c2 H2]]. rewrite H1, H2.
    destruct (add_rating (player1_id m) (- c1) ps) as [ps1|] eqn:E1; [|done].
    cbn [mbind option_bind]. intros E2.
    eapply shifted_ext;
      [|exact (shifted_trans _ _ _ _ _ (add_rating_shifted _ _ _ _ E1)
                                     (add_rating_shifted _ _ _ _ E2))].
    intros q. unfold applied_delta. rewrite H1, H2. cbn.
    destruct (decide (player1_id m = q)), (decide (player2_id m = q)); lia.
  - intros E. assert (ps' = ps) as ->.
    { destruct (player1_elo_change m), (player2_elo_change m); by injection E. }
    eapply shifted_ext; [|apply shifted_refl]. done.
Qed.

Lemma contribution_set_notes q m nt : contribution q (set_notes m nt) = contribution q m.
Proof. done. Qed.

Lemma deltas_present_insert ms k m :
  deltas_present ms →
  (is_completed m → is_Some (player1_elo_change m) ∧ is_Some (player2_elo_change m)) →
  deltas_present (<[k := m]> ms).
Proof.
  intros H Hm k' m'. destruct (decide (k = k')) as [<-|Hne].
  - rewrite lookup_insert_eq. by intros [= <-].
  - rewrite lookup_insert_ne by done. apply H.
Qed.

Lemma deltas_present_delete ms k : deltas_present ms → deltas_present (delete k ms).
Proof.
  intros H k' m'. destruct (decide (k = k')) as [<-|Hne].
  - by rewrite lookup_delete_eq.
  - rewrite lookup_delete_ne by done. apply H.
Qed.

Lemma store_eta db :
  db = {| players := players db; sessions := sessions db; matches := matches db |}.
Proof. by destruct db. Qed.

(** [DELETE /matches/<id>] keeps the store consistent *)
Lemma delete_match_consistent match_id db :
  consistent db → consistent (delete_match match_id db).2.
Proof.
  intros [Hacc Hpres]. unfold delete_match.
  destruct (matches db !! match_id) as [m|] eqn:Hm; [|done].
  destruct (revert_match m (players db)) as [ps|] eqn:Hr; [|done]. cbn [snd].
  split; cbn [matches]; [|by apply deltas_present_delete].
  rewrite (store_eta db) in Hacc.
  eapply accounting_shift; [exact Hacc| |].
  - apply (revert_match_effect m _ _ (Hpres _ _ Hm) Hr).
  - intros pid. cbn. rewrite (ledger_delete _ _ _ _ Hm). lia.
Qed.

(** [PUT /matches/<id>] keeps the store consistent when the body carries
    both scores, and when the match is not completed *)
Lemma update_match_consistent match_id data now db :
  consistent db →
  (is_Some (u_player1_score data) ∧ is_Some (u_player2_score data))
  ∨ (∀ m, matches db !! match_id = Some m → is_completed m = false) →
  consistent (update_match pow10 match_id data now db).2.
Proof.
  intros [Hacc Hpres] Hcase. unfold update_match.
  destruct (matches db !! match_id) as [m|] eqn:Hm; [|done].
  destruct (players db !! player1_id m); [|done].
  destruct (players db !! player2_id m); [|done].
  destruct (revert_match m (players db)) as [ps|] eqn:Hr; [|done].
  pose proof (revert_match_effect m _ _ (Hpres _ _ Hm) Hr) as Hsh.
  rewrite (store_eta db) in Hacc.
  assert (Hfin : ∀ m1 ps1,
            shifted (λ q, contribution q m1) ps ps1 →
            (is_completed m1 →
             is_Some (player1_elo_change m1) ∧ is_Some (player2_elo_change m1)) →
            consistent
              {| players := ps1; sessions := sessions db;
                 matches := <[match_id := match u_notes data with
                                          | Some v => set_notes m1 (clean_notes v)
                                          | None => m1
                                          end]> (matches db) |}).
  { intros m1 ps1 Hsh1 Hp1. split; cbn [matches].
    - eapply accounting_shift; [exact Hacc|exact (shifted_trans _ _ _ _ _ Hsh Hsh1)|].
      intros pid. cbn. rewrite (ledger_insert_Some _ _ _ _ _ Hm).
      destruct (u_notes data); rewrite ?contribution_set_notes; lia.
    - apply deltas_present_insert; [done|]. by destruct (u_notes data). }
  destruct (u_player1_score data) as [v1|] eqn:E1, (u_player2_score data) as [v2|] eqn:E2.
  - destruct (negb (isinstance_int v1) || negb (isinstance_int v2)); [done|].
    destruct ((int_value v1 <? 0) || (int_value v2 <? 0)); [done|].
    destruct (update_scores pow10 m (int_value v1) (int_value v2) now ps)
      as [[m1 ps1]|] eqn:Hu; [|done].
    cbn [snd]. destruct (update_scores_effect _ _ _ _ _ _ _ Hu) as (Hsh1 & _ & H1 & H2).
    by apply Hfin.
  - destruct Hcase as [[_ [? ?]]|Hnc]; [done|]. cbn [snd].
    apply Hfin; [|exact (Hpres _ _ Hm)].
    unfold contribution. rewrite (Hnc m eq_refl).
    eapply shifted_ext; [|apply shifted_refl]. done.
  - destruct Hcase as [[[? ?] _]|Hnc]; [done|]. cbn [snd].
    apply Hfin; [|exact (Hpres _ _ Hm)].
    unfold contribution. rewrite (Hnc m eq_refl).
    eapply shifted_ext; [|apply shifted_refl]. done.
  - destruct Hcase as [[[? ?] _]|Hnc]; [done|]. cbn [snd].
    apply Hfin; [|exact (Hpres _ _ Hm)].
    unfold contribution. rewrite (Hnc m eq_refl).
    eapply shifted_ext; [|apply shifted_refl]. done.
Qed.

Lemma contribution_unscored q sid p1 p2 s1 s2 nt :
  s1 = None ∨ s2 = None → contribution q (new_match sid p1 p2 s1 s2 nt) = 0.
Proof.
  intros H. unfold contribution, is_completed. cbn.
  destruct H as [-> | ->]; [done|]. by destruct s1.
Qed.

(** [POST /matches] keeps the store consistent *)
Lemma create_match_consistent data now db :
  consistent db → consistent (create_match pow10 data now db).2.
Proof.
  intros [Hacc Hpres]. unfold create_match.
  destruct (falsy _ || falsy _ || falsy _); [done|].
  destruct (_ =? _); [done|].
  destruct (players db !! _); [|done]. destruct (players db !! _); [|done].
  destruct (sessions db !! _); [|done].
  set (m := new_match _ _ _ _ _ _).
  rewrite (store_eta db) in Hacc.
  assert (Hfin : ∀ m1 ps1,
            shifted (λ q, contribution q m1) (players db) ps1 →
            (is_completed m1 →
             is_Some (player1_elo_change m1) ∧ is_Some (player2_elo_change m1)) →
            consistent {| players := ps1; sessions := sessions db;
                          matches := add_match m1 (matches db) |}).
  { intros m1 ps1 Hsh1 Hp1. split; cbn [matches]; unfold add_match.
    - eapply accounting_shift; [exact Hacc|exact Hsh1|].
      intros pid. cbn. rewrite ledger_insert_None by (apply fresh_id_fresh; lia). lia.
    - by apply deltas_present_insert. }
  destruct (c_player1_score data) as [s1|] eqn:E1, (c_player2_score data) as [s2|] eqn:E2.
  - by rewrite update_scores_transient.
  - cbn [snd]. apply Hfin; [|done].
    eapply shifted_ext; [|apply shifted_refl]. intros q. subst m.
    symmetry. apply contribution_unscored. by right.
  - cbn [snd]. apply Hfin; [|done].
    eapply shifted_ext; [|apply shifted_refl]. intros q. subst m.
    symmetry. apply contribution_unscored. by left.
  - cbn [snd]. apply Hfin; [|done].
    eapply shifted_ext; [|apply shifted_refl]. intros q. subst m.
    symmetry. apply contribution_unscored. by left.
Qed.
End HandlerEffects.

Lemma add_unscored_matches sid prs ms :
  let ms' := foldl (λ acc pr, add_match (new_match sid pr.1 pr.2 None None None) acc)
                   ms prs in
  (∀ pid, ledger pid ms' = ledger pid ms)
  ∧ (deltas_present ms → deltas_present ms').
Proof.
  revert ms. induction prs as [|pr prs IH]; intros ms; cbn; [done|].
  destruct (IH (add_match (new_match sid pr.1 pr.2 None None None) ms)) as [IH1 IH2].
  split.
  - intros pid. rewrite IH1. unfold add_match.
    rewrite ledger_insert_None by (apply fresh_id_fresh; lia).
    rewrite contribution_unscored by (by left). lia.
  - intros H. apply IH2. unfold add_match. by apply deltas_present_insert.
Qed.

(** [POST /sessions] keeps the store consistent *)
Lemma create_session_consistent ids db :
  consistent db → consistent (create_session ids db).2.
Proof.
  intros [Hacc Hpres]. unfold create_session.
  destruct (_ <? _)%nat; [done|]. destruct (negb _); [done|]. cbn [snd].
  destruct (add_unscored_matches (fresh_id (sessions db)) (session_pairs ids) (matches db))
    as [Hled Hp].
  rewrite (store_eta db) in Hacc.
  split; cbn [matches]; [|by apply Hp].
  eapply accounting_shift; [exact Hacc|apply shifted_refl|].
  intros pid. rewrite Hled. lia.
Qed.

Lemma revert_rows_effect rows ps ps' :
  foldl revert_in_session (Some ps) rows = Some ps' →
  shifted (λ q, - total_delta q rows) ps ps'.
Proof.
  revert ps. induction rows as [|[k m] rows IH]; intros ps.
  - intros [= <-]. apply shifted_refl.
  - cbn [foldl]. unfold revert_in_session at 2. cbn [mbind option_bind snd].
    destruct (revert_side (player1_id m) (player1_elo_change m) ps) as [ps1|] eqn:E1.
    2:{ cbn. intros H. exfalso. clear -H. induction rows as [|r rows IH]; [done|].
        cbn in H. by apply IH. }
    cbn [mbind option_bind].
    destruct (revert_side (player2_id m) (player2_elo_change m) ps1) as [ps2|] eqn:E2.
    2:{ intros H. exfalso. clear -H. induction rows as [|r rows IH]; [done|].
        cbn in H. by apply IH. }
    intros H. specialize (IH _ H).
    assert (S1 : shifted (λ q, if decide (player1_id m = q)
                               then - or_zero (player1_elo_change m) else 0) ps ps1).
    { destruct (player1_elo_change m) as [c|]; cbn in E1.
      - by apply add_rating_shifted.
      - injection E1 as <-. eapply shifted_ext; [|apply shifted_refl].
        intros q. cbn. by destruct (decide _). }
    assert (S2 : shifted (λ q, if decide (player2_id m = q)
                               then - or_zero (player2_elo_change m) else 0) ps1 ps2).
    { destruct (player2_elo_change m) as [c|]; cbn in E2.
      - by apply add_rating_shifted.
      - injection E2 as <-. eapply shifted_ext; [|apply shifted_refl].
        intros q. cbn. by destruct (decide _). }
    eapply shifted_ext; [|exact (shifted_trans _ _ _ _ _ (shifted_trans _ _ _ _ _ S1 S2) IH)].
    intros q. change (total_delta q ((k, m) :: rows))
      with (applied_delta q m + total_delta q rows).
    unfold applied_delta.
    destruct (decide (player1_id m = q)), (decide (player2_id m = q)); lia.
Qed.

(** [DELETE /sessions/<id>] keeps the store consistent *)
Lemma delete_session_consistent sid db :
  consistent db → consistent (delete_session sid db).2.
Proof.
  intros [Hacc Hpres]. unfold delete_session.
  destruct (sessions db !! sid); [|done].
  destruct (foldl revert_in_session _ _) as [ps|] eqn:E; [|done]. cbn [snd].
  rewrite (store_eta db) in Hacc.
  split; cbn [matches].
  - eapply accounting_shift; [exact Hacc|exact (revert_rows_effect _ _ _ E)|].
    intros pid. cbn. rewrite ledger_filter_session. lia.
  - intros k m [Hm _]%map_lookup_filter_Some. exact (Hpres _ _ Hm).
Qed.

Lemma init_store_consistent : consistent init_store.
Proof.
  split.
  - apply accounting_b_spec. vm_compute. reflexivity.
  - intros k m H. vm_compute in H. discriminate.
Qed.

(** X2.  [PUT /matches/<id>] without both scores in the body, on a
    completed match that stores both changes and whose players exist, is
    answered 200, takes the stored changes off the two ratings and leaves
    them stored with the match, of which only the notes may change. *)
Lemma update_match_without_scores (pow10 : Q → option Q) match_id data now db m :
  matches db !! match_id = Some m →
  is_completed m = true →
  is_Some (player1_elo_change m) → is_Some (player2_elo_change m) →
  sides_exist (players db) m →
  u_player1_score data = None ∨ u_player2_score data = None →
  ∃ ps,
    update_match pow10 match_id data now db
    = (200, {| players := ps; sessions := sessions db;
               matches := <[match_id := match u_notes data with
                                        | Some v => set_notes m (clean_notes v)
                                        | None => m
                                        end]> (matches db) |})
    ∧ shifted (λ q, - applied_delta q m) (players db) ps.
Proof.
  intros Hm Hc H1 H2 [[p1 Hp1] [p2 Hp2]] Hnone.
  unfold update_match. rewrite Hm, Hp1, Hp2.
  assert (Hr : is_Some (revert_match m (players db))).
  { unfold revert_match. destruct H1 as [c1 ->], H2 as [c2 ->]. rewrite Hc.
    destruct (add_rating_is_Some (player1_id m) (- c1) (players db)) as [ps1 E1]; [eauto|].
    rewrite E1. cbn. apply add_rating_is_Some.
    apply (shifted_is_Some _ _ _ _ (add_rating_shifted _ _ _ _ E1)). eauto. }
  destruct Hr as [ps Hr]. rewrite Hr. exists ps. split.
  - destruct Hnone as [E|E]; rewrite E; [done|]. by destruct (u_player1_score data).
  - pose proof (revert_match_effect m _ _ (λ _, conj H1 H2) Hr) as Hsh.
    unfold contribution in Hsh. by rewrite Hc in Hsh.
Qed.

(** C2, at the failing request.  After a match scored 11-0 between two
    players rated 1000 the ratings are 1024 and 976 and the accounting
    invariant holds; a [PUT /matches/1] that carries only notes answers
    200, puts both ratings back to 1000 and leaves the changes [+24] and
    [-24] stored with the completed match, so the invariant no longer
    holds. *)
Theorem notes_update_breaks_accounting (pow10 : Q → option Q) :
  let r := update_match pow10 1 notes_only 200 scored_store in
  accounting scored_store
  ∧ elo_rating <$> players scored_store !! 1 = Some 1024
  ∧ elo_rating <$> players scored_store !! 2 = Some 976
  ∧ r.1 = 200
  ∧ elo_rating <$> players r.2 !! 1 = Some 1000
  ∧ elo_rating <$> players r.2 !! 2 = Some 1000
  ∧ (λ m, (player1_score m, player2_score m, player1_elo_change m, player2_elo_change m))
      <$> matches r.2 !! 1
    = Some (Some 11, Some 0, Some 24, Some (-24))
  ∧ ¬ accounting r.2.
Proof.
  cbv zeta. split_and!; try (vm_compute; done).
  - apply accounting_b_spec. vm_compute. done.
  - rewrite <- accounting_b_spec. vm_compute. done.
Qed.

(** ** Counterexamples to the statements the code does not satisfy *)

(** C3, as stated: a request with a single score is answered with 200 (PUT)
    or 201 (POST), not with a validation error, and POST stores the score. *)
Lemma lone_score_not_rejected :
  update_match pow10_floor 1 lone_score_update 100 one_session_store
  = (200, one_session_store)
  ∧ (create_match pow10_floor lone_score_create 100 one_session_store).1 = 201
  ∧ player1_score
      <$> matches (create_match pow10_floor lone_score_create 100 one_session_store).2 !! 2
    = Some (Some 11).
Proof. vm_compute. done. Qed.

(** C7, as stated: after a single 5-5 tie both players are listed with one
    loss and one point, where the statement gives no loss and no point. *)
Lemma leaderboard_tie_earns_a_point :
  (λ row, (lb_id row, lb_matches_played row, lb_wins row, lb_losses row,
           lb_total_points row)) <$> get_leaderboard tie_store
  = [(1, 1, 0, 1, 1); (2, 1, 0, 1, 1)]
  ∧ count_rows tied (completed_matches_of 1 tie_store) = 1
  ∧ points_spec 1 (completed_matches_of 1 tie_store) = 0.
Proof. vm_compute. done. Qed.

(** C8, as stated: the only recent match carries the positive change [+1]
    for its first player, and no biggest gain is reported, because the
    other stored change is [0]. *)
Lemma highlights_skip_unpaired_change :
  (λ km : Z * Match, (player1_elo_change km.2, player2_elo_change km.2))
    <$> recent_rows skew_store = [(Some 1, Some 0)]
  ∧ biggest_elo_gain <$> get_highlights 0 skew_store = Some None.
Proof. vm_compute. done. Qed.

(** ** Instances of the theorems on the example stores *)

Lemma pow10_floor_nonneg : pow10_nonneg pow10_floor.
Proof.
  intros x p. unfold pow10_floor. destruct (Qle_bool 309 x); [done|].
  intros [= <-]. apply rnd64_nonneg, Qpower_0_le. done.
Qed.

Lemma elo_change_bounded_witness :
  is_Some (calculate_elo_changes pow10_floor 0 100000 11 0)
  ∧ (Z.abs 48 ≤ 48 ∧ Z.abs (-48) ≤ 48).
Proof.
  destruct (elo_change_bounded pow10_floor 0 100000 11 0 pow10_floor_nonneg)
    as [Hdef Hbound]; [lia | lia |].
  split.
  - apply (Hdef 250%Q (rnd64 (10 ^ 250)%Q)); vm_compute; reflexivity.
  - apply Hbound. vm_compute. reflexivity.
Defined.

Lemma create_session_all_pairs_witness :
  ∃ db', create_session [1; 2; 3] init_store = (200, db')
         ∧ size (sessions db') = 1%nat ∧ size (matches db') = 3%nat
         ∧ matches db' !! 1 = Some (new_match 1 1 2 None None None)
         ∧ matches db' !! 2 = Some (new_match 1 1 3 None None None)
         ∧ matches db' !! 3 = Some (new_match 1 2 3 None None None).
Proof.
  destruct (create_session_all_pairs [1; 2; 3] init_store) as [Hok _].
  destruct Hok as (db' & E & _ & _ & _ & Hs & _ & _ & Hm & Hnew & _).
  - cbn. lia.
  - apply (bool_decide_unpack _). vm_compute. exact I.
  - apply Forall_forall. apply (bool_decide_unpack _). vm_compute. exact I.
  - exists db'. split; [exact E|]. split; [exact Hs|]. split; [exact Hm|].
    split; [exact (Hnew 0%nat 1 2 eq_refl)|].
    split; [exact (Hnew 1%nat 1 3 eq_refl) | exact (Hnew 2%nat 2 3 eq_refl)].
Defined.

Lemma create_session_rejects_duplicates_witness :
  create_session [1; 1] init_store = (404, init_store).
Proof.
  apply create_session_rejects_duplicates.
  intros H. apply NoDup_cons in H as [H _]. apply H. left.
Defined.

Lemma delete_session_reverts_witness :
  ∃ db', delete_session 1 scored_store = (200, db')
         ∧ elo_rating <$> players db' !! 1 = Some 1000
         ∧ elo_rating <$> players db' !! 2 = Some 1000.
Proof.
  destruct (delete_session_reverts 1 scored_store)
    as (db' & E & _ & _ & _ & Hone).
  - apply (bool_decide_unpack _). vm_compute. exact I.
  - apply (bool_decide_unpack _). vm_compute. exact I.
  - exists db'. split; [exact E|].
    refine (Hone 1 scored_match (with_rating (new_player "Miklas") 1024)
              (with_rating (new_player "Morten") 976) 1000 1000 _ _ _ _ _ _ _ _);
      vm_compute; (reflexivity || discriminate).
Defined.

Lemma lone_score_not_applied_witness :
  update_match pow10_floor 1 lone_score_update 100 one_session_store
  = (200, one_session_store)
  ∧ players (create_match pow10_floor lone_score_create 100 one_session_store).2
    = players one_session_store.
Proof.
  destruct (lone_score_not_applied pow10_floor 100 one_session_store) as [Hput Hpost].
  split.
  - rewrite (Hput 1 (new_match 1 1 2 None None None) lone_score_update);
      [vm_compute; reflexivity | vm_compute; reflexivity | vm_compute; reflexivity
      | | left; split; [eexists; reflexivity | reflexivity]].
    split; apply (bool_decide_unpack _); vm_compute; exact I.
  - rewrite (Hpost lone_score_create 1 1 2 11); try reflexivity; try discriminate.
    + apply (bool_decide_unpack _). vm_compute. exact I.
    + apply (bool_decide_unpack _). vm_compute. exact I.
    + apply (bool_decide_unpack _). vm_compute. exact I.
    + left. split; reflexivity.
Defined.

Lemma leaderboard_rows_witness :
  ∃ row, row ∈ get_leaderboard tie_store ∧ lb_id row = 1 ∧ lb_total_points row = 1.
Proof.
  destruct (leaderboard_rows tie_store) as (Hrows & Hlisted & _).
  destruct (Hlisted 1 (new_player "Miklas")) as (row & Hin & Hid).
  - vm_compute. reflexivity.
  - reflexivity.
  - vm_compute. discriminate.
  - exists row. split; [exact Hin|]. split; [exact Hid|].
    destruct (Hrows row Hin) as (p & _ & _ & _ & _ & _ & _ & _ & _ & Hpts).
    rewrite Hpts, Hid. vm_compute. reflexivity.
Defined.

Lemma highlights_extremes_witness :
  ∃ r, get_highlights 0 scored_store = Some r
       ∧ (x_elo_change <$> biggest_elo_gain r) = Some 24
       ∧ (x_elo_change <$> biggest_elo_loss r) = Some (-24)
       ∧ best_of x_elo_change
           (qualifying_entries (players scored_store) (recent_rows scored_store))
           (biggest_elo_gain r).
Proof.
  destruct (get_highlights 0 scored_store) as [r|] eqn:E; [|vm_compute in E; discriminate].
  exists r. split; [reflexivity|].
  destruct (highlights_extremes 0 scored_store r E) as (_ & Hgain & _).
  assert (Hr : Some r = get_highlights 0 scored_store) by (symmetry; exact E).
  vm_compute in Hr. injection Hr as ->.
  split; [reflexivity|]. split; [reflexivity|]. exact Hgain.
Defined.

(** * Further properties *)

(** ** Further properties of the rating engine *)

Section EngineSigns.
#[local] Open Scope Q_scope.

Lemma int_of_float_nonneg x : 0 <= x -> (0 <= int_of_float x)%Z.
Proof.
  intros H. unfold int_of_float. destruct x as [m d]. cbn [Qnum Qden].
  unfold Qle in H. cbn in H.
  rewrite Z.quot_div_nonneg by lia. apply Z.div_pos; lia.
Qed.

Lemma int_of_float_nonpos x : x <= 0 -> (int_of_float x <= 0)%Z.
Proof.
  intros H. unfold int_of_float. destruct x as [m d]. cbn [Qnum Qden].
  unfold Qle in H. cbn in H.
  replace m with (- (- m))%Z by lia. rewrite Z.quot_opp_l by lia.
  rewrite Z.quot_div_nonneg by lia.
  pose proof (Z.div_pos (- m) (Z.pos d)). lia.
Qed.

Lemma int_of_float_zero x : x == 0 -> int_of_float x = 0%Z.
Proof.
  intros H.
  assert (H1 : 0 <= x) by lra. assert (H2 : x <= 0) by lra.
  apply int_of_float_nonneg in H1. apply int_of_float_nonpos in H2. lia.
Qed.

Lemma fmul_nonneg_nonneg m d : 0 <= m -> 0 <= d -> 0 <= fmul m d.
Proof. intros. unfold fmul. apply rnd64_nonneg. nra. Qed.

Lemma fmul_nonneg_nonpos m d : 0 <= m -> d <= 0 -> fmul m d <= 0.
Proof. intros. unfold fmul. apply rnd64_nonpos. nra. Qed.

Lemma int_truediv_self s : (0 < s)%Z -> exists q, int_truediv s s = Some q /\ q == 1.
Proof.
  intros Hs. destruct (int_truediv_unit s s) as (q & E & B); [lia|lia|].
  exists q. split; [exact E|].
  apply int_truediv_Some in E as [_ ->].
  rewrite <- rnd64_1. apply rnd64_comp. field.
  change 0 with (inject_Z 0). rewrite inject_Z_injective. lia.
Qed.

Lemma int_truediv_zero s : (0 < s)%Z -> exists q, int_truediv 0 s = Some q /\ q == 0.
Proof.
  intros Hs. destruct (int_truediv_unit 0 s) as (q & E & B); [lia|lia|].
  exists q. split; [exact E|].
  apply int_truediv_Some in E as [_ ->].
  rewrite <- rnd64_0. apply rnd64_comp. unfold Qdiv. change (inject_Z 0) with 0. ring.
Qed.

End EngineSigns.

Section EngineExtras.
Variable pow10 : Q -> option Q.

Lemma multiplier_nonneg s1 s2 m :
  (0 <= s1)%Z -> (0 <= s2)%Z ->
  (if (Z.max s1 s2 =? 0)%Z then Some 1%Q
   else d ← int_truediv (Z.abs (s1 - s2)) (Z.max s1 s2); Some (fadd (1 # 2) d))
  = Some m -> (0 <= fmul 32 m)%Q.
Proof.
  intros H1 H2 E. destruct (multiplier_range s1 s2 H1 H2) as (m' & E' & B).
  rewrite E in E'. injection E' as <-. apply K_mult_bound, B.
Qed.

(** X3.  A player who scores no point against an opponent who scores
    some never gains rating, and the opponent never loses: for the scores
    [0]-[s] with [0 < s] a result of [calculate_elo_changes] has its first
    change at most 0 and its second at least 0, and the other way round
    for [s]-[0], whatever the two ratings.  The hypothesis is that
    [pow(10.0, x)] is never negative. *)
Theorem shutout_changes (elo1 elo2 s c1 c2 : Z) :
  pow10_nonneg pow10 -> 0 < s ->
  (calculate_elo_changes pow10 elo1 elo2 0 s = Some (c1, c2) -> c1 <= 0 /\ 0 <= c2)
  /\ (calculate_elo_changes pow10 elo1 elo2 s 0 = Some (c1, c2) -> 0 <= c1 /\ c2 <= 0).
Proof.
  intros Hpow Hs. unfold calculate_elo_changes.
  destruct (int_truediv (elo2 - elo1) 400) as [x|]; [|split; discriminate].
  cbn [mbind option_bind]. destruct (pow10 x) as [p|] eqn:Ep; [|split; discriminate].
  cbn [mbind option_bind].
  pose proof (expected_unit p (Hpow _ _ Ep)) as He1.
  pose proof (fsub_1_unit _ He1) as He2.
  destruct (int_truediv_zero s Hs) as (q0 & E0 & Q0).
  destruct (int_truediv_self s Hs) as (q1 & E1 & Q1).
  split.
  - rewrite Z.add_0_l. destruct (Z.eqb_spec s 0) as [?|_]; [lia|].
    rewrite E0, E1. cbn [mbind option_bind fst snd].
    destruct (if Z.max 0 s =? 0 then _ else _) as [m|] eqn:Em; [|discriminate].
    pose proof (multiplier_nonneg 0 s m ltac:(lia) ltac:(lia) Em) as Hm.
    cbn [mbind option_bind]. intros [= <- <-]. split.
    + apply int_of_float_nonpos, fmul_nonneg_nonpos; [exact Hm|].
      unfold fsub. apply rnd64_nonpos. lra.
    + apply int_of_float_nonneg, fmul_nonneg_nonneg; [exact Hm|].
      unfold fsub at 1. apply rnd64_nonneg. lra.
  - rewrite Z.add_0_r. destruct (Z.eqb_spec s 0) as [?|_]; [lia|].
    rewrite E0, E1. cbn [mbind option_bind fst snd].
    destruct (if Z.max s 0 =? 0 then _ else _) as [m|] eqn:Em; [|discriminate].
    pose proof (multiplier_nonneg s 0 m ltac:(lia) ltac:(lia) Em) as Hm.
    cbn [mbind option_bind]. intros [= <- <-]. split.
    + apply int_of_float_nonneg, fmul_nonneg_nonneg; [exact Hm|].
      unfold fsub. apply rnd64_nonneg. lra.
    + apply int_of_float_nonpos, fmul_nonneg_nonpos; [exact Hm|].
      unfold fsub at 1. apply rnd64_nonpos. lra.
Qed.


Lemma half_scaled_bound M D (n : Z) :
  (0 <= n)%Z -> rnd64 (inject_Z n) == inject_Z n -> rnd64 (- inject_Z n) == - inject_Z n ->
  (0 <= M <= 2 * inject_Z n)%Q -> (- (1 # 2) <= D <= 1 # 2)%Q ->
  (- n <= int_of_float (fmul M D) <= n)%Z.
Proof.
  intros Hn F1 F2 HM HD. apply (int_of_float_bound _ n); [exact Hn|].
  unfold fmul. split; [apply rnd64_lower | apply rnd64_upper]; auto; nra.
Qed.

Lemma fsub_half_unit e : (0 <= e <= 1)%Q -> (- (1 # 2) <= fsub (1 # 2) e <= 1 # 2)%Q.
Proof.
  intros He. unfold fsub.
  assert (F : rnd64 (- (1 # 2)) == - (1 # 2)) by (vm_compute; reflexivity).
  split; [apply rnd64_lower | apply rnd64_upper]; auto using rnd64_half; lra.
Qed.

Lemma int_truediv_double s :
  s <> 0 -> exists q, int_truediv s (s + s) = Some q /\ (q == 1 # 2)%Q.
Proof.
  intros Hs.
  assert (Hq : (inject_Z s / inject_Z (s + s) == 1 # 2)%Q).
  { rewrite inject_Z_plus. field. intros H.
    assert (H' : (inject_Z s == inject_Z 0)%Q).
    { change (inject_Z 0) with 0%Q. generalize dependent (inject_Z s). intros x Hx. lra. }
    apply (proj1 (inject_Z_injective _ _)) in H'. lia. }
  assert (Hr : (rnd64 (inject_Z s / inject_Z (s + s)) == 1 # 2)%Q).
  { rewrite <- rnd64_half. apply rnd64_comp, Hq. }
  exists (rnd64 (inject_Z s / inject_Z (s + s))). split; [|exact Hr].
  unfold int_truediv. destruct (Z.eqb_spec (s + s) 0); [lia|].
  rewrite (not_overflows _ 1); [reflexivity| |reflexivity].
  rewrite Hr. vm_compute. discriminate.
Qed.

Lemma int_truediv_zero_any s :
  s <> 0 -> exists q, int_truediv 0 s = Some q /\ (q == 0)%Q.
Proof.
  intros Hs.
  assert (Hr : (rnd64 (inject_Z 0 / inject_Z s) == 0)%Q).
  { rewrite <- rnd64_0. apply rnd64_comp. unfold Qdiv. change (inject_Z 0) with 0%Q. ring. }
  exists (rnd64 (inject_Z 0 / inject_Z s)). split; [|exact Hr].
  unfold int_truediv. destruct (Z.eqb_spec s 0); [lia|].
  rewrite (not_overflows _ 1); [reflexivity| |reflexivity].
  rewrite Hr. vm_compute. discriminate.
Qed.

Lemma tie_core M a e (n : Z) :
  (0 <= n)%Z -> rnd64 (inject_Z n) == inject_Z n -> rnd64 (- inject_Z n) == - inject_Z n ->
  (0 <= M <= 2 * inject_Z n)%Q -> (a == 1 # 2)%Q -> (0 <= e <= 1)%Q ->
  let c1 := int_of_float (fmul M (fsub a e)) in
  let c2 := int_of_float (fmul M (fsub a (fsub 1 e))) in
  Z.abs c1 <= n /\ Z.abs c2 <= n /\ (0 <= c1 /\ c2 <= 0 \/ c1 <= 0 /\ 0 <= c2).
Proof.
  intros Hn F1 F2 HM Ha He c1 c2.
  pose proof (fsub_1_unit _ He) as He2.
  assert (Ea : forall e, (fsub a e == fsub (1 # 2) e)%Q).
  { intros e'. unfold fsub. apply rnd64_comp. lra. }
  assert (B1 : (- (1 # 2) <= fsub a e <= 1 # 2)%Q)
    by (rewrite Ea; apply fsub_half_unit, He).
  assert (B2 : (- (1 # 2) <= fsub a (fsub 1 e) <= 1 # 2)%Q)
    by (rewrite Ea; apply fsub_half_unit, He2).
  pose proof (half_scaled_bound _ _ n Hn F1 F2 HM B1).
  pose proof (half_scaled_bound _ _ n Hn F1 F2 HM B2).
  split; [subst c1; lia|]. split; [subst c2; lia|].
  destruct (Qlt_le_dec e (1 # 2)) as [Hlt|Hge].
  - left. split.
    + apply int_of_float_nonneg, fmul_nonneg_nonneg; [lra|].
      unfold fsub. apply rnd64_nonneg. lra.
    + apply int_of_float_nonpos, fmul_nonneg_nonpos; [lra|].
      unfold fsub at 1. apply rnd64_nonpos.
      assert ((1 # 2) <= fsub 1 e)%Q; [|lra].
      unfold fsub. apply rnd64_lower; [apply rnd64_half | lra].
  - right. split.
    + apply int_of_float_nonpos, fmul_nonneg_nonpos; [lra|].
      unfold fsub. apply rnd64_nonpos. lra.
    + apply int_of_float_nonneg, fmul_nonneg_nonneg; [lra|].
      unfold fsub at 1. apply rnd64_nonneg.
      assert (fsub 1 e <= 1 # 2)%Q; [|lra].
      unfold fsub. apply rnd64_upper; [apply rnd64_half | lra].
Qed.

(** X4.  A drawn match, that is two equal scores of any sign, moves each
    rating by at most 16 points, by at most 8 when the score is not 0-0,
    and never moves both ratings in the same direction, whatever the two
    ratings. *)
Theorem tie_change_bounded (elo1 elo2 s c1 c2 : Z) :
  pow10_nonneg pow10 ->
  calculate_elo_changes pow10 elo1 elo2 s s = Some (c1, c2) ->
  (s <> 0 -> Z.abs c1 <= 8 /\ Z.abs c2 <= 8)
  /\ (Z.abs c1 <= 16 /\ Z.abs c2 <= 16)
  /\ (0 <= c1 /\ c2 <= 0 \/ c1 <= 0 /\ 0 <= c2).
Proof.
  intros Hpow. unfold calculate_elo_changes.
  destruct (int_truediv (elo2 - elo1) 400) as [x|]; [|discriminate].
  cbn [mbind option_bind]. destruct (pow10 x) as [p|] eqn:Ep; [|discriminate].
  cbn [mbind option_bind].
  pose proof (expected_unit p (Hpow _ _ Ep)) as He1.
  rewrite Z.sub_diag, Z.max_id. change (Z.abs 0) with 0.
  destruct (Z.eqb_spec s 0) as [->|Hne].
  - cbn [Z.add Z.eqb mbind option_bind fst snd]. intros [= <- <-].
    assert (F1 : (rnd64 (inject_Z 16) == inject_Z 16)%Q) by (vm_compute; reflexivity).
    assert (F2 : (rnd64 (- inject_Z 16) == - inject_Z 16)%Q) by (vm_compute; reflexivity).
    assert (FM : (0 <= fmul 32 1 <= 2 * inject_Z 16)%Q) by (vm_compute; split; discriminate).
    destruct (tie_core _ (1 # 2) _ 16 ltac:(lia) F1 F2 FM ltac:(reflexivity) He1)
      as (? & ? & ?).
    split; [done|]. split; [done|]. done.
  - destruct (Z.eqb_spec (s + s) 0) as [?|_]; [lia|].
    destruct (int_truediv_double s Hne) as (a & -> & Ha).
    destruct (int_truediv_zero_any s Hne) as (d & -> & Hd).
    cbn [mbind option_bind fst snd]. intros [= <- <-].
    assert (F1 : (rnd64 (inject_Z 8) == inject_Z 8)%Q) by (vm_compute; reflexivity).
    assert (F2 : (rnd64 (- inject_Z 8) == - inject_Z 8)%Q) by (vm_compute; reflexivity).
    assert (Fm : (fadd (1 # 2) d == 1 # 2)%Q).
    { unfold fadd. rewrite <- rnd64_half at 2. apply rnd64_comp. lra. }
    assert (FM : (0 <= fmul 32 (fadd (1 # 2) d) <= 2 * inject_Z 8)%Q).
    { unfold fmul.
      assert (F16 : (rnd64 (32 * fadd (1 # 2) d) == 16)%Q).
      { rewrite <- rnd64_16. apply rnd64_comp. lra. }
      rewrite F16. split; vm_compute; discriminate. }
    destruct (tie_core _ a _ 8 ltac:(lia) F1 F2 FM Ha He1) as (? & ? & ?).
    split; [done|]. split; [lia|]. done.
Qed.


(** X5.  Between two players of the same rating: a draw at any score
    changes nothing; after a match with a winner the player with more
    points does not lose rating and the other does not gain; and
    exchanging the two scores exchanges the two changes.  The hypothesis
    is the C standard's [pow(x, 0) = 1]. *)
Theorem equal_ratings_changes (r : Z) :
  pow10 0%Q = Some 1%Q ->
  (forall s, calculate_elo_changes pow10 r r s s = Some (0, 0))
  /\ (forall s1 s2 c1 c2,
        0 <= s2 < s1 ->
        calculate_elo_changes pow10 r r s1 s2 = Some (c1, c2) -> 0 <= c1 /\ c2 <= 0)
  /\ (forall s1 s2,
        calculate_elo_changes pow10 r r s2 s1
        = (fun c => (c.2, c.1)) <$> calculate_elo_changes pow10 r r s1 s2).
Proof.
  intros H0.
  assert (Ee : fdiv 1 (fadd 1 1) = (1 # 2)%Q) by (vm_compute; reflexivity).
  assert (Ee2 : fsub 1 (1 # 2) = (1 # 2)%Q) by (vm_compute; reflexivity).
  split; [|split].
  - intros s. rewrite (calculate_equal_ratings pow10 r s s H0).
    unfold calculate_elo_changes. change (0 - 0) with 0.
    rewrite int_truediv_0_400. cbn [mbind option_bind].
    rewrite Ee, Ee2. rewrite Z.sub_diag, Z.max_id. change (Z.abs 0) with 0.
    destruct (Z.eqb_spec s 0) as [->|Hne]; [vm_compute; reflexivity|].
    destruct (Z.eqb_spec (s + s) 0) as [?|_]; [lia|].
    destruct (int_truediv_double s Hne) as (a & -> & Ha).
    destruct (int_truediv_zero_any s Hne) as (d & -> & Hd).
    cbn [mbind option_bind fst snd].
    assert (Z : forall M, int_of_float (fmul M (fsub a (1 # 2))) = 0).
    { intros M. apply int_of_float_zero. unfold fmul, fsub.
      rewrite <- rnd64_0. apply rnd64_comp.
      assert (E : (rnd64 (a - (1 # 2)) == 0)%Q).
      { rewrite <- rnd64_0. apply rnd64_comp. lra. }
      rewrite E. ring. }
    by rewrite Z.
  - intros s1 s2 c1 c2 Hs. rewrite (calculate_equal_ratings pow10 r s1 s2 H0).
    unfold calculate_elo_changes. change (0 - 0) with 0.
    rewrite int_truediv_0_400. cbn [mbind option_bind].
    rewrite Ee, Ee2.
    destruct (Z.eqb_spec (s1 + s2) 0) as [?|_]; [lia|].
    destruct (int_truediv s1 (s1 + s2)) as [a1|] eqn:E1; [|discriminate].
    destruct (int_truediv s2 (s1 + s2)) as [a2|] eqn:E2; [|discriminate].
    cbn [mbind option_bind fst snd].
    destruct (if Z.max s1 s2 =? 0 then _ else _) as [m|] eqn:Em; [|discriminate].
    pose proof (multiplier_nonneg s1 s2 m ltac:(lia) ltac:(lia) Em) as Hm.
    cbn [mbind option_bind]. intros [= <- <-].
    assert (B1 : ((1 # 2) <= a1)%Q).
    { apply int_truediv_Some in E1 as [_ ->].
      apply rnd64_lower; [apply rnd64_half|].
      assert (Hc' : (0 < inject_Z (s1 + s2))%Q)
        by (change 0%Q with (inject_Z 0); rewrite <- Zlt_Qlt; lia).
      apply Qle_shift_div_l; [exact Hc'|].
      rewrite inject_Z_plus. assert (inject_Z s2 <= inject_Z s1)%Q; [|lra].
      rewrite <- Zle_Qle. lia. }
    assert (B2 : (a2 <= 1 # 2)%Q).
    { apply int_truediv_Some in E2 as [_ ->].
      apply rnd64_upper; [apply rnd64_half|].
      assert (Hc' : (0 < inject_Z (s1 + s2))%Q)
        by (change 0%Q with (inject_Z 0); rewrite <- Zlt_Qlt; lia).
      apply Qle_shift_div_r; [exact Hc'|].
      rewrite inject_Z_plus. assert (inject_Z s2 <= inject_Z s1)%Q; [|lra].
      rewrite <- Zle_Qle. lia. }
    split.
    + apply int_of_float_nonneg, fmul_nonneg_nonneg; [exact Hm|].
      unfold fsub. apply rnd64_nonneg. lra.
    + apply int_of_float_nonpos, fmul_nonneg_nonpos; [exact Hm|].
      unfold fsub. apply rnd64_nonpos. lra.
  - intros s1 s2.
    rewrite (calculate_equal_ratings pow10 r s2 s1 H0),
            (calculate_equal_ratings pow10 r s1 s2 H0).
    unfold calculate_elo_changes. change (0 - 0) with 0.
    rewrite int_truediv_0_400. cbn [mbind option_bind].
    rewrite Ee, Ee2.
    rewrite (Z.add_comm s2 s1), (Z.max_comm s2 s1).
    replace (Z.abs (s2 - s1)) with (Z.abs (s1 - s2)) by lia.
    destruct (s1 + s2 =? 0).
    + cbn [mbind option_bind fst snd].
      destruct (if Z.max s1 s2 =? 0 then _ else _) as [m|]; reflexivity.
    + destruct (int_truediv s1 (s1 + s2)) as [a1|], (int_truediv s2 (s1 + s2)) as [a2|];
        cbn [mbind option_bind fst snd]; try reflexivity.
      destruct (if Z.max s1 s2 =? 0 then _ else _) as [m|]; reflexivity.
Qed.

End EngineExtras.

(** ** Scoring and its reversal *)

Lemma shifted_eq f g ps ps1 ps2 :
  shifted f ps ps1 → shifted g ps ps2 → (∀ q, f q = g q) → ps1 = ps2.
Proof. intros H1 H2 E. apply map_eq. intros q. by rewrite H1, H2, E. Qed.

Lemma shifted_back f g ps ps1 ps2 :
  shifted f ps ps1 → shifted g ps1 ps2 → (∀ q, f q + g q = 0) → ps2 = ps.
Proof.
  intros H1 H2 E. eapply shifted_eq; [exact (shifted_trans _ _ _ _ _ H1 H2)| |].
  - apply shifted_refl.
  - exact E.
Qed.

Lemma shifted_lookup f ps ps' q p :
  shifted f ps ps' → ps !! q = Some p → ps' !! q = Some (with_rating p (elo_rating p + f q)).
Proof. intros H E. by rewrite H, E. Qed.

(** The match that [update_scores] leaves. *)
Lemma update_scores_inv pow10 m s1 s2 now ps m' ps' :
  update_scores pow10 m s1 s2 now ps = Some (m', ps') →
  ∃ p1 p2 c1 c2,
    ps !! player1_id m = Some p1 ∧ ps !! player2_id m = Some p2
    ∧ calculate_elo_changes pow10 (elo_rating p1) (elo_rating p2) s1 s2 = Some (c1, c2)
    ∧ m' = {| session_id := session_id m; player1_id := player1_id m;
              player2_id := player2_id m;
              player1_score := Some s1; player2_score := Some s2;
              winner_id := if s2 <? s1 then Some (player1_id m)
                           else if s1 <? s2 then Some (player2_id m) else None;
              player1_elo_before := Some (elo_rating p1);
              player2_elo_before := Some (elo_rating p2);
              player1_elo_change := Some c1; player2_elo_change := Some c2;
              completed_at := Some now; notes := notes m |}
    ∧ shifted (λ q, applied_delta q m') ps ps'.
Proof.
  intros H. destruct (update_scores_effect pow10 _ _ _ _ _ _ _ H) as (Hsh & Hc & _).
  unfold update_scores in H.
  destruct (ps !! player1_id m) as [p1|]; [|done].
  destruct (ps !! player2_id m) as [p2|]; [|done]. cbn [mbind option_bind] in H.
  destruct (calculate_elo_changes _ _ _ _ _) as [[c1 c2]|] eqn:Ec; [|done].
  cbn [mbind option_bind fst snd] in H.
  destruct (add_rating (player1_id m) c1 ps) as [ps1|]; [|done].
  cbn [mbind option_bind] in H.
  destruct (add_rating (player2_id m) c2 ps1) as [ps2|]; [|done].
  cbn [mbind option_bind] in H. injection H as <- <-.
  exists p1, p2, c1, c2. split_and!; [done..|].
  eapply shifted_ext; [|exact Hsh]. intros q. unfold contribution. by rewrite Hc.
Qed.

Lemma update_scores_defined pow10 m s1 s2 now ps p1 p2 c :
  ps !! player1_id m = Some p1 → ps !! player2_id m = Some p2 →
  calculate_elo_changes pow10 (elo_rating p1) (elo_rating p2) s1 s2 = Some c →
  is_Some (update_scores pow10 m s1 s2 now ps).
Proof.
  intros E1 E2 Ec. unfold update_scores. rewrite E1, E2. cbn [mbind option_bind].
  rewrite Ec. cbn [mbind option_bind].
  destruct (add_rating_is_Some (player1_id m) c.1 ps) as [ps1 H1]; [eauto|].
  rewrite H1. cbn [mbind option_bind].
  destruct (add_rating_is_Some (player2_id m) c.2 ps1) as [ps2 H2].
  { apply (shifted_is_Some _ _ _ _ (add_rating_shifted _ _ _ _ H1)). eauto. }
  rewrite H2. cbn. eauto.
Qed.

(** [update_scores] reads the session, the players and the notes of the
    match only. *)
Lemma update_scores_same_sides pow10 m mx s1 s2 now ps :
  session_id mx = session_id m → player1_id mx = player1_id m →
  player2_id mx = player2_id m →
  update_scores pow10 mx s1 s2 now ps
  = (λ r, (set_notes r.1 (notes mx), r.2)) <$> update_scores pow10 m s1 s2 now ps.
Proof.
  intros Es E1 E2. unfold update_scores. rewrite Es, E1, E2.
  destruct (ps !! player1_id m) as [p1|]; [|done].
  destruct (ps !! player2_id m) as [p2|]; [|done]. cbn [mbind option_bind].
  destruct (calculate_elo_changes _ _ _ _ _) as [[c1 c2]|]; [|done].
  cbn [mbind option_bind fst snd].
  destruct (add_rating (player1_id m) c1 ps) as [ps1|]; [|done].
  cbn [mbind option_bind].
  destruct (add_rating (player2_id m) c2 ps1) as [ps2|]; done.
Qed.

(** What [PUT /matches/<id>] went through when it answers 200 to a body
    with both scores. *)
Lemma update_match_scored_inv pow10 k data now db db' v1 v2 :
  u_player1_score data = Some v1 → u_player2_score data = Some v2 →
  update_match pow10 k data now db = (200, db') →
  ∃ m ps m1 ps1,
    matches db !! k = Some m
    ∧ sides_exist (players db) m
    ∧ revert_match m (players db) = Some ps
    ∧ isinstance_int v1 = true ∧ isinstance_int v2 = true
    ∧ 0 ≤ int_value v1 ∧ 0 ≤ int_value v2
    ∧ update_scores pow10 m (int_value v1) (int_value v2) now ps = Some (m1, ps1)
    ∧ db' = {| players := ps1; sessions := sessions db;
               matches := <[k := match u_notes data with
                                  | Some v => set_notes m1 (clean_notes v)
                                  | None => m1
                                  end]> (matches db) |}.
Proof.
  intros E1 E2. unfold update_match.
  destruct (matches db !! k) as [m|] eqn:Hm; [|done].
  destruct (players db !! player1_id m) as [p1|] eqn:H1; [|done].
  destruct (players db !! player2_id m) as [p2|] eqn:H2; [|done].
  destruct (revert_match m (players db)) as [ps|] eqn:Hr; [|done].
  rewrite E1, E2.
  destruct (isinstance_int v1) eqn:I1; [|done].
  destruct (isinstance_int v2) eqn:I2; [|done].
  cbn [negb orb].
  destruct (Z.ltb_spec (int_value v1) 0); [done|].
  destruct (Z.ltb_spec (int_value v2) 0); [done|]. cbn [orb].
  destruct (update_scores _ _ _ _ _ _) as [[m1 ps1]|] eqn:Hu; [|done].
  intros [= <-]. exists m, ps, m1, ps1. split_and!; done.
Qed.

Lemma update_match_failed pow10 k data now db :
  (update_match pow10 k data now db).1 ≠ 200 → (update_match pow10 k data now db).2 = db.
Proof.
  unfold update_match.
  destruct (matches db !! k) as [m|]; [|done].
  destruct (players db !! player1_id m); [|done].
  destruct (players db !! player2_id m); [|done].
  destruct (revert_match m (players db)) as [ps|]; [|done].
  destruct (u_player1_score data) as [v1|], (u_player2_score data) as [v2|]; try done.
  destruct (negb _ || negb _); [done|]. destruct (_ || _); [done|].
  destruct (update_scores _ _ _ _ _ _) as [[m1 ps1]|]; done.
Qed.

Lemma set_notes_set_notes m a b : set_notes (set_notes m a) b = set_notes m b.
Proof. done. Qed.

Lemma set_notes_same m : set_notes m (notes m) = m.
Proof. by destruct m. Qed.

(** X6.  Sending the same [PUT /matches/<id>] a second time changes
    nothing when the body holds both scores: the second request gives the
    reply and the store of the first, for every store and every body,
    accepted or refused. *)
Theorem update_match_idempotent (pow10 : Q → option Q) (k : Z) (data : MatchUpdate)
    (now : Z) (db : Store) :
  is_Some (u_player1_score data) → is_Some (u_player2_score data) →
  update_match pow10 k data now (update_match pow10 k data now db).2
  = update_match pow10 k data now db.
Proof.
  intros [v1 E1] [v2 E2].
  destruct (decide ((update_match pow10 k data now db).1 = 200)) as [H200|Hne].
  2:{ by rewrite (update_match_failed _ _ _ _ _ Hne). }
  destruct (update_match pow10 k data now db) as [code db'] eqn:E.
  cbn in H200. subst code. cbn [snd].
  destruct (update_match_scored_inv _ _ _ _ _ _ _ _ E1 E2 E)
    as (m & ps & m1 & ps1 & Hm & Hsides & Hrev & I1 & I2 & N1 & N2 & Hup & ->).
  destruct (update_scores_inv _ _ _ _ _ _ _ _ Hup)
    as (p1 & p2 & c1 & c2 & Hp1 & Hp2 & Hcalc & Hm1 & Hsh).
  set (m2 := match u_notes data with
             | Some v => set_notes m1 (clean_notes v)
             | None => m1
             end).
  assert (Hids : session_id m2 = session_id m ∧ player1_id m2 = player1_id m
                 ∧ player2_id m2 = player2_id m).
  { subst m2 m1. by destruct (u_notes data). }
  destruct Hids as (Es & Ei1 & Ei2).
  assert (Hdelta : ∀ q, applied_delta q m2 = applied_delta q m1).
  { intros q. subst m2. by destruct (u_notes data). }
  assert (Hc2 : is_completed m2 = true).
  { subst m2 m1. by destruct (u_notes data). }
  assert (Hpres : is_completed m2 →
                  is_Some (player1_elo_change m2) ∧ is_Some (player2_elo_change m2)).
  { intros _. subst m2 m1. destruct (u_notes data); cbn; eauto. }
  assert (Hsides2 : sides_exist ps1 m2).
  { unfold sides_exist. rewrite Ei1, Ei2.
    split; apply (shifted_is_Some _ _ _ _ Hsh); eauto. }
  destruct (revert_match_defined m2 ps1 Hsides2) as [psb Hrev2].
  assert (Hback : psb = ps).
  { eapply (shifted_back _ _ _ _ _ Hsh (revert_match_effect m2 _ _ Hpres Hrev2)).
    intros q. unfold contribution. rewrite Hc2, Hdelta. lia. }
  subst psb.
  unfold update_match. cbn [matches players sessions].
  rewrite lookup_insert_eq.
  destruct Hsides2 as [[q1 Hq1] [q2 Hq2]]. rewrite Hq1, Hq2, Hrev2, E1, E2, I1, I2.
  cbn [negb orb].
  destruct (Z.ltb_spec (int_value v1) 0); [lia|].
  destruct (Z.ltb_spec (int_value v2) 0); [lia|]. cbn [orb].
  rewrite (update_scores_same_sides pow10 m m2) by done. rewrite Hup. cbn [fmap option_fmap option_map fst snd].
  rewrite insert_insert_eq. do 3 f_equal.
  subst m2. destruct (u_notes data) as [v|].
  - by rewrite !set_notes_set_notes.
  - rewrite set_notes_same. rewrite Hm1 at 2. cbn [notes]. rewrite Hm1 at 1. reflexivity.
Qed.

(** X7.  Scoring a match and then deleting it leaves the store that
    deleting it at once would have left: after an accepted
    [PUT /matches/<id>] with both scores, [DELETE /matches/<id>] is
    answered 200 and takes the new changes off the ratings. *)
Theorem delete_match_after_scoring (pow10 : Q → option Q) (k : Z) (data : MatchUpdate)
    (now : Z) (db db' : Store) :
  is_Some (u_player1_score data) → is_Some (u_player2_score data) →
  update_match pow10 k data now db = (200, db') →
  delete_match k db' = delete_match k db
  ∧ (delete_match k db).1 = 200.
Proof.
  intros [v1 E1] [v2 E2] E.
  destruct (update_match_scored_inv _ _ _ _ _ _ _ _ E1 E2 E)
    as (m & ps & m1 & ps1 & Hm & Hsides & Hrev & I1 & I2 & N1 & N2 & Hup & ->).
  destruct (update_scores_inv _ _ _ _ _ _ _ _ Hup)
    as (p1 & p2 & c1 & c2 & Hp1 & Hp2 & Hcalc & Hm1 & Hsh).
  set (m2 := match u_notes data with
             | Some v => set_notes m1 (clean_notes v)
             | None => m1
             end).
  assert (Hm2 : player1_id m2 = player1_id m ∧ player2_id m2 = player2_id m
                ∧ is_completed m2 = true
                ∧ (∀ q, applied_delta q m2 = applied_delta q m1)
                ∧ is_Some (player1_elo_change m2) ∧ is_Some (player2_elo_change m2)).
  { subst m2 m1. destruct (u_notes data); cbn; split_and!; eauto. }
  destruct Hm2 as (Ei1 & Ei2 & Hc2 & Hdelta & S1 & S2).
  assert (Hsides2 : sides_exist ps1 m2).
  { unfold sides_exist. rewrite Ei1, Ei2.
    split; apply (shifted_is_Some _ _ _ _ Hsh); eauto. }
  destruct (revert_match_defined m2 ps1 Hsides2) as [psb Hrev2].
  assert (Hback : psb = ps).
  { eapply (shifted_back _ _ _ _ _ Hsh (revert_match_effect m2 _ _ (λ _, conj S1 S2) Hrev2)).
    intros q. unfold contribution. rewrite Hc2, Hdelta. lia. }
  subst psb. unfold delete_match. cbn [matches players sessions].
  rewrite lookup_insert_eq, Hrev2, Hm, Hrev, delete_insert_eq. done.
Qed.

(** X8.  [DELETE /matches/<id>] undoes [POST /matches]: deleting the
    match that an accepted creation has just stored, with or without a
    lone score, gives back the store as it was before the creation. *)
Theorem delete_match_undoes_create (pow10 : Q → option Q) (data : MatchCreate)
    (now : Z) (db db' : Store) :
  create_match pow10 data now db = (201, db') →
  delete_match (fresh_id (matches db)) db' = (200, db).
Proof.
  unfold create_match.
  destruct (falsy _ || falsy _ || falsy _); [done|].
  destruct (_ =? _); [done|].
  destruct (players db !! default 0 (c_player1_id data)) as [p1|] eqn:Hp1; [|done].
  destruct (players db !! default 0 (c_player2_id data)) as [p2|] eqn:Hp2; [|done].
  destruct (sessions db !! _); [|done].
  set (m := new_match _ _ _ _ _ _).
  assert (Hfresh : matches db !! fresh_id (matches db) = None)
    by (apply fresh_id_fresh; lia).
  assert (Hplain : delete_match (fresh_id (matches db))
                     {| players := players db; sessions := sessions db;
                        matches := add_match m (matches db) |} = (200, db)).
  { unfold delete_match, add_match. cbn [matches players sessions].
    rewrite lookup_insert_eq. unfold revert_match. subst m. cbn.
    rewrite delete_insert_id by done. by destruct db. }
  destruct (c_player1_score data) as [s1|] eqn:E1, (c_player2_score data) as [s2|] eqn:E2;
    [by rewrite update_scores_transient|..]; intros [= <-]; exact Hplain.
Qed.

(** The matches after a run of additions: the old ones, and the new ones
    under the keys from [fresh_id] on. *)
Lemma add_matches_lookup_Some (new : list Match) (ms : gmap Z Match) k m :
  foldl (λ acc m, add_match m acc) ms new !! k = Some m ↔
  ms !! k = Some m
  ∨ ∃ i : nat, k = fresh_id ms + Z.of_nat i ∧ new !! i = Some m.
Proof.
  pose proof (add_matches_lookup new ms) as (Hfresh & Hnew & Hold & _). cbv zeta in *.
  destruct (Z.lt_ge_cases k (fresh_id ms)) as [Hlt|Hge].
  - rewrite Hold by done. split; [auto|]. intros [?|(i & -> & _)]; [done|lia].
  - rewrite (fresh_id_fresh ms k) by lia.
    destruct (decide (k < fresh_id ms + Z.of_nat (length new))) as [Hin|Hout].
    + assert (Hi : (Z.to_nat (k - fresh_id ms) < length new)%nat) by lia.
      apply lookup_lt_is_Some_2 in Hi as [m' Hm'].
      pose proof (Hnew _ _ Hm') as Hk.
      replace (fresh_id ms + Z.of_nat (Z.to_nat (k - fresh_id ms))) with k in Hk by lia.
      rewrite Hk. split.
      * intros [= <-]. right. exists (Z.to_nat (k - fresh_id ms)). split; [lia|done].
      * intros [?|(i & -> & Hi)]; [done|].
        replace (Z.to_nat (fresh_id ms + Z.of_nat i - fresh_id ms)) with i in Hm' by lia.
        congruence.
    + rewrite fresh_id_fresh by lia. split; [done|].
      intros [?|(i & -> & Hi)]; [done|]. apply lookup_lt_Some in Hi. lia.
Qed.

Lemma filter_none {A} (P : A → Prop) `{!∀ x, Decision (P x)} (l : list A) :
  (∀ x, x ∈ l → ¬ P x) → filter P l = [].
Proof.
  intros Hnot. destruct (filter P l) as [|x r] eqn:E; [done|].
  assert (Hx : x ∈ filter P l) by (rewrite E; left).
  apply list_elem_of_filter in Hx as [HP Hin]. by destruct (Hnot x Hin).
Qed.

(** X9.  [DELETE /sessions/<id>] undoes [POST /sessions]: deleting the
    session that an accepted creation has just stored gives back the store
    as it was, provided that every match of the store refers to a session
    that exists. *)
Theorem delete_session_undoes_create (ids : list Z) (db db' : Store) :
  (∀ k m, matches db !! k = Some m → is_Some (sessions db !! session_id m)) →
  create_session ids db = (200, db') →
  delete_session (fresh_id (sessions db)) db' = (200, db).
Proof.
  intros Hrefs. rewrite create_session_cases.
  destruct (length ids <? 2)%nat; [done|]. destruct (bool_decide _); [|done].
  intros [= <-]. set (sid := fresh_id (sessions db)).
  assert (Hfresh : sessions db !! sid = None) by (apply fresh_id_fresh; lia).
  assert (Hms : ∀ k m, matches (created_store ids db) !! k = Some m ↔
                  matches db !! k = Some m
                  ∨ ∃ i : nat, k = fresh_id (matches db) + Z.of_nat i
                      ∧ ((λ pr, new_match sid pr.1 pr.2 None None None)
                         <$> session_pairs ids) !! i = Some m).
  { intros k m. unfold created_store. cbn [matches]. fold sid.
    rewrite (foldl_fmap_l (λ acc m, add_match m acc)
               (λ pr : Z * Z, new_match sid pr.1 pr.2 None None None)).
    apply add_matches_lookup_Some. }
  unfold delete_session. cbn [sessions matches players created_store].
  fold sid. rewrite lookup_insert_eq.
  assert (Hnone : filter (λ km : Z * Match, session_id km.2 = sid ∧ is_completed km.2)
                    (table_rows (matches (created_store ids db))) = []).
  { apply filter_none. intros [k m] Hin [Hs Hc].
    apply elem_of_table_rows, Hms in Hin as [Hold|(i & _ & Hi)]; cbn in Hs, Hc.
    - destruct (Hrefs k m Hold) as [s Hsome]. rewrite Hs in Hsome. congruence.
    - apply list_lookup_fmap_Some in Hi as (pr & -> & _). done. }
  unfold created_store in Hnone at 1. cbn [matches] in Hnone. fold sid in Hnone.
  rewrite Hnone. cbn [foldl].
  rewrite delete_insert_id by done.
  assert (Hfilter : filter (λ km : Z * Match, session_id km.2 ≠ sid)
                      (matches (created_store ids db)) = matches db).
  { apply map_eq. intros k. apply option_eq. intros m.
    rewrite map_lookup_filter_Some, Hms. cbn. split.
    - intros [[Hold|(i & _ & Hi)] Hne]; [done|].
      apply list_lookup_fmap_Some in Hi as (pr & -> & _). done.
    - intros Hold. split; [by left|].
      destruct (Hrefs k m Hold) as [s Hsome]. intros Hs. rewrite Hs in Hsome. congruence. }
  unfold created_store in Hfilter at 1. cbn [matches] in Hfilter. fold sid in Hfilter.
  rewrite Hfilter. by destruct db.
Qed.

(** X10.  [PUT /matches/<id>] with two integer scores that are not
    negative, on a match between two different existing players: the
    request is answered 200 when the rating computation returns.  The
    ratings before the match are the live ratings less what the match had
    contributed so far; the match stores the scores, the winner by
    comparison of the scores (none on equal scores), these ratings, the
    two changes and the completion time, and keeps or replaces its notes;
    the two players are rated at the rating before plus the change, and no
    other player, no other match and no session is touched. *)
Theorem update_match_scores (pow10 : Q → option Q) (k : Z) (data : MatchUpdate)
    (now : Z) (db : Store) (m : Match) (p1 p2 : Player) (v1 v2 : JScore) (c1 c2 : Z) :
  matches db !! k = Some m →
  players db !! player1_id m = Some p1 → players db !! player2_id m = Some p2 →
  player1_id m ≠ player2_id m →
  (is_completed m → is_Some (player1_elo_change m) ∧ is_Some (player2_elo_change m)) →
  u_player1_score data = Some v1 → u_player2_score data = Some v2 →
  isinstance_int v1 = true → isinstance_int v2 = true →
  0 ≤ int_value v1 → 0 ≤ int_value v2 →
  let r1 := elo_rating p1 - contribution (player1_id m) m in
  let r2 := elo_rating p2 - contribution (player2_id m) m in
  calculate_elo_changes pow10 r1 r2 (int_value v1) (int_value v2) = Some (c1, c2) →
  ∃ db' m',
    update_match pow10 k data now db = (200, db')
    ∧ sessions db' = sessions db
    ∧ matches db' = <[k := m']> (matches db)
    ∧ session_id m' = session_id m
    ∧ player1_id m' = player1_id m ∧ player2_id m' = player2_id m
    ∧ player1_score m' = Some (int_value v1) ∧ player2_score m' = Some (int_value v2)
    ∧ winner_id m' = (if int_value v2 <? int_value v1 then Some (player1_id m)
                      else if int_value v1 <? int_value v2 then Some (player2_id m)
                      else None)
    ∧ player1_elo_before m' = Some r1 ∧ player2_elo_before m' = Some r2
    ∧ player1_elo_change m' = Some c1 ∧ player2_elo_change m' = Some c2
    ∧ completed_at m' = Some now
    ∧ notes m' = match u_notes data with
                 | Some v => clean_notes v
                 | None => notes m
                 end
    ∧ players db' !! player1_id m = Some (with_rating p1 (r1 + c1))
    ∧ players db' !! player2_id m = Some (with_rating p2 (r2 + c2))
    ∧ (∀ q, q ≠ player1_id m → q ≠ player2_id m → players db' !! q = players db !! q).
Proof.
  intros Hm Hp1 Hp2 Hne Hpres E1 E2 I1 I2 N1 N2 r1 r2 Hcalc.
  destruct (revert_match_defined m (players db)) as [ps Hrev]; [split; eauto|].
  pose proof (revert_match_effect m _ _ Hpres Hrev) as Hsh0.
  pose proof (shifted_lookup _ _ _ _ _ Hsh0 Hp1) as Hq1.
  pose proof (shifted_lookup _ _ _ _ _ Hsh0 Hp2) as Hq2.
  destruct (update_scores_defined pow10 m (int_value v1) (int_value v2) now ps _ _ (c1, c2)
              Hq1 Hq2) as [[m1 ps1] Hup].
  { cbn [with_rating elo_rating]. rewrite <- Hcalc. subst r1 r2. f_equal; lia. }
  destruct (update_scores_inv _ _ _ _ _ _ _ _ Hup)
    as (q1 & q2 & d1 & d2 & Hq1' & Hq2' & Hcalc' & Hm1 & Hsh).
  rewrite Hq1 in Hq1'. rewrite Hq2 in Hq2'. injection Hq1' as <-. injection Hq2' as <-.
  cbn [with_rating elo_rating] in Hcalc', Hm1.
  replace (elo_rating p1 + - contribution (player1_id m) m) with r1 in * by (subst r1; lia).
  replace (elo_rating p2 + - contribution (player2_id m) m) with r2 in * by (subst r2; lia).
  rewrite Hcalc in Hcalc'. injection Hcalc' as <- <-.
  set (m2 := match u_notes data with
             | Some v => set_notes m1 (clean_notes v)
             | None => m1
             end).
  exists {| players := ps1; sessions := sessions db; matches := <[k := m2]> (matches db) |}, m2.
  assert (Hrun : update_match pow10 k data now db
                 = (200, {| players := ps1; sessions := sessions db;
                            matches := <[k := m2]> (matches db) |})).
  { unfold update_match. rewrite Hm, Hp1, Hp2, Hrev, E1, E2, I1, I2. cbn [negb orb].
    destruct (Z.ltb_spec (int_value v1) 0); [lia|].
    destruct (Z.ltb_spec (int_value v2) 0); [lia|]. cbn [orb]. by rewrite Hup. }
  assert (Hd : ∀ q, applied_delta q m1
                    = (if decide (player1_id m = q) then c1 else 0)
                      + (if decide (player2_id m = q) then c2 else 0)).
  { intros q. rewrite Hm1. reflexivity. }
  cbn [players sessions matches].
  split_and!; try done; try (subst m2; rewrite Hm1; by destruct (u_notes data)).
  - rewrite (shifted_lookup _ _ _ _ _ Hsh Hq1), Hd.
    rewrite decide_True by done. rewrite decide_False by done.
    unfold with_rating. cbn. do 2 f_equal; lia.
  - rewrite (shifted_lookup _ _ _ _ _ Hsh Hq2), Hd.
    rewrite decide_False by done. rewrite decide_True by done.
    unfold with_rating. cbn. do 2 f_equal; lia.
  - intros q Hq1n Hq2n. rewrite Hsh, Hsh0, Hd.
    rewrite !decide_False by done.
    assert (Hz : contribution q m = 0).
    { unfold contribution, applied_delta. rewrite !decide_False by done.
      by destruct (is_completed m). }
    rewrite Hz. destruct (players db !! q) as [p|]; cbn; [|done].
    unfold with_rating. destruct p. cbn. do 2 f_equal; lia.
Qed.

(** ** What the handlers do to the tables *)

Lemma same_sides_refl m : same_sides m m.
Proof. done. Qed.

Lemma update_scores_same_sides_of pow10 m s1 s2 now ps m' ps' :
  update_scores pow10 m s1 s2 now ps = Some (m', ps') → same_sides m m'.
Proof.
  intros H. destruct (update_scores_inv _ _ _ _ _ _ _ _ H)
    as (p1 & p2 & c1 & c2 & _ & _ & _ & -> & _). done.
Qed.

Lemma revert_match_shifted m ps ps' :
  revert_match m ps = Some ps' → ∃ f, shifted f ps ps'.
Proof.
  unfold revert_match.
  destruct (player1_elo_change m) as [c1|]; [|intros [= <-]; eexists; apply shifted_refl].
  destruct (player2_elo_change m) as [c2|]; [|intros [= <-]; eexists; apply shifted_refl].
  destruct (is_completed m); [|intros [= <-]; eexists; apply shifted_refl].
  destruct (add_rating (player1_id m) (- c1) ps) as [ps1|] eqn:E1; [|done].
  cbn [mbind option_bind]. intros E2. eexists.
  exact (shifted_trans _ _ _ _ _ (add_rating_shifted _ _ _ _ E1)
                                 (add_rating_shifted _ _ _ _ E2)).
Qed.

Section TableEffects.
Variable pow10 : Q → option Q.

Lemma update_match_effect k data now db :
  let db' := (update_match pow10 k data now db).2 in
  (∃ f, shifted f (players db) (players db'))
  ∧ sessions db' = sessions db
  ∧ (∀ k' m', matches db' !! k' = Some m' →
       ∃ m0, matches db !! k' = Some m0 ∧ same_sides m0 m').
Proof.
  assert (Hsame : (∃ f, shifted f (players db) (players db))
                  ∧ sessions db = sessions db
                  ∧ (∀ k' m', matches db !! k' = Some m' →
                       ∃ m0, matches db !! k' = Some m0 ∧ same_sides m0 m')).
  { split; [eexists; apply shifted_refl|]. split; [done|]. eauto using same_sides_refl. }
  unfold update_match.
  destruct (matches db !! k) as [m|] eqn:Hm; [|exact Hsame].
  destruct (players db !! player1_id m); [|exact Hsame].
  destruct (players db !! player2_id m); [|exact Hsame].
  destruct (revert_match m (players db)) as [ps|] eqn:Hr; [|exact Hsame].
  destruct (revert_match_shifted _ _ _ Hr) as [f Hf].
  assert (Hfin : ∀ m1 ps1,
            (∃ g, shifted g ps ps1) → same_sides m m1 →
            let db' := {| players := ps1; sessions := sessions db;
                          matches := <[k := match u_notes data with
                                             | Some v => set_notes m1 (clean_notes v)
                                             | None => m1
                                             end]> (matches db) |} in
            (∃ f, shifted f (players db) (players db'))
            ∧ sessions db' = sessions db
            ∧ (∀ k' m', matches db' !! k' = Some m' →
                 ∃ m0, matches db !! k' = Some m0 ∧ same_sides m0 m')).
  { intros m1 ps1 [g Hg] Hs. cbn. split; [|split; [done|]].
    - eexists. exact (shifted_trans _ _ _ _ _ Hf Hg).
    - intros k' m'. destruct (decide (k = k')) as [<-|Hne].
      + rewrite lookup_insert_eq. intros [= <-]. exists m. split; [done|].
        by destruct (u_notes data).
      + rewrite lookup_insert_ne by done. eauto using same_sides_refl. }
  destruct (u_player1_score data) as [v1|], (u_player2_score data) as [v2|];
    try (apply Hfin; [eexists; apply shifted_refl | done]).
  destruct (negb _ || negb _); [exact Hsame|]. destruct (_ || _); [exact Hsame|].
  destruct (update_scores pow10 m (int_value v1) (int_value v2) now ps)
    as [[m1 ps1]|] eqn:Hu; [|exact Hsame].
  apply Hfin.
  - destruct (update_scores_inv _ _ _ _ _ _ _ _ Hu) as (_ & _ & _ & _ & _ & _ & _ & _ & Hsh).
    eauto.
  - exact (update_scores_same_sides_of _ _ _ _ _ _ _ _ Hu).
Qed.

Lemma create_match_effect data now db :
  let db' := (create_match pow10 data now db).2 in
  (∃ f, shifted f (players db) (players db'))
  ∧ sessions db' = sessions db
  ∧ (∀ k' m', matches db' !! k' = Some m' →
       matches db !! k' = Some m'
       ∨ sides_exist (players db) m' ∧ is_Some (sessions db !! session_id m')
         ∧ player1_id m' ≠ player2_id m').
Proof.
  assert (Hsame : (∃ f, shifted f (players db) (players db))
                  ∧ sessions db = sessions db
                  ∧ (∀ k' m', matches db !! k' = Some m' →
                       matches db !! k' = Some m'
                       ∨ sides_exist (players db) m' ∧ is_Some (sessions db !! session_id m')
                         ∧ player1_id m' ≠ player2_id m')).
  { split; [eexists; apply shifted_refl|]. split; [done|]. auto. }
  unfold create_match.
  destruct (falsy _ || falsy _ || falsy _); [exact Hsame|].
  destruct (Z.eqb_spec (default 0 (c_player1_id data)) (default 0 (c_player2_id data)))
    as [|Hne]; [exact Hsame|].
  destruct (players db !! default 0 (c_player1_id data)) as [p1|] eqn:Hp1; [|exact Hsame].
  destruct (players db !! default 0 (c_player2_id data)) as [p2|] eqn:Hp2; [|exact Hsame].
  destruct (sessions db !! default 0 (c_session_id data)) as [ss|] eqn:Hs; [|exact Hsame].
  set (m := new_match _ _ _ _ _ _).
  assert (Hfin : ∀ m1 ps1,
            (∃ g, shifted g (players db) ps1) → same_sides m m1 →
            let db' := {| players := ps1; sessions := sessions db;
                          matches := add_match m1 (matches db) |} in
            (∃ f, shifted f (players db) (players db'))
            ∧ sessions db' = sessions db
            ∧ (∀ k' m', matches db' !! k' = Some m' →
                 matches db !! k' = Some m'
                 ∨ sides_exist (players db) m' ∧ is_Some (sessions db !! session_id m')
                   ∧ player1_id m' ≠ player2_id m')).
  { intros m1 ps1 Hg (Es & E1 & E2). cbn. split; [done|]. split; [done|].
    intros k' m'. unfold add_match.
    destruct (decide (fresh_id (matches db) = k')) as [<-|Hk].
    - rewrite lookup_insert_eq. intros [= <-]. right.
      unfold sides_exist. rewrite Es, E1, E2. subst m. cbn. rewrite Hp1, Hp2, Hs.
      split_and!; eauto.
    - rewrite lookup_insert_ne by done. auto. }
  destruct (c_player1_score data) as [s1|], (c_player2_score data) as [s2|];
    try (apply Hfin; [eexists; apply shifted_refl | done]).
  rewrite update_scores_transient. exact Hsame.
Qed.

End TableEffects.

Lemma delete_match_effect k db :
  let db' := (delete_match k db).2 in
  (∃ f, shifted f (players db) (players db'))
  ∧ sessions db' = sessions db
  ∧ (∀ k' m', matches db' !! k' = Some m' → matches db !! k' = Some m').
Proof.
  assert (Hsame : (∃ f, shifted f (players db) (players db))
                  ∧ sessions db = sessions db
                  ∧ (∀ k' m', matches db !! k' = Some m' → matches db !! k' = Some m')).
  { split; [eexists; apply shifted_refl|]. done. }
  unfold delete_match.
  destruct (matches db !! k) as [m|]; [|exact Hsame].
  destruct (revert_match m (players db)) as [ps|] eqn:Hr; [|exact Hsame].
  cbn. split; [exact (revert_match_shifted _ _ _ Hr)|]. split; [done|].
  intros k' m' [_ H]%lookup_delete_Some. done.
Qed.

Lemma delete_session_effect sid db :
  let db' := (delete_session sid db).2 in
  (∃ f, shifted f (players db) (players db'))
  ∧ (∀ k' m', matches db' !! k' = Some m' →
       matches db !! k' = Some m'
       ∧ (is_Some (sessions db !! session_id m') → is_Some (sessions db' !! session_id m'))).
Proof.
  assert (Hsame : (∃ f, shifted f (players db) (players db))
                  ∧ (∀ k' m', matches db !! k' = Some m' →
                       matches db !! k' = Some m'
                       ∧ (is_Some (sessions db !! session_id m')
                          → is_Some (sessions db !! session_id m')))).
  { split; [eexists; apply shifted_refl|]. done. }
  unfold delete_session.
  destruct (sessions db !! sid); [|exact Hsame].
  destruct (foldl revert_in_session _ _) as [ps|] eqn:E; [|exact Hsame].
  cbn. split; [eexists; exact (revert_rows_effect _ _ _ E)|].
  intros k' m' [Hm Hne]%map_lookup_filter_Some. cbn in Hne. split; [done|].
  by rewrite lookup_delete_ne.
Qed.

Lemma in_unordered_pairs_distinct ids a b :
  NoDup ids → (a, b) ∈ unordered_pairs ids → a ≠ b ∧ a ∈ ids ∧ b ∈ ids.
Proof.
  intros Hnd (i & j & Hij & Hi & Hj)%elem_of_unordered_pairs. split_and!.
  - intros ->. pose proof (NoDup_lookup _ _ _ _ Hnd Hi Hj). lia.
  - by eapply list_elem_of_lookup_2.
  - by eapply list_elem_of_lookup_2.
Qed.

Lemma create_session_effect ids db :
  let db' := (create_session ids db).2 in
  players db' = players db
  ∧ (∀ s, is_Some (sessions db !! s) → is_Some (sessions db' !! s))
  ∧ (∀ k' m', matches db' !! k' = Some m' →
       matches db !! k' = Some m'
       ∨ sides_exist (players db) m' ∧ is_Some (sessions db' !! session_id m')
         ∧ player1_id m' ≠ player2_id m').
Proof.
  rewrite create_session_cases.
  destruct (length ids <? 2)%nat; [cbn; auto|].
  destruct (bool_decide _) eqn:Hb; [|cbn; auto].
  apply bool_decide_eq_true_1 in Hb as [Hnd Hall]. rewrite Forall_forall in Hall.
  cbn [snd]. unfold created_store. cbn [players sessions matches].
  set (sid := fresh_id (sessions db)).
  split; [done|]. split.
  - intros s Hs. rewrite lookup_insert_is_Some. destruct (decide (sid = s)); auto.
  - intros k' m'.
    rewrite (foldl_fmap_l (λ acc m, add_match m acc)
               (λ pr : Z * Z, new_match sid pr.1 pr.2 None None None)).
    rewrite add_matches_lookup_Some. intros [Hold|(i & _ & Hi)]; [by left|]. right.
    apply list_lookup_fmap_Some in Hi as ([a b] & -> & Hi).
    apply list_elem_of_lookup_2 in Hi. rewrite session_pairs_unordered in Hi.
    destruct (in_unordered_pairs_distinct _ _ _ Hnd Hi) as (Hab & Ha & Hb).
    cbn. split_and!; [split; cbn; auto| |done].
    rewrite lookup_insert_eq. eauto.
Qed.

(** ** White space *)

Lemma list_ascii_rev_app s t :
  list_ascii_of_string (String.rev_app s t)
  = reverse (list_ascii_of_string s) ++ list_ascii_of_string t.
Proof.
  revert t. induction s as [|c s IH]; intros t; [done|].
  cbn [String.rev_app list_ascii_of_string].
  rewrite IH, reverse_cons. cbn [list_ascii_of_string]. by rewrite <- app_assoc.
Qed.

Lemma list_ascii_rev s :
  list_ascii_of_string (String.rev s) = reverse (list_ascii_of_string s).
Proof. unfold String.rev. rewrite list_ascii_rev_app. cbn. by rewrite app_nil_r. Qed.

Lemma list_ascii_nil s : list_ascii_of_string s = [] ↔ s = ""%string.
Proof. destruct s; cbn; split; congruence. Qed.

Lemma lstrip_blank s :
  lstrip s = ""%string ↔ Forall (λ c, is_space c = true) (list_ascii_of_string s).
Proof.
  induction s as [|c s IH]; cbn; [split; [constructor|done]|].
  destruct (is_space c) eqn:E.
  - rewrite IH. split; [by constructor|]. by intros [_ ?]%Forall_cons.
  - split; [done|]. intros [? _]%Forall_cons. congruence.
Qed.

Lemma lstrip_head s c r : lstrip s = String c r → is_space c = false.
Proof.
  induction s as [|d s IH]; cbn; [done|].
  destruct (is_space d) eqn:E; [exact IH|]. by intros [= <- _].
Qed.

(** The text that [strip] leaves is empty exactly when the text consists
    of white space. *)
Lemma strip_blank s :
  strip s = ""%string ↔ Forall (λ c, is_space c = true) (list_ascii_of_string s).
Proof.
  unfold strip. split.
  - intros H. apply list_ascii_nil in H. rewrite list_ascii_rev in H.
    apply (f_equal reverse) in H. rewrite reverse_involutive in H. cbn in H.
    apply list_ascii_nil, lstrip_blank in H. rewrite list_ascii_rev in H.
    rewrite Forall_reverse in H.
    destruct (lstrip s) as [|c r] eqn:E; [by apply lstrip_blank|].
    apply lstrip_head in E. apply Forall_cons in H as [? _]. congruence.
  - intros H. apply lstrip_blank in H. by rewrite H.
Qed.

(** A text that [strip] leaves neither begins nor ends with white space. *)
Lemma strip_ends s c :
  (head (list_ascii_of_string (strip s)) = Some c
   ∨ last (list_ascii_of_string (strip s)) = Some c) → is_space c = false.
Proof.
  unfold strip. rewrite list_ascii_rev.
  set (t := lstrip s). set (u := lstrip (String.rev t)).
  assert (Hu : ∀ d r, u = String d r → is_space d = false)
    by (intros d r; apply lstrip_head).
  assert (Ht : ∀ d r, t = String d r → is_space d = false)
    by (intros d r; apply lstrip_head).
  (* [u] is a suffix of the reverse of [t] *)
  assert (Hsuf : ∃ pre, reverse (list_ascii_of_string t) = pre ++ list_ascii_of_string u).
  { subst u. rewrite <- list_ascii_rev. generalize (String.rev t). intros w.
    induction w as [|d w [pre IH]]; cbn; [by exists []|].
    destruct (is_space d).
    - exists (d :: pre). by rewrite IH.
    - by exists []. }
  destruct Hsuf as [pre Hpre].
  intros [H|H].
  - (* the first character of the result is the last one of [u], hence of the
       reverse of [t], hence the first one of [t] *)
    rewrite head_reverse in H.
    assert (Hl : last (reverse (list_ascii_of_string t)) = Some c).
    { rewrite Hpre. destruct (list_ascii_of_string u) as [|x l] eqn:E; [done|].
      rewrite last_app. by rewrite H. }
    rewrite last_reverse in Hl. destruct t as [|d r]; [done|]. cbn in Hl.
    injection Hl as <-. by eapply Ht.
  - rewrite last_reverse in H. destruct u as [|d r]; [done|]. cbn in H.
    injection H as <-. by eapply Hu.
Qed.

(** ** Players *)

Lemma name_taken_spec nm ps :
  name_taken nm ps = true ↔ ∃ k p, ps !! k = Some p ∧ name p = nm.
Proof.
  unfold name_taken. rewrite bool_decide_eq_true, Exists_exists. split.
  - intros ([k p] & Hin%elem_of_table_rows & Hn). eauto.
  - intros (k & p & Hp & Hn). exists (k, p). split; [by apply elem_of_table_rows|done].
Qed.

Lemma name_taken_false nm ps :
  name_taken nm ps = false ↔ ∀ k p, ps !! k = Some p → name p ≠ nm.
Proof.
  rewrite <- not_true_iff_false, name_taken_spec. split.
  - intros H k p Hp Hn. apply H. eauto.
  - intros H (k & p & Hp & Hn). by apply (H k p).
Qed.

(** X11.  [POST /players] by cases.  A name that is not a string leaves
    the handler with an exception.  A name that is absent, empty or made
    of white space only is answered 400, and so is a name that, once
    stripped, is the name of a player of the store, active or not; nothing
    is stored then.  Any other name is answered 201 and adds, under a
    fresh key, an active player rated 1000 whose name is the stripped
    text, which neither begins nor ends with white space. *)
Theorem create_player_cases (data : PlayerCreate) (db : Store) :
  (n_name data = Some JNotString → create_player data db = Uncaught)
  ∧ (∀ s, default (JString "") (n_name data) = JString s →
       (Forall (λ c, is_space c = true) (list_ascii_of_string s) →
        create_player data db = Response (400, db))
       ∧ ((∃ k p, players db !! k = Some p ∧ name p = strip s) →
          create_player data db = Response (400, db))
       ∧ (¬ Forall (λ c, is_space c = true) (list_ascii_of_string s) →
          (∀ k p, players db !! k = Some p → name p ≠ strip s) →
          players db !! fresh_id (players db) = None
          ∧ create_player data db
            = Response (201, {| players :=
                                  <[fresh_id (players db) :=
                                      {| name := strip s; elo_rating := 1000;
                                         active := true |}]> (players db);
                                sessions := sessions db; matches := matches db |})))
  ∧ (∀ s c, head (list_ascii_of_string (strip s)) = Some c
            ∨ last (list_ascii_of_string (strip s)) = Some c → is_space c = false).
Proof.
  unfold create_player. split_and!.
  - intros ->. done.
  - intros s ->. split_and!.
    + intros Hb%strip_blank. by rewrite bool_decide_eq_true_2.
    + intros Ht%name_taken_spec. rewrite Ht. by destruct (bool_decide _).
    + intros Hb Hfree. split; [apply fresh_id_fresh; lia|].
      rewrite bool_decide_eq_false_2 by (by rewrite strip_blank).
      apply name_taken_false in Hfree. by rewrite Hfree.
  - apply strip_ends.
Qed.

(** ** Invariants of the store *)

Lemma sides_exist_shifted f ps ps' m :
  shifted f ps ps' → sides_exist ps m → sides_exist ps' m.
Proof. intros H [H1 H2]. split; by apply (shifted_is_Some _ _ _ _ H). Qed.

Lemma sides_exist_insert ps k p m :
  sides_exist ps m → sides_exist (<[k := p]> ps) m.
Proof.
  intros [H1 H2]. split; rewrite lookup_insert_is_Some;
    [destruct (decide (k = player1_id m)) | destruct (decide (k = player2_id m))]; auto.
Qed.

Lemma references_ok_players db ps :
  references_ok db → (∀ m, sides_exist (players db) m → sides_exist ps m) →
  references_ok {| players := ps; sessions := sessions db; matches := matches db |}.
Proof.
  intros H Hs k m Hm. destruct (H k m Hm) as (? & ? & ?). cbn. auto.
Qed.

Lemma add_player_effect nm db :
  players db !! fresh_id (players db) = None
  ∧ players (add_player nm db) = <[fresh_id (players db) := new_player nm]> (players db)
  ∧ sessions (add_player nm db) = sessions db
  ∧ matches (add_player nm db) = matches db.
Proof. split; [apply fresh_id_fresh; lia|done]. Qed.

Lemma references_ok_add_player nm db : references_ok db → references_ok (add_player nm db).
Proof.
  intros H. apply (references_ok_players db); [done|].
  intros m. apply sides_exist_insert.
Qed.

Lemma init_database_fold (P : Store → Prop) db :
  P db → (∀ nm acc, P acc → name_taken nm (players acc) = false → P (add_player nm acc)) →
  P (init_database db).
Proof.
  intros H0 Hstep. unfold init_database. revert db H0.
  induction default_players as [|nm l IH]; intros db H0; [done|]. cbn [foldl].
  apply IH. destruct (name_taken nm (players db)) eqn:E; [done|]. by apply Hstep.
Qed.

(** X12.  Referential integrity (every match refers to two different
    players and to a session that all exist) is kept by every handler and
    by [init_database]. *)
Theorem references_kept (pow10 : Q → option Q) (db : Store) :
  references_ok db →
  (∀ data r, create_player data db = Response r → references_ok r.2)
  ∧ (∀ pid, references_ok (delete_player pid db).2)
  ∧ (∀ ids, references_ok (create_session ids db).2)
  ∧ (∀ sid, references_ok (delete_session sid db).2)
  ∧ (∀ data now, references_ok (create_match pow10 data now db).2)
  ∧ (∀ k data now, references_ok (update_match pow10 k data now db).2)
  ∧ (∀ k, references_ok (delete_match k db).2)
  ∧ references_ok (init_database db).
Proof.
  intros Hok. split_and!.
  - intros data r. unfold create_player.
    destruct (default _ _) as [s|]; [|done].
    destruct (bool_decide _); [by intros [= <-]|].
    destruct (name_taken _ _); [by intros [= <-]|].
    intros [= <-]. by apply references_ok_add_player.
  - intros pid. unfold delete_player.
    destruct (players db !! pid) as [p|]; [|done]. cbn [snd].
    apply (references_ok_players db); [done|]. intros m. apply sides_exist_insert.
  - intros ids. destruct (create_session_effect ids db) as (Hp & Hs & Hm).
    intros k m Hk. destruct (Hm k m Hk) as [Hold|(H1 & H2 & H3)].
    + destruct (Hok k m Hold) as (? & ? & ?). rewrite Hp. auto.
    + rewrite Hp. auto.
  - intros sid. destruct (delete_session_effect sid db) as ([f Hf] & Hm).
    intros k m Hk. destruct (Hm k m Hk) as [Hold Hs].
    destruct (Hok k m Hold) as (H1 & H2 & H3).
    split_and!; [by eapply sides_exist_shifted|auto|done].
  - intros data now. destruct (create_match_effect pow10 data now db) as ([f Hf] & Hs & Hm).
    intros k m Hk. rewrite Hs.
    destruct (Hm k m Hk) as [Hold|(H1 & H2 & H3)].
    + destruct (Hok k m Hold) as (H1 & H2 & H3).
      split_and!; [by eapply sides_exist_shifted|done|done].
    + split_and!; [by eapply sides_exist_shifted|done|done].
  - intros k data now. destruct (update_match_effect pow10 k data now db) as ([f Hf] & Hs & Hm).
    intros k' m' Hk. rewrite Hs.
    destruct (Hm k' m' Hk) as (m0 & Hold & Es & E1 & E2).
    destruct (Hok k' m0 Hold) as (H1 & H2 & H3).
    unfold sides_exist in *. rewrite Es, E1, E2.
    split_and!; [apply (shifted_is_Some _ _ _ _ Hf), H1
                |apply (shifted_is_Some _ _ _ _ Hf), H1|done|done].
  - intros k. destruct (delete_match_effect k db) as ([f Hf] & Hs & Hm).
    intros k' m' Hk. rewrite Hs. destruct (Hok k' m' (Hm k' m' Hk)) as (H1 & H2 & H3).
    split_and!; [by eapply sides_exist_shifted|done|done].
  - apply init_database_fold; [done|]. intros nm acc H _.
    by apply references_ok_add_player.
Qed.

(** X13.  [DELETE /matches/<id>] answers 404 and changes nothing when
    there is no such match.  Otherwise, when the two players of the match
    exist, it answers 200, removes the match and nothing else, and lowers
    each rating by what the match had contributed: the stored change of
    the player if the match is completed, nothing if it is not. *)
Theorem delete_match_reverts (k : Z) (db : Store) :
  (matches db !! k = None → delete_match k db = (404, db))
  ∧ (∀ m, matches db !! k = Some m → sides_exist (players db) m →
       (is_completed m →
        is_Some (player1_elo_change m) ∧ is_Some (player2_elo_change m)) →
       ∃ db',
         delete_match k db = (200, db')
         ∧ sessions db' = sessions db
         ∧ matches db' = delete k (matches db)
         ∧ (∀ pid, players db' !! pid
                   = (λ p, with_rating p (elo_rating p - contribution pid m))
                     <$> players db !! pid)
         ∧ (is_completed m = false → players db' = players db)).
Proof.
  unfold delete_match. split.
  - intros ->. done.
  - intros m Hm Hsides Hpres. rewrite Hm.
    destruct (revert_match_defined m (players db) Hsides) as [ps Hr]. rewrite Hr.
    pose proof (revert_match_effect m _ _ Hpres Hr) as Hsh.
    exists {| players := ps; sessions := sessions db; matches := delete k (matches db) |}.
    cbn [players sessions matches]. split_and!; [done|done|done|exact Hsh|].
    intros Hc. eapply shifted_eq; [exact Hsh|apply shifted_refl|].
    intros q. unfold contribution. by rewrite Hc.
Qed.

Lemma players_kept_shifted f db db' :
  shifted f (players db) (players db') → players_kept db db'.
Proof.
  intros H pid p Hp. rewrite (shifted_lookup _ _ _ _ _ H Hp). eauto.
Qed.

Lemma players_kept_refl db : players_kept db db.
Proof. intros pid p Hp. eauto. Qed.

Lemma players_kept_trans db1 db2 db3 :
  players_kept db1 db2 → players_kept db2 db3 → players_kept db1 db3.
Proof.
  intros H1 H2 pid p Hp. destruct (H1 pid p Hp) as (p' & Hp' & Hn & Ha).
  destruct (H2 pid p' Hp') as (p'' & Hp'' & Hn' & Ha').
  exists p''. split_and!; [done|congruence|auto].
Qed.

Lemma players_kept_add_player nm db : players_kept db (add_player nm db).
Proof.
  intros pid p Hp. exists p. split; [|done]. cbn.
  rewrite lookup_insert_ne; [done|]. intros <-.
  rewrite fresh_id_fresh in Hp by lia. done.
Qed.

(** X14.  No handler removes or renames a player, and none makes a
    deactivated player active again: every player of the store is still
    there after any request, under the same name, and inactive if it was
    inactive. *)
Theorem players_never_lost (pow10 : Q → option Q) (db : Store) :
  (∀ data r, create_player data db = Response r → players_kept db r.2)
  ∧ (∀ pid, players_kept db (delete_player pid db).2)
  ∧ (∀ ids, players_kept db (create_session ids db).2)
  ∧ (∀ sid, players_kept db (delete_session sid db).2)
  ∧ (∀ data now, players_kept db (create_match pow10 data now db).2)
  ∧ (∀ k data now, players_kept db (update_match pow10 k data now db).2)
  ∧ (∀ k, players_kept db (delete_match k db).2)
  ∧ players_kept db (init_database db).
Proof.
  split_and!.
  - intros data r. unfold create_player.
    destruct (default _ _) as [s|]; [|done].
    destruct (bool_decide _); [intros [= <-]; apply players_kept_refl|].
    destruct (name_taken _ _); [intros [= <-]; apply players_kept_refl|].
    intros [= <-]. apply players_kept_add_player.
  - intros pid. unfold delete_player.
    destruct (players db !! pid) as [p0|] eqn:E; [|apply players_kept_refl].
    intros q p Hp. cbn. destruct (decide (pid = q)) as [<-|Hne].
    + rewrite lookup_insert_eq. exists (deactivated p0).
      rewrite E in Hp. injection Hp as <-. done.
    + rewrite lookup_insert_ne by done. eauto.
  - intros ids. destruct (create_session_effect ids db) as (Hp & _).
    intros q p Hq. rewrite Hp. eauto.
  - intros sid. destruct (delete_session_effect sid db) as ([f Hf] & _).
    by eapply players_kept_shifted.
  - intros data now. destruct (create_match_effect pow10 data now db) as ([f Hf] & _).
    by eapply players_kept_shifted.
  - intros k data now. destruct (update_match_effect pow10 k data now db) as ([f Hf] & _).
    by eapply players_kept_shifted.
  - intros k. destruct (delete_match_effect k db) as ([f Hf] & _).
    by eapply players_kept_shifted.
  - apply (init_database_fold (players_kept db)); [apply players_kept_refl|].
    intros nm acc H _. eapply players_kept_trans; [exact H|apply players_kept_add_player].
Qed.

(** ** Names *)

Lemma names_distinct_same ps ps' :
  (∀ pid, name <$> ps' !! pid = name <$> ps !! pid) →
  names_distinct ps → names_distinct ps'.
Proof.
  intros Hsame Hd i j p q Hp Hq Hn.
  pose proof (Hsame i) as Hi. pose proof (Hsame j) as Hj. rewrite Hp in Hi. rewrite Hq in Hj.
  destruct (ps !! i) as [p0|] eqn:Ei; [|done]. destruct (ps !! j) as [q0|] eqn:Ej; [|done].
  cbn in Hi, Hj. apply (Hd i j p0 q0 Ei Ej). congruence.
Qed.

Lemma names_distinct_shifted f ps ps' :
  shifted f ps ps' → names_distinct ps → names_distinct ps'.
Proof.
  intros H. apply names_distinct_same. intros pid. rewrite H.
  by destruct (ps !! pid).
Qed.

Lemma names_distinct_add_player nm db :
  name_taken nm (players db) = false →
  names_distinct (players db) → names_distinct (players (add_player nm db)).
Proof.
  intros Hfree Hd i j p q. cbn.
  pose proof (proj1 (name_taken_false _ _) Hfree) as Hfree'. clear Hfree. rename Hfree' into Hfree.
  assert (Hnew : players db !! fresh_id (players db) = None) by (apply fresh_id_fresh; lia).
  destruct (decide (fresh_id (players db) = i)) as [<-|Hi],
           (decide (fresh_id (players db) = j)) as [<-|Hj];
    rewrite ?lookup_insert_eq, ?lookup_insert_ne by done.
  - done.
  - intros [= <-] Hq Hn. cbn in Hn. by destruct (Hfree j q Hq).
  - intros Hp [= <-] Hn. cbn in Hn. by destruct (Hfree i p Hp).
  - apply Hd.
Qed.

(** X15.  If no two players share a name, no two players share a name
    after any request, nor after [init_database]. *)
Theorem names_stay_distinct (pow10 : Q → option Q) (db : Store) :
  names_distinct (players db) →
  (∀ data r, create_player data db = Response r → names_distinct (players r.2))
  ∧ (∀ pid, names_distinct (players (delete_player pid db).2))
  ∧ (∀ ids, names_distinct (players (create_session ids db).2))
  ∧ (∀ sid, names_distinct (players (delete_session sid db).2))
  ∧ (∀ data now, names_distinct (players (create_match pow10 data now db).2))
  ∧ (∀ k data now, names_distinct (players (update_match pow10 k data now db).2))
  ∧ (∀ k, names_distinct (players (delete_match k db).2))
  ∧ names_distinct (players (init_database db)).
Proof.
  intros Hd. split_and!.
  - intros data r. unfold create_player.
    destruct (default _ _) as [s|]; [|done].
    destruct (bool_decide _); [by intros [= <-]|].
    destruct (name_taken _ _) eqn:E; [by intros [= <-]|].
    intros [= <-]. by apply names_distinct_add_player.
  - intros pid. unfold delete_player.
    destruct (players db !! pid) as [p0|] eqn:E; [|done]. cbn [snd players].
    eapply names_distinct_same; [|exact Hd]. intros q.
    destruct (decide (pid = q)) as [<-|Hne].
    + by rewrite lookup_insert_eq, E.
    + by rewrite lookup_insert_ne.
  - intros ids. destruct (create_session_effect ids db) as (Hp & _). by rewrite Hp.
  - intros sid. destruct (delete_session_effect sid db) as ([f Hf] & _).
    by eapply names_distinct_shifted.
  - intros data now. destruct (create_match_effect pow10 data now db) as ([f Hf] & _).
    by eapply names_distinct_shifted.
  - intros k data now. destruct (update_match_effect pow10 k data now db) as ([f Hf] & _).
    by eapply names_distinct_shifted.
  - intros k. destruct (delete_match_effect k db) as ([f Hf] & _).
    by eapply names_distinct_shifted.
  - apply (init_database_fold (λ acc, names_distinct (players acc))); [done|].
    intros nm acc H Hfree. by apply names_distinct_add_player.
Qed.


(** ** The start-up data *)

Lemma name_taken_add_player nm nm' db :
  name_taken nm (players (add_player nm' db)) = true ↔
  nm = nm' ∨ name_taken nm (players db) = true.
Proof.
  rewrite !name_taken_spec. cbn.
  assert (Hnew : players db !! fresh_id (players db) = None) by (apply fresh_id_fresh; lia).
  split.
  - intros (k & p & Hp & Hn). apply lookup_insert_Some in Hp as [[<- <-]|[Hne Hp]].
    + left. done.
    + right. eauto.
  - intros [->|(k & p & Hp & Hn)].
    + exists (fresh_id (players db)), (new_player nm'). by rewrite lookup_insert_eq.
    + exists k, p. split; [|done]. rewrite lookup_insert_ne; [done|]. congruence.
Qed.

Lemma ensure_players (l : list string) (db : Store) :
  let db' := foldl (λ acc nm, if name_taken nm (players acc) then acc
                              else add_player nm acc) db l in
  sessions db' = sessions db ∧ matches db' = matches db
  ∧ (∀ k p, players db !! k = Some p → players db' !! k = Some p)
  ∧ (∀ k p, players db' !! k = Some p →
       players db !! k = Some p
       ∨ players db !! k = None ∧ p = new_player (name p) ∧ name p ∈ l
         ∧ name_taken (name p) (players db) = false)
  ∧ (∀ nm, name_taken nm (players db') = true ↔
           nm ∈ l ∨ name_taken nm (players db) = true).
Proof.
  revert db. induction l as [|nm l IH]; intros db; cbn [foldl].
  - cbn. split_and!; auto. intros nm. rewrite elem_of_nil. tauto.
  - destruct (name_taken nm (players db)) eqn:E.
    + destruct (IH db) as (Hs & Hm & Hold & Hnew & Htaken). cbv zeta in *.
      split_and!; [done|done|done| |].
      * intros k p Hp. destruct (Hnew k p Hp) as [?|(? & ? & ? & ?)]; [by left|].
        right. split_and!; [done|done|by right|done].
      * intros nm'. rewrite Htaken, elem_of_cons. split; [tauto|].
        intros [[->|?]|?]; auto.
    + destruct (IH (add_player nm db)) as (Hs & Hm & Hold & Hnew & Htaken). cbv zeta in *.
      assert (Hfresh : players db !! fresh_id (players db) = None)
        by (apply fresh_id_fresh; lia).
      split_and!; [done|done| | |].
      * intros k p Hp. apply Hold. cbn. rewrite lookup_insert_ne; [done|]. congruence.
      * intros k p Hp. destruct (Hnew k p Hp) as [Hp'|(Hn & Hp' & Hin & Hfree)].
        -- cbn in Hp'. apply lookup_insert_Some in Hp' as [[<- <-]|[Hne Hp']]; [|by left].
           right. split_and!; [done|done|left|done].
        -- right. cbn in Hn. apply lookup_insert_None in Hn as [Hn _].
           split_and!; [done|done|by right|].
           apply not_true_iff_false. intros Ht. apply not_true_iff_false in Hfree.
           apply Hfree, name_taken_add_player. by right.
      * intros nm'. rewrite Htaken, name_taken_add_player, elem_of_cons. tauto.
Qed.

Lemma ensure_noop (l : list string) (db : Store) :
  (∀ nm, nm ∈ l → name_taken nm (players db) = true) →
  foldl (λ acc nm, if name_taken nm (players acc) then acc else add_player nm acc) db l
  = db.
Proof.
  induction l as [|nm l IH]; intros H; cbn [foldl]; [done|].
  rewrite (H nm) by left. apply IH. intros nm' Hin. apply H. by right.
Qed.

(** X16.  [init_database] touches no session, no match and no existing
    player; every player it adds is a new player (rated 1000, active)
    under one of the four default names that nobody had; afterwards each
    default name is the name of a player; running it again changes
    nothing; and on the empty store it gives the four default players
    under the keys 1 to 4. *)
Theorem init_database_defaults (db : Store) :
  sessions (init_database db) = sessions db
  ∧ matches (init_database db) = matches db
  ∧ (∀ k p, players db !! k = Some p → players (init_database db) !! k = Some p)
  ∧ (∀ k p, players (init_database db) !! k = Some p →
       players db !! k = Some p
       ∨ players db !! k = None ∧ p = new_player (name p)
         ∧ name p ∈ default_players ∧ name_taken (name p) (players db) = false)
  ∧ (∀ nm, nm ∈ default_players →
       ∃ k p, players (init_database db) !! k = Some p ∧ name p = nm)
  ∧ init_database (init_database db) = init_database db
  ∧ init_database {| players := ∅; sessions := ∅; matches := ∅ |} = init_store.
Proof.
  destruct (ensure_players default_players db) as (Hs & Hm & Hold & Hnew & Htaken).
  fold (init_database db) in *. cbv zeta in *.
  split_and!; [done|done|done|done| | |reflexivity].
  - intros nm Hin. apply name_taken_spec, Htaken. by left.
  - apply ensure_noop. intros nm Hin. apply Htaken. by left.
Qed.

(** ** The accounting invariant under every handler *)

Lemma total_delta_stranger pid rows :
  (∀ km, km ∈ rows → player1_id km.2 ≠ pid ∧ player2_id km.2 ≠ pid) →
  total_delta pid rows = 0.
Proof.
  induction rows as [|[k m] rows IH]; intros H; [done|].
  change (total_delta pid ((k, m) :: rows)) with (applied_delta pid m + total_delta pid rows).
  rewrite IH by (intros km Hin; apply H; by right).
  destruct (H (k, m)) as [H1 H2]; [left|]. cbn in H1, H2.
  unfold applied_delta. rewrite !decide_False by done. done.
Qed.

Lemma consistent_add_player nm db :
  references_ok db → consistent db → consistent (add_player nm db).
Proof.
  intros Hok [Hacc Hpres]. split; [|exact Hpres].
  intros pid p. cbn [players add_player].
  change (completed_rows (add_player nm db)) with (completed_rows db).
  intros [[<- <-]|[Hne Hp]]%lookup_insert_Some; [|by apply Hacc].
  cbn [new_player elo_rating]. rewrite total_delta_stranger; [done|].
  intros [k m] [_ Hin%elem_of_table_rows]%list_elem_of_filter.
  destruct (Hok k m Hin) as ([[p1 H1] [p2 H2]] & _). cbn.
  split; intros E; rewrite E, fresh_id_fresh in * by lia; done.
Qed.

(** X17.  The accounting invariant (a rating is 1000 plus the stored
    changes of the completed matches of the player, and a completed match
    stores both changes) is kept by [POST /sessions], [DELETE /sessions],
    [POST /matches], [DELETE /matches], [DELETE /players], and by
    [PUT /matches] when the body holds both scores or the match is not
    completed; under referential integrity also by [POST /players] and
    [init_database]. *)
Theorem handlers_keep_accounting (pow10 : Q → option Q) (db : Store) :
  consistent db →
  (∀ ids, consistent (create_session ids db).2)
  ∧ (∀ sid, consistent (delete_session sid db).2)
  ∧ (∀ data now, consistent (create_match pow10 data now db).2)
  ∧ (∀ k, consistent (delete_match k db).2)
  ∧ (∀ k data now,
       is_Some (u_player1_score data) ∧ is_Some (u_player2_score data)
       ∨ (∀ m, matches db !! k = Some m → is_completed m = false) →
       consistent (update_match pow10 k data now db).2)
  ∧ (∀ pid, consistent (delete_player pid db).2)
  ∧ (references_ok db →
     (∀ data r, create_player data db = Response r → consistent r.2)
     ∧ consistent (init_database db)).
Proof.
  intros Hc. split_and!.
  - intros ids. by apply create_session_consistent.
  - intros sid. by apply delete_session_consistent.
  - intros data now. by apply create_match_consistent.
  - intros k. by apply delete_match_consistent.
  - intros k data now Hcase. by apply update_match_consistent.
  - intros pid. unfold delete_player.
    destruct (players db !! pid) as [p0|] eqn:E; [|done]. cbn [snd].
    destruct Hc as [Hacc Hpres]. split; [|exact Hpres].
    intros q p. cbn [players]. 
    change (completed_rows {| players := <[pid:=deactivated p0]> (players db);
                              sessions := sessions db; matches := matches db |})
      with (completed_rows db).
    intros [[<- <-]|[Hne Hp]]%lookup_insert_Some; [|by apply Hacc].
    cbn. by apply Hacc.
  - intros Hok. split.
    + intros data r. unfold create_player.
      destruct (default _ _) as [s|]; [|done].
      destruct (bool_decide _); [by intros [= <-]|].
      destruct (name_taken _ _); [by intros [= <-]|].
      intros [= <-]. by apply consistent_add_player.
    + apply (init_database_fold (λ acc, references_ok acc ∧ consistent acc)); [done|].
      intros nm acc [H1 H2] _. split.
      * by apply references_ok_add_player.
      * by apply consistent_add_player.
Qed.

(** ** Deactivated players *)

Lemma elem_of_get_players db k p :
  (k, p) ∈ get_players db ↔ players db !! k = Some p ∧ active p = true.
Proof.
  unfold get_players. rewrite list_elem_of_filter, elem_of_table_rows. cbn. tauto.
Qed.

Lemma elem_of_get_leaderboard db row :
  row ∈ get_leaderboard db ↔
  ∃ kp, players db !! kp.1 = Some kp.2 ∧ active kp.2 = true ∧ row ∈ leader_row kp db.
Proof.
  unfold get_leaderboard. rewrite elem_of_sort_desc, list_elem_of_bind. split.
  - intros ([k p] & Hin & [Hact Hp%elem_of_table_rows]%list_elem_of_filter).
    by exists (k, p).
  - intros ([k p] & Hp & Hact & Hin). exists (k, p). split; [done|].
    apply list_elem_of_filter. split; [done|]. by apply elem_of_table_rows.
Qed.

Lemma leader_row_id kp db row : row ∈ leader_row kp db → lb_id row = kp.1.
Proof.
  unfold leader_row. destruct (completed_matches_of kp.1 db); [by intros ?%elem_of_nil|].
  by intros ->%list_elem_of_singleton.
Qed.

(** X18.  [DELETE /players/<id>] answers 404 when there is no such
    player.  Otherwise it answers 200 and only clears the [active] flag:
    the row, its name and rating, the sessions and the matches stay; the
    player leaves the list of [GET /players] and the leaderboard, where
    everybody else stays; and a second deletion changes nothing. *)
Theorem delete_player_soft (pid : Z) (db : Store) :
  (players db !! pid = None → delete_player pid db = (404, db))
  ∧ (∀ p, players db !! pid = Some p →
       ∃ db',
         delete_player pid db = (200, db')
         ∧ players db' = <[pid := deactivated p]> (players db)
         ∧ sessions db' = sessions db ∧ matches db' = matches db
         ∧ (∀ k q, (k, q) ∈ get_players db' ↔ (k, q) ∈ get_players db ∧ k ≠ pid)
         ∧ (∀ row, row ∈ get_leaderboard db' ↔
                   row ∈ get_leaderboard db ∧ lb_id row ≠ pid)
         ∧ delete_player pid db' = (200, db')).
Proof.
  unfold delete_player. split; [by intros ->|].
  intros p Hp. rewrite Hp.
  set (db' := {| players := <[pid := deactivated p]> (players db);
                 sessions := sessions db; matches := matches db |}).
  exists db'.
  assert (Hlook : ∀ k q, players db' !! k = Some q ∧ active q = true ↔
                         (players db !! k = Some q ∧ active q = true) ∧ k ≠ pid).
  { intros k q. cbn. destruct (decide (pid = k)) as [<-|Hne].
    - rewrite lookup_insert_eq. split; [|tauto]. by intros [[= <-] ?].
    - rewrite lookup_insert_ne by done. split; [intros [? ?]; split; [done|congruence]|tauto]. }
  split_and!; try done.
  - intros k q. rewrite !elem_of_get_players. apply Hlook.
  - intros row. rewrite !elem_of_get_leaderboard. split.
    + intros ([k q] & H1 & H2 & Hin). cbn in H1, H2.
      destruct (proj1 (Hlook k q) (conj H1 H2)) as [[H3 H4] Hne].
      split; [by exists (k, q)|]. by rewrite (leader_row_id _ _ _ Hin).
    + intros [([k q] & H1 & H2 & Hin) Hne]. cbn in H1, H2.
      rewrite (leader_row_id _ _ _ Hin) in Hne.
      destruct (proj2 (Hlook k q) (conj (conj H1 H2) Hne)) as [H3 H4].
      by exists (k, q).
  - unfold db'. cbn [players sessions matches]. rewrite lookup_insert_eq.
    by rewrite insert_insert_eq.
Qed.

(** ** Requests under the decorator *)

(** Membership of a status in a list of literals, and its consequences. *)
Ltac status :=
  cbn [fst snd] in *; rewrite ?elem_of_cons, ?elem_of_nil in *; (lia || intuition lia).

Lemma validate_json_request_refused {D} (empty : D) f ct body db :
  ct ≠ Some "application/json"%string ∨ body = None →
  validate_json_request empty f ct body db = (400, db).
Proof.
  unfold validate_json_request. intros [H| ->].
  - by rewrite bool_decide_eq_false_2.
  - by destruct (bool_decide _).
Qed.

Lemma validate_json_request_run {D} (empty : D) f data db :
  validate_json_request empty f (Some "application/json"%string) (Some data) db
  = match f (default empty data) db with
    | Response r => r
    | Uncaught => (400, db)
    end.
Proof. unfold validate_json_request. by rewrite bool_decide_eq_true_2. Qed.

Lemma update_match_status pow10 k data now db :
  (update_match pow10 k data now db).1 ∈ [200; 400; 404; 500].
Proof.
  unfold update_match.
  destruct (matches db !! k) as [m|]; [|status].
  destruct (players db !! player1_id m); [|status].
  destruct (players db !! player2_id m); [|status].
  destruct (revert_match m (players db)) as [ps|]; [|status].
  destruct (u_player1_score data) as [v1|], (u_player2_score data) as [v2|];
    try (status).
  destruct (negb _ || negb _); [status|]. destruct (_ || _); [status|].
  destruct (update_scores _ _ _ _ _ _) as [[m1 ps1]|]; status.
Qed.

Lemma create_match_status pow10 data now db :
  (create_match pow10 data now db).1 ∈ [201; 400; 404; 500]
  ∧ ((create_match pow10 data now db).1 ≠ 201 → (create_match pow10 data now db).2 = db).
Proof.
  unfold create_match.
  destruct (falsy _ || falsy _ || falsy _); [split; [status|done]|].
  destruct (_ =? _); [split; [status|done]|].
  destruct (players db !! default 0 (c_player1_id data)); [|split; [status|done]].
  destruct (players db !! default 0 (c_player2_id data)); [|split; [status|done]].
  destruct (sessions db !! _); [|split; [status|done]].
  destruct (match c_player1_score data with Some _ => _ | None => _ end) as [[m ps]|];
    (split; [status|done]).
Qed.

Lemma create_session_status ids db :
  (create_session ids db).1 ∈ [200; 400; 404]
  ∧ ((create_session ids db).1 ≠ 200 → (create_session ids db).2 = db).
Proof.
  rewrite create_session_cases.
  destruct (length ids <? 2)%nat; [split; [status|done]|].
  destruct (bool_decide _); (split; [status|done]).
Qed.

(** X19.  [PUT /matches/<id>] under the request decorator is answered
    200 or 400 and nothing else, and 400 leaves the store unchanged.  In
    particular a match that does not exist is answered 400, not 404: the
    [NotFound] of [get_or_404] is caught by the decorator.  A content
    type other than [application/json] or a body that is not JSON is
    answered 400 without running the handler; otherwise the reply is the
    handler's when it answers 200, and 400 with the store unchanged when
    it does not. *)
Theorem put_match_replies (pow10 : Q → option Q) (k now : Z)
    (content_type : option string) (body : option (option MatchUpdate)) (db : Store) :
  let r := put_match pow10 k now content_type body db in
  (r.1 = 200 ∨ r.1 = 400)
  ∧ (r.1 = 400 → r.2 = db)
  ∧ (matches db !! k = None → r = (400, db))
  ∧ (content_type ≠ Some "application/json"%string ∨ body = None → r = (400, db))
  ∧ (content_type = Some "application/json"%string →
     ∀ data, body = Some data →
       let inner := update_match pow10 k (default empty_update data) now db in
       r = if bool_decide (inner.1 = 200) then inner else (400, db)).
Proof.
  cbv zeta. unfold put_match.
  assert (Hrun : content_type = Some "application/json"%string →
            ∀ data, body = Some data →
              validate_json_request empty_update
                (λ data db, uncaught_at [404; 500] (update_match pow10 k data now db))
                content_type body db
              = if bool_decide ((update_match pow10 k (default empty_update data) now db).1
                                = 200)
                then update_match pow10 k (default empty_update data) now db
                else (400, db)).
  { intros -> data ->. rewrite validate_json_request_run. unfold uncaught_at.
    pose proof (update_match_status pow10 k (default empty_update data) now db) as Hst.
    pose proof (update_match_failed pow10 k (default empty_update data) now db) as Hf.
    destruct (update_match pow10 k (default empty_update data) now db) as [code db'].
    cbn [fst snd] in *.
    destruct (decide (code = 200)) as [->|Hne].
    - by rewrite bool_decide_eq_false_2 by status.
    - rewrite (bool_decide_eq_false_2 (code = 200)) by done.
      destruct (bool_decide (code ∈ [404; 500])) eqn:E; [done|].
      apply bool_decide_eq_false_1 in E. rewrite (Hf Hne).
      f_equal. status. }
  assert (Hcases : content_type ≠ Some "application/json"%string ∨ body = None
                   ∨ content_type = Some "application/json"%string ∧ ∃ data, body = Some data).
  { destruct (decide (content_type = Some "application/json"%string)); [|auto].
    destruct body; eauto 6. }
  split_and!.
  - destruct Hcases as [H|[H|(Hc & data & Hb)]];
      [rewrite validate_json_request_refused by auto; auto..|].
    rewrite (Hrun Hc data Hb). case_bool_decide; auto.
  - destruct Hcases as [H|[H|(Hc & data & Hb)]];
      [rewrite validate_json_request_refused by auto; auto..|].
    rewrite (Hrun Hc data Hb). case_bool_decide; [|done]. intros ?. congruence.
  - intros Hnone. destruct Hcases as [H|[H|(Hc & data & Hb)]];
      [rewrite validate_json_request_refused by auto; auto..|].
    rewrite (Hrun Hc data Hb). unfold update_match. rewrite Hnone. done.
  - intros H. by apply validate_json_request_refused.
  - exact Hrun.
Qed.

(** X20.  The three [POST] routes under the request decorator:
    [POST /players] is answered 201 or 400, [POST /sessions] 200, 400 or
    404, and [POST /matches] 201, 400 or 404, never 500; only the success
    status changes the store; and a body that is not JSON, the JSON value
    [null] and a content type other than [application/json] are each
    answered 400. *)
Theorem post_replies (pow10 : Q → option Q) (now : Z)
    (content_type : option string) (db : Store) :
  (∀ body, let r := post_players content_type body db in
           (r.1 = 201 ∨ r.1 = 400) ∧ (r.1 = 400 → r.2 = db)
           ∧ (body = None ∨ body = Some None
              ∨ content_type ≠ Some "application/json"%string → r = (400, db)))
  ∧ (∀ body, let r := post_sessions content_type body db in
             (r.1 = 200 ∨ r.1 = 400 ∨ r.1 = 404) ∧ (r.1 ≠ 200 → r.2 = db)
             ∧ (body = None ∨ body = Some None
                ∨ content_type ≠ Some "application/json"%string → r = (400, db)))
  ∧ (∀ body, let r := post_matches pow10 now content_type body db in
             (r.1 = 201 ∨ r.1 = 400 ∨ r.1 = 404) ∧ (r.1 ≠ 201 → r.2 = db)
             ∧ (body = None ∨ body = Some None
                ∨ content_type ≠ Some "application/json"%string → r = (400, db))).
Proof.
  assert (Hcases : ∀ D (body : option (option D)),
            content_type ≠ Some "application/json"%string ∨ body = None
            ∨ content_type = Some "application/json"%string ∧ ∃ data, body = Some data).
  { intros D body. destruct (decide (content_type = Some "application/json"%string)); [|auto].
    destruct body; eauto 6. }
  split_and!.
  - intros body. cbv zeta. unfold post_players.
    destruct (Hcases _ body) as [H|[H|(-> & data & ->)]];
      [rewrite validate_json_request_refused by auto; auto..|].
    rewrite validate_json_request_run. split_and!.
    + unfold create_player.
      destruct (default (JString "") (n_name (default empty_player data))); [|auto].
      destruct (bool_decide _); [auto|]. destruct (name_taken _ _); auto.
    + unfold create_player.
      destruct (default (JString "") (n_name (default empty_player data))); [|auto].
      destruct (bool_decide _); [auto|]. destruct (name_taken _ _); [auto|]. done.
    + intros [?|[[= ->]|?]]; done.
  - intros body. cbv zeta. unfold post_sessions.
    destruct (Hcases _ body) as [H|[H|(-> & data & ->)]];
      [rewrite validate_json_request_refused by auto; auto..|].
    rewrite validate_json_request_run. unfold uncaught_at.
    destruct (create_session_status (default [] (s_player_ids (default empty_session data))) db)
      as [Hst Hf].
    split_and!; [| |intros [?|[[= ->]|?]]; done].
    + destruct (create_session _ db) as [code db']. cbn [fst snd] in *.
      rewrite bool_decide_eq_false_2 by status. status.
    + destruct (create_session _ db) as [code db']. cbn [fst snd] in *.
      rewrite bool_decide_eq_false_2 by status. done.
  - intros body. cbv zeta. unfold post_matches.
    destruct (Hcases _ body) as [H|[H|(-> & data & ->)]];
      [rewrite validate_json_request_refused by auto; auto..|].
    rewrite validate_json_request_run. unfold uncaught_at.
    destruct (create_match_status pow10 (default empty_create data) now db) as [Hst Hf].
    split_and!; [| |intros [?|[[= ->]|?]]; done].
    + destruct (create_match pow10 _ now db) as [code db']. cbn [fst snd] in *.
      case_bool_decide as Hc; cbn [fst snd]; [auto|]. status.
    + destruct (create_match pow10 _ now db) as [code db']. cbn [fst snd] in *.
      case_bool_decide as Hc; cbn [fst snd]; [done|]. done.
Qed.

(** ** The order and the rates of the leaderboard *)

Section SortedBy.
Context {A : Type} (less : A → A → bool).
Hypothesis less_asym : ∀ x y, less x y = true → less y x = false.
Hypothesis ge_trans : ∀ x y z, less x y = false → less y z = false → less x z = false.

Lemma insert_desc_sorted_by x l :
  StronglySorted (λ a b, less a b = false) l →
  StronglySorted (λ a b, less a b = false) (insert_desc less x l).
Proof.
  induction 1 as [|y l Hs IH Hy]; cbn.
  - repeat constructor.
  - destruct (less x y) eqn:E.
    + constructor; [exact IH|].
      rewrite Forall_forall. intros z Hz.
      apply (elem_of_Permutation_proper _ _ _ (insert_desc_perm _ x l)) in Hz.
      apply elem_of_cons in Hz as [->|Hz]; [by apply less_asym|].
      rewrite Forall_forall in Hy. by apply Hy.
    + constructor; [by constructor|].
      constructor; [exact E|].
      eapply Forall_impl; [exact Hy|]. intros z Hz. by eapply ge_trans.
Qed.

Lemma sort_desc_sorted_by l :
  StronglySorted (λ a b, less a b = false) (sort_desc less l).
Proof.
  induction l as [|x l IH]; cbn; [constructor|].
  apply insert_desc_sorted_by, IH.
Qed.
End SortedBy.

Lemma leader_less_false x y :
  leader_less x y = false ↔
  lb_elo_rating y < lb_elo_rating x
  ∨ lb_elo_rating x = lb_elo_rating y
    ∧ (lb_points_per_match y <= lb_points_per_match x)%Q.
Proof.
  unfold leader_less.
  destruct (Z.ltb_spec (lb_elo_rating x) (lb_elo_rating y)),
           (Z.eqb_spec (lb_elo_rating x) (lb_elo_rating y)); cbn; try (split; [done|lia]).
  - destruct (Qle_bool _ _) eqn:E; cbn.
    + apply Qle_bool_iff in E. split; auto.
    + split; [done|]. intros [?|[_ H']]; [lia|]. apply Qle_bool_iff in H'. congruence.
  - split; [lia|done].
Qed.

Lemma leader_rows_sublist db (rows : list (Z * Player)) :
  sublist (lb_id <$> (rows ≫= λ kp, leader_row kp db)) rows.*1.
Proof.
  induction rows as [|kp rows IH]; [done|].
  rewrite bind_cons, fmap_app, fmap_cons.
  unfold leader_row at 1. destruct (completed_matches_of kp.1 db).
  - cbn. by apply sublist_cons.
  - cbn. by apply sublist_skip.
Qed.

(** X21.  The leaderboard is sorted by rating, highest first, and among
    equal ratings by points per match, highest first; and no player has
    two rows. *)
Theorem leaderboard_sorted (db : Store) :
  StronglySorted
    (λ a b, lb_elo_rating b < lb_elo_rating a
            ∨ lb_elo_rating a = lb_elo_rating b
              ∧ (lb_points_per_match b <= lb_points_per_match a)%Q)
    (get_leaderboard db)
  ∧ NoDup (lb_id <$> get_leaderboard db).
Proof.
  split.
  - rewrite <- (list_fmap_id (get_leaderboard db)).
    apply (StronglySorted_fmap id (λ a b, leader_less a b = false)).
    { intros a b. apply leader_less_false. }
    apply sort_desc_sorted_by.
    + intros x y H. apply leader_less_false. unfold leader_less in H.
      destruct (Z.ltb_spec (lb_elo_rating x) (lb_elo_rating y)); [auto|].
      destruct (Z.eqb_spec (lb_elo_rating x) (lb_elo_rating y)); [|done]. cbn in H.
      right. split; [done|]. destruct (Qle_bool _ _) eqn:E; [done|].
      destruct (Qlt_le_dec (lb_points_per_match x) (lb_points_per_match y)) as [Hlt|Hle].
      * by apply Qlt_le_weak.
      * apply Qle_bool_iff in Hle. congruence.
    + intros x y z. rewrite !leader_less_false.
      intros [?|[? ?]] [?|[? ?]]; [lia|lia|lia|]. right. split; [lia|]. lra.
  - unfold get_leaderboard.
    rewrite (sort_desc_perm leader_less _).
    eapply sublist_NoDup; [|apply leader_rows_sublist].
    eapply sublist_NoDup; [apply (NoDup_table_keys (players db))|].
    apply fmap_sublist, sublist_filter.
Qed.

Section Rates.
#[local] Open Scope Q_scope.

(** [round(x, n)] stays between two integers that enclose [x]. *)
Lemma py_round_range (x : Q) (n L H : Z) :
  (0 <= n)%Z -> rnd64 (inject_Z L) == inject_Z L -> rnd64 (inject_Z H) == inject_Z H ->
  inject_Z L <= x <= inject_Z H ->
  inject_Z L <= py_round x n <= inject_Z H.
Proof.
  intros Hn FL FH [Hl Hh]. unfold py_round.
  assert (Hp : 0 < 10 ^ n) by (apply Qpower_0_lt; reflexivity).
  assert (Ep : 10 ^ n == inject_Z (10 ^ n)).
  { rewrite Zpower_Qpower by exact Hn. reflexivity. }
  assert (Rl : (L * 10 ^ n <= rne (x * 10 ^ n))%Z).
  { rewrite <- (rne_Z (L * 10 ^ n)). apply rne_mono.
    rewrite inject_Z_mult, <- Ep. nra. }
  assert (Rh : (rne (x * 10 ^ n) <= H * 10 ^ n)%Z).
  { rewrite <- (rne_Z (H * 10 ^ n)). apply rne_mono.
    rewrite inject_Z_mult, <- Ep. nra. }
  rewrite Zle_Qle in Rl, Rh. rewrite inject_Z_mult, <- Ep in Rl, Rh.
  split; [apply rnd64_lower | apply rnd64_upper]; try done.
  - apply Qle_shift_div_l; [exact Hp|exact Rl].
  - apply Qle_shift_div_r; [exact Hp|exact Rh].
Qed.

Lemma int_truediv_range (a b L H : Z) :
  (0 < b)%Z -> (L * b <= a <= H * b)%Z -> (Z.abs L <= 2 ^ 64)%Z -> (Z.abs H <= 2 ^ 64)%Z ->
  rnd64 (inject_Z L) == inject_Z L -> rnd64 (inject_Z H) == inject_Z H ->
  exists q, int_truediv a b = Some q /\ inject_Z L <= q <= inject_Z H.
Proof.
  intros Hb [Hl Hh] BL BH FL FH.
  assert (Hb' : 0 < inject_Z b) by (change 0 with (inject_Z 0); rewrite <- Zlt_Qlt; exact Hb).
  rewrite Zle_Qle, inject_Z_mult in Hl, Hh.
  assert (B : inject_Z L <= inject_Z a / inject_Z b <= inject_Z H).
  { split; [apply Qle_shift_div_l | apply Qle_shift_div_r]; done. }
  assert (R : inject_Z L <= rnd64 (inject_Z a / inject_Z b) <= inject_Z H).
  { split; [apply rnd64_lower | apply rnd64_upper]; tauto. }
  exists (rnd64 (inject_Z a / inject_Z b)). split; [|exact R].
  unfold int_truediv. destruct (Z.eqb_spec b 0); [lia|].
  rewrite (not_overflows _ (2 ^ 64)); [reflexivity| |reflexivity].
  apply Qabs_Qle_condition.
  assert (E64 : 2 ^ 64 == inject_Z (2 ^ 64)) by reflexivity.
  assert (HL : (- 2 ^ 64 <= L)%Z) by lia. assert (HH : (H <= 2 ^ 64)%Z) by lia.
  rewrite Zle_Qle in HL, HH. rewrite inject_Z_opp in HL. rewrite E64. lra.
Qed.

End Rates.

(** X22.  In every row of the leaderboard the wins are between 0 and
    the matches played, which are at least one; the losses are the
    matches played less the wins; the win rate is between 0 and 100; and
    the points per match are between 1 and 3. *)
Theorem leaderboard_rates (db : Store) (row : LeaderRow) :
  row ∈ get_leaderboard db →
  0 ≤ lb_wins row ≤ lb_matches_played row
  ∧ 0 < lb_matches_played row
  ∧ lb_losses row = lb_matches_played row - lb_wins row
  ∧ (0 <= lb_win_rate row <= 100)%Q
  ∧ (1 <= lb_points_per_match row <= 3)%Q.
Proof.
  intros (kp & _ & _ & Hin)%elem_of_get_leaderboard.
  unfold leader_row in Hin.
  destruct (completed_matches_of kp.1 db) as [|km rows] eqn:E; [by apply elem_of_nil in Hin|].
  apply list_elem_of_singleton in Hin as ->.
  cbn [lb_wins lb_matches_played lb_losses lb_win_rate lb_points_per_match].
  set (all := km :: rows).
  set (total := Z.of_nat (length all)).
  set (wins := Z.of_nat (length (filter (λ km0 : Z * Match, winner_id km0.2 = Some kp.1) all))).
  assert (Ht : 0 < total) by (subst total all; cbn [length]; lia).
  assert (Hw : 0 ≤ wins ≤ total).
  { subst wins total. split; [lia|]. apply inj_le, length_filter. }
  split; [lia|]. split; [lia|]. split; [lia|]. split.
  - destruct (Z.ltb_spec 0 total) as [_|?]; [|lia].
    destruct (int_truediv_unit wins total) as (q & -> & Hq); [lia|lia|].
    cbn [default from_option id].
    assert (F0 : (rnd64 (inject_Z 0) == inject_Z 0)%Q) by reflexivity.
    assert (F100 : (rnd64 (inject_Z 100) == inject_Z 100)%Q) by (vm_compute; reflexivity).
    apply (py_round_range _ 1 0 100); [lia|done|done|].
    unfold fmul. split; [apply rnd64_lower | apply rnd64_upper]; try done.
    + change (inject_Z 0) with 0%Q. nra.
    + change (inject_Z 100) with 100%Q. nra.
  - destruct (Z.ltb_spec 0 total) as [_|?]; [|lia].
    assert (F1 : (rnd64 (inject_Z 1) == inject_Z 1)%Q) by (vm_compute; reflexivity).
    assert (F3 : (rnd64 (inject_Z 3) == inject_Z 3)%Q) by (vm_compute; reflexivity).
    destruct (int_truediv_range (wins * 3 + (total - wins) * 1) total 1 3)
      as (q & -> & Hq); [lia|lia|done|done|done|done|].
    cbn [default from_option id].
    apply (py_round_range _ 2 1 3); [lia|done|done|done].
Qed.

(** ** The backup trigger *)

Lemma trigger_run_snoc results r s :
  trigger_run (results ++ [r]) s
  = let '(s1, n) := trigger_run results s in
    let '(s2, asked) := trigger_match_backup r s1 in
    (s2, n + Z.b2z asked).
Proof.
  unfold trigger_run. rewrite foldl_app. cbn [foldl].
  destruct (foldl _ _ results) as [s1 n]. cbn [fst snd]. done.
Qed.

(** X23.  The backup trigger of a new scheduler: when every backup
    succeeds, [n] calls ask for [n / 10] backups, one at every tenth call,
    and leave the counter at [n mod 10]; when no backup succeeds the
    counter is never reset, so after [n] calls it is [n] and a backup was
    asked for at every call from the tenth on. *)
Theorem trigger_match_backup_milestones (n : nat) :
  trigger_run (replicate n BackupPath) new_scheduler
  = ({| match_counter := Z.of_nat n mod 10; matches_per_backup := 10 |}, Z.of_nat n / 10)
  ∧ (∀ results, length results = n → Forall (λ r, r ≠ BackupPath) results →
       trigger_run results new_scheduler
       = ({| match_counter := Z.of_nat n; matches_per_backup := 10 |},
          Z.max 0 (Z.of_nat n - 9))).
Proof.
  split.
  - induction n as [|n IH]; [done|].
    rewrite replicate_S_end, trigger_run_snoc, IH.
    unfold trigger_match_backup. cbn [match_counter matches_per_backup].
    assert (Hm : 0 ≤ Z.of_nat n mod 10 < 10) by (apply Z.mod_pos_bound; lia).
    pose proof (Z.div_mod (Z.of_nat n) 10 ltac:(lia)) as Hn.
    pose proof (Z.div_mod (Z.of_nat (S n)) 10 ltac:(lia)) as HS.
    assert (HmS : 0 ≤ Z.of_nat (S n) mod 10 < 10) by (apply Z.mod_pos_bound; lia).
    destruct (Z.leb_spec 10 (Z.of_nat n mod 10 + 1)) as [Hge|Hlt]; cbn [Z.b2z].
    + assert (Z.of_nat (S n) / 10 = Z.of_nat n / 10 + 1 ∧ Z.of_nat (S n) mod 10 = 0)
        as [-> ->] by lia. done.
    + assert (Z.of_nat (S n) / 10 = Z.of_nat n / 10
              ∧ Z.of_nat (S n) mod 10 = Z.of_nat n mod 10 + 1) as [-> ->] by lia.
      by rewrite Z.add_0_r.
  - induction n as [|n IH]; intros results Hlen Hall.
    + destruct results; [reflexivity|discriminate].
    + destruct (decide (results = [])) as [->|Hne]; [done|].
      destruct (exists_last Hne) as (init & r & ->).
      rewrite length_app in Hlen. cbn in Hlen.
      apply Forall_app in Hall as [Hinit Hr]. apply Forall_inv in Hr.
      rewrite trigger_run_snoc, (IH init) by (done || lia).
      unfold trigger_match_backup. cbn [match_counter matches_per_backup].
      destruct (Z.leb_spec 10 (Z.of_nat n + 1)) as [Hge|Hlt].
      * destruct r; [by destruct Hr| |]; cbn [Z.b2z]; f_equal; (f_equal; lia) || lia.
      * cbn [Z.b2z]. f_equal; (f_equal; lia) || lia.
Qed.

(** ** The list of recent matches *)

Lemma recent_rows_keys db :
  NoDup (recent_rows db).*1
  ∧ length (recent_rows db)
    = (10 `min` length (filter dated (table_rows (matches db))))%nat.
Proof.
  unfold recent_rows. split.
  - eapply sublist_NoDup; [|apply fmap_sublist, sublist_take].
    rewrite (sort_desc_perm _ _).
    eapply sublist_NoDup; [apply (NoDup_table_keys (matches db))|].
    apply fmap_sublist, sublist_filter.
  - rewrite length_take. rewrite (Permutation_length (sort_desc_perm _ _)). done.
Qed.

(** X24.  The list [recent_matches] of the highlights has one entry for
    each of the at most ten latest completed matches, in that order: its
    length is the smaller of 10 and the number of completed matches with a
    completion time, no match is listed twice, the entries are sorted by
    completion time, latest first, and each entry carries the scores of
    its match, the rating after as the stored rating before plus the
    stored change (absent values counting as 0), and the winner name
    ["Tie"] when the match has no winner.  [matches_today] counts the
    completed matches of the whole store that were completed since the
    start of the day, listed or not. *)
Theorem highlights_recent_matches (today : Z) (db : Store) (r : Highlights) :
  get_highlights today db = Some r →
  h_match_id <$> recent_matches r = (recent_rows db).*1
  ∧ NoDup (h_match_id <$> recent_matches r)
  ∧ length (recent_matches r)
    = (10 `min` length (filter dated (table_rows (matches db))))%nat
  ∧ StronglySorted (λ a b, h_completed_at b ≤ h_completed_at a) (recent_matches r)
  ∧ (∀ h, h ∈ recent_matches r →
       ∃ m t, matches db !! h_match_id h = Some m
              ∧ is_completed m = true ∧ completed_at m = Some t ∧ h_completed_at h = t
              ∧ h_player1_score h = player1_score m ∧ h_player2_score h = player2_score m
              ∧ h_player1_elo_after h
                = or_zero (player1_elo_before m) + or_zero (player1_elo_change m)
              ∧ h_player2_elo_after h
                = or_zero (player2_elo_before m) + or_zero (player2_elo_change m)
              ∧ (winner_id m = None → h_winner_name h = "Tie"%string))
  ∧ matches_today r
    = Z.of_nat (length (filter (λ km : Z * Match,
                                  is_completed km.2 = true
                                  ∧ (λ t, bool_decide (today ≤ t)) <$> completed_at km.2
                                    = Some true)
                               (table_rows (matches db)))).
Proof.
  intros Hget. unfold get_highlights in Hget.
  destruct (mapM (highlight_of (players db)) (recent_rows db)) as [hs|] eqn:Hmap; [|done].
  cbn [mbind option_bind] in Hget.
  destruct (foldl _ _ _) as [[gain loss]|]; [|done]. cbn in Hget. injection Hget as <-.
  cbn [recent_matches matches_today].
  apply mapM_Some_1 in Hmap.
  destruct (recent_rows_spec db) as (_ & Hin & Hsorted & _). cbv zeta in *.
  destruct (recent_rows_keys db) as [Hnd Hlen].
  assert (Hfields : Forall2 (λ km h, h_match_id h = km.1 ∧ h_completed_at h = time_of km
                              ∧ h_player1_score h = player1_score km.2
                              ∧ h_player2_score h = player2_score km.2
                              ∧ h_player1_elo_after h
                                = or_zero (player1_elo_before km.2)
                                  + or_zero (player1_elo_change km.2)
                              ∧ h_player2_elo_after h
                                = or_zero (player2_elo_before km.2)
                                  + or_zero (player2_elo_change km.2)
                              ∧ (winner_id km.2 = None → h_winner_name h = "Tie"%string))
                     (recent_rows db) hs).
  { eapply Forall2_impl; [exact Hmap|]. intros km h. unfold highlight_of.
    destruct (players db !! player1_id km.2); [|done].
    destruct (players db !! player2_id km.2); [|done]. cbn [mbind option_bind].
    intros [= <-]. cbn. split_and!; try done. by intros ->. }
  assert (Hids : h_match_id <$> hs = (recent_rows db).*1).
  { clear -Hfields. induction Hfields as [|km h l k (Hid & _) _ IH]; [done|].
    rewrite !fmap_cons, IH, Hid. done. }
  split_and!.
  - exact Hids.
  - by rewrite Hids.
  - by rewrite <- (Forall2_length _ _ _ Hfields).
  - clear -Hfields Hsorted. induction Hfields as [|km h l k Hh Hf IH]; [constructor|].
    apply StronglySorted_inv in Hsorted as [Hs Hall]. constructor; [by apply IH|].
    destruct Hh as (_ & Hh & _). rewrite Hh. clear -Hf Hall.
    induction Hf as [|km' h' l k (_ & Hh' & _) _ IH]; [constructor|].
    apply Forall_cons in Hall as [? ?]. constructor; [by rewrite Hh'|by apply IH].
  - intros h Hh. apply list_elem_of_lookup in Hh as [i Hi].
    destruct (Forall2_lookup_r _ _ _ _ _ Hfields Hi) as (km & Hkm & Hf).
    apply list_elem_of_lookup_2 in Hkm. destruct (Hin km Hkm) as [Hm (D1 & D2 & D3)].
    destruct Hf as (-> & -> & -> & -> & -> & -> & Hw).
    destruct (completed_at km.2) as [t|] eqn:Et; [|done].
    exists km.2, t. unfold time_of. rewrite Et. split_and!; try done.
    unfold is_completed. by rewrite !bool_decide_eq_true_2.
  - f_equal. f_equal. apply list_filter_iff. intros [k m]. cbn.
    unfold is_completed. split.
    + intros (Ht & S1 & S2). rewrite !bool_decide_eq_true_2 by done. split; [done|].
      destruct (completed_at m) as [t|]; [|done]. cbn. by rewrite Ht.
    + intros [Hc Ht]. apply andb_true_iff in Hc as [H1%bool_decide_eq_true_1
        H2%bool_decide_eq_true_1].
      destruct (completed_at m) as [t|]; [|done]. cbn in Ht. injection Ht as Ht. done.
Qed.

(** ** Creating a match *)

(** X25.  [POST /matches] by cases.  A missing or zero [session_id],
    [player1_id] or [player2_id], or twice the same player, is answered
    400; an identifier of no player or of no session is answered 404; in
    both cases nothing is stored.  Otherwise a body that lacks a score
    is answered 201 and the match is stored as given under a fresh key,
    no rating being touched; and a body with both scores makes
    [update_scores] raise on the new match, which was not yet added to
    the session: the exception escapes the handler, the route answers
    400 and nothing is stored, whatever the two scores are.  In all
    other cases the route gives the reply of the handler. *)
Theorem create_match_cases (pow10 : Q → option Q) (data : MatchCreate) (now : Z)
    (db : Store) :
  let sid := default 0 (c_session_id data) in
  let p1 := default 0 (c_player1_id data) in
  let p2 := default 0 (c_player2_id data) in
  (sid = 0 ∨ p1 = 0 ∨ p2 = 0 ∨ p1 = p2 → create_match pow10 data now db = (400, db))
  ∧ (sid ≠ 0 → p1 ≠ 0 → p2 ≠ 0 → p1 ≠ p2 →
     players db !! p1 = None ∨ players db !! p2 = None ∨ sessions db !! sid = None →
     create_match pow10 data now db = (404, db))
  ∧ (sid ≠ 0 → p1 ≠ 0 → p2 ≠ 0 → p1 ≠ p2 →
     is_Some (players db !! p1) → is_Some (players db !! p2) →
     is_Some (sessions db !! sid) →
     (c_player1_score data = None ∨ c_player2_score data = None →
      matches db !! fresh_id (matches db) = None
      ∧ create_match pow10 data now db
        = (201, {| players := players db; sessions := sessions db;
                   matches := <[fresh_id (matches db) :=
                                  new_match sid p1 p2 (c_player1_score data)
                                    (c_player2_score data) (clean_notes (c_notes data))]>
                                (matches db) |}))
     ∧ (is_Some (c_player1_score data) → is_Some (c_player2_score data) →
        create_match pow10 data now db = (500, db)
        ∧ post_matches pow10 now json (Some (Some data)) db = (400, db)))
  ∧ ((create_match pow10 data now db).1 ≠ 500 →
     post_matches pow10 now json (Some (Some data)) db
     = create_match pow10 data now db)
  ∧ (is_Some (c_player1_score data) → is_Some (c_player2_score data) →
     (post_matches pow10 now json (Some (Some data)) db).1 ∈ [400; 404]
     ∧ (post_matches pow10 now json (Some (Some data)) db).2 = db).
Proof.
  intros sid p1 p2.
  assert (Hf : ∀ v, falsy v = bool_decide (default 0 v = 0)).
  { intros [z|]; cbn; [|done].
    destruct (Z.eqb_spec z 0); [by rewrite bool_decide_eq_true_2
                               |by rewrite bool_decide_eq_false_2]. }
  assert (Hpost : post_matches pow10 now json (Some (Some data)) db
                  = if bool_decide ((create_match pow10 data now db).1 = 500)
                    then (400, db) else create_match pow10 data now db).
  { unfold post_matches, validate_json_request, uncaught_at, json.
    rewrite bool_decide_eq_true_2 by done. cbn [default from_option id].
    rewrite (bool_decide_ext _ ((create_match pow10 data now db).1 = 500)).
    - by destruct (bool_decide _).
    - rewrite elem_of_cons, elem_of_nil. tauto. }
  split_and!.
  - unfold create_match. rewrite !Hf. fold sid p1 p2. intros Hbad.
    destruct (decide (sid = 0)); [by rewrite (bool_decide_eq_true_2 (sid = 0))|].
    destruct (decide (p1 = 0)); [rewrite (bool_decide_eq_true_2 (p1 = 0)) by done;
                                  by destruct (bool_decide (sid = 0))|].
    destruct (decide (p2 = 0)); [rewrite (bool_decide_eq_true_2 (p2 = 0)) by done;
                                  by rewrite !orb_true_r|].
    rewrite !bool_decide_eq_false_2 by done. cbn [orb].
    destruct (Z.eqb_spec p1 p2); [done|]. destruct Hbad as [?|[?|[?|?]]]; done.
  - unfold create_match. rewrite !Hf. fold sid p1 p2.
    intros H0 H1 H2 Hne Hmiss. rewrite !bool_decide_eq_false_2 by done. cbn [orb].
    destruct (Z.eqb_spec p1 p2); [done|].
    destruct (players db !! p1) as [q1|]; [|done].
    destruct (players db !! p2) as [q2|]; [|done].
    destruct (sessions db !! sid); [|done]. destruct Hmiss as [?|[?|?]]; done.
  - intros H0 H1 H2 Hne [q1 Hq1] [q2 Hq2] [ss Hs].
    assert (E : create_match pow10 data now db
                = match (match c_player1_score data, c_player2_score data with
                         | Some s1, Some s2 =>
                             fst <$> update_scores pow10
                                       (new_match sid p1 p2 (c_player1_score data)
                                          (c_player2_score data)
                                          (clean_notes (c_notes data)))
                                       s1 s2 now transient_rows
                         | _, _ => Some (new_match sid p1 p2 (c_player1_score data)
                                           (c_player2_score data)
                                           (clean_notes (c_notes data)))
                         end) with
                  | None => (500, db)
                  | Some m' => (201, {| players := players db; sessions := sessions db;
                                        matches := add_match m' (matches db) |})
                  end).
    { unfold create_match. rewrite !Hf. fold sid p1 p2.
      rewrite !bool_decide_eq_false_2 by done. cbn [orb].
      destruct (Z.eqb_spec p1 p2); [done|]. by rewrite Hq1, Hq2, Hs. }
    split.
    + intros Hnone. split; [apply fresh_id_fresh; lia|]. rewrite E.
      destruct Hnone as [-> | ->]; [done|]. by destruct (c_player1_score data).
    + intros [s1 E1] [s2 E2].
      assert (E' : create_match pow10 data now db = (500, db)).
      { rewrite E, E1, E2. by rewrite update_scores_transient. }
      split; [exact E'|]. rewrite Hpost, E'. done.
  - intros Hne. rewrite Hpost. by rewrite bool_decide_eq_false_2.
  - intros Hs1 Hs2.
    destruct (create_match_both_scores pow10 data now db Hs1 Hs2) as [Hdb Hst].
    rewrite Hpost. case_bool_decide as Hc; cbn [fst snd].
    + split; [repeat constructor|done].
    + split; [|done].
      rewrite !elem_of_cons, elem_of_nil in Hst. rewrite !elem_of_cons, elem_of_nil.
      tauto.
Qed.

(** ** Instances of the further theorems *)

Lemma shutout_changes_witness :
  calculate_elo_changes pow10_floor 1000 1400 0 11 = Some (-4, 4)
  ∧ (-4 ≤ 0 ∧ 0 ≤ 4).
Proof.
  split; [vm_compute; reflexivity|].
  apply (shutout_changes pow10_floor 1000 1400 11 (-4) 4 pow10_floor_nonneg); [lia|].
  vm_compute. reflexivity.
Defined.

Lemma tie_change_bounded_witness :
  calculate_elo_changes pow10_floor 1000 1400 5 5 = Some (6, -6)
  ∧ (Z.abs 6 ≤ 8 ∧ Z.abs (-6) ≤ 8).
Proof.
  split; [vm_compute; reflexivity|].
  apply (tie_change_bounded pow10_floor 1000 1400 5 6 (-6) pow10_floor_nonneg);
    first [discriminate | vm_compute; reflexivity].
Defined.

Lemma equal_ratings_changes_witness :
  pow10_floor 0%Q = Some 1%Q
  ∧ calculate_elo_changes pow10_floor 1000 1000 7 7 = Some (0, 0).
Proof.
  split; [reflexivity|].
  apply (equal_ratings_changes pow10_floor 1000 eq_refl).
Defined.

Lemma update_match_scores_witness :
  (update_match pow10_floor 1 score_11_0 100 one_session_store).1 = 200
  ∧ elo_rating
      <$> players (update_match pow10_floor 1 score_11_0 100 one_session_store).2 !! 1
    = Some 1024.
Proof.
  destruct (update_match_scores pow10_floor 1 score_11_0 100 one_session_store
              (new_match 1 1 2 None None None) (new_player "Miklas") (new_player "Morten")
              (JInt 11) (JInt 0) 24 (-24))
    as (db' & m' & E & _ & _ & _ & _ & _ & _ & _ & _ & _ & _ & _ & _ & _ & _ & Hp1 & _);
    try (vm_compute; reflexivity); try (cbn; lia); try discriminate.
  cbn [player1_id new_match] in Hp1. rewrite E. cbn [fst snd]. rewrite Hp1.
  split; reflexivity.
Defined.

Lemma update_match_idempotent_witness :
  update_match pow10_floor 1 score_11_0 100 scored_store
  = update_match pow10_floor 1 score_11_0 100 one_session_store.
Proof.
  apply (update_match_idempotent pow10_floor 1 score_11_0 100 one_session_store);
    eexists; reflexivity.
Defined.

Lemma delete_match_after_scoring_witness :
  delete_match 1 scored_store = delete_match 1 one_session_store
  ∧ (delete_match 1 one_session_store).1 = 200.
Proof.
  apply (delete_match_after_scoring pow10_floor 1 score_11_0 100 one_session_store
           scored_store); [eexists; reflexivity..|].
  vm_compute. reflexivity.
Defined.

Lemma delete_match_undoes_create_witness :
  delete_match (fresh_id (matches one_session_store))
    (create_match pow10_floor lone_score_create 100 one_session_store).2
  = (200, one_session_store).
Proof.
  apply (delete_match_undoes_create pow10_floor lone_score_create 100).
  vm_compute. reflexivity.
Defined.

Lemma delete_session_undoes_create_witness :
  delete_session (fresh_id (sessions init_store)) one_session_store = (200, init_store).
Proof.
  apply (delete_session_undoes_create [1; 2] init_store one_session_store).
  - intros k m H. vm_compute in H. discriminate.
  - vm_compute. reflexivity.
Defined.

Lemma delete_match_reverts_witness :
  ∃ db', delete_match 1 scored_store = (200, db')
         ∧ elo_rating <$> players db' !! 1 = Some 1000
         ∧ elo_rating <$> players db' !! 2 = Some 1000.
Proof.
  destruct (proj2 (delete_match_reverts 1 scored_store) scored_match)
    as (db' & E & _ & _ & Hp & _).
  - vm_compute. reflexivity.
  - split; apply (bool_decide_unpack _); vm_compute; exact I.
  - intros _. split; eexists; reflexivity.
  - exists db'. split; [exact E|]. rewrite !Hp. split; vm_compute; reflexivity.
Defined.

Lemma create_match_cases_witness :
  create_match pow10_floor scored_create 100 one_session_store
  = (500, one_session_store)
  ∧ post_matches pow10_floor 100 json (Some (Some scored_create)) one_session_store
    = (400, one_session_store).
Proof.
  destruct (create_match_cases pow10_floor scored_create 100 one_session_store)
    as (_ & _ & H & _).
  apply H; first [discriminate | by eexists].
Defined.

Lemma handlers_keep_accounting_witness : consistent one_session_store.
Proof.
  apply (handlers_keep_accounting pow10_floor init_store init_store_consistent).
Defined.

Lemma references_kept_witness : references_ok one_session_store.
Proof.
  apply (references_kept pow10_floor init_store).
  intros k m H. vm_compute in H. discriminate.
Defined.

Lemma players_never_lost_witness :
  players_kept init_store (delete_player 1 init_store).2.
Proof. apply (players_never_lost pow10_floor init_store). Defined.

Lemma names_stay_distinct_witness :
  names_distinct (players (init_database {| players := ∅; sessions := ∅; matches := ∅ |})).
Proof.
  apply (names_stay_distinct pow10_floor {| players := ∅; sessions := ∅; matches := ∅ |}).
  intros i j p q H. vm_compute in H. discriminate.
Defined.

Lemma create_player_cases_witness :
  create_player named_anna init_store
  = Response (201, {| players := <[5 := new_player "Anna"]> (players init_store);
                      sessions := ∅; matches := ∅ |}).
Proof.
  destruct (create_player_cases named_anna init_store) as (_ & H & _).
  destruct (H "  Anna "%string eq_refl) as (_ & _ & Hok).
  assert (Hname : ¬ Forall (λ c, is_space c = true) (list_ascii_of_string "  Anna "))
    by (apply (bool_decide_unpack _); vm_compute; exact I).
  assert (Hfree : ∀ k p, players init_store !! k = Some p → name p ≠ strip "  Anna ")
    by (apply name_taken_false; vm_compute; reflexivity).
  destruct (Hok Hname Hfree) as [_ ->]. reflexivity.
Defined.

Lemma delete_player_soft_witness :
  ∃ db', delete_player 1 init_store = (200, db')
         ∧ active <$> players db' !! 1 = Some false
         ∧ elo_rating <$> players db' !! 1 = Some 1000
         ∧ delete_player 1 db' = (200, db').
Proof.
  destruct (proj2 (delete_player_soft 1 init_store) (new_player "Miklas"))
    as (db' & E & Hp & _ & _ & _ & _ & Hagain); [vm_compute; reflexivity|].
  exists db'. rewrite Hp. split_and!; [exact E| | |exact Hagain]; vm_compute; reflexivity.
Defined.

Lemma init_database_defaults_witness :
  init_database init_store = init_store.
Proof.
  exact (proj1 (proj2 (proj2 (proj2 (proj2 (proj2
    (init_database_defaults {| players := ∅; sessions := ∅; matches := ∅ |}))))))).
Defined.

Lemma put_match_replies_witness :
  put_match pow10_floor 99 0 json (Some None) init_store = (400, init_store).
Proof.
  destruct (put_match_replies pow10_floor 99 0 json (Some None) init_store)
    as (_ & _ & H & _).
  apply H. vm_compute. reflexivity.
Defined.

Lemma post_replies_witness :
  post_sessions json (Some None) init_store = (400, init_store).
Proof.
  destruct (post_replies pow10_floor 0 json init_store) as (_ & H & _).
  apply H. right. left. reflexivity.
Defined.

Lemma leaderboard_rates_witness :
  Forall (λ row, (0 <= lb_win_rate row <= 100)%Q ∧ (1 <= lb_points_per_match row <= 3)%Q)
         (get_leaderboard tie_store)
  ∧ length (get_leaderboard tie_store) = 2%nat.
Proof.
  split; [|vm_compute; reflexivity].
  apply Forall_forall. intros row Hin.
  destruct (leaderboard_rates tie_store row Hin) as (_ & _ & _ & H1 & H2). done.
Defined.

Lemma highlights_recent_matches_witness :
  ∃ r, get_highlights 0 scored_store = Some r
       ∧ h_match_id <$> recent_matches r = [1]
       ∧ matches_today r = 1.
Proof.
  destruct (get_highlights 0 scored_store) as [r|] eqn:E; [|vm_compute in E; discriminate].
  exists r. split; [reflexivity|].
  destruct (highlights_recent_matches 0 scored_store r E) as (Hids & _ & _ & _ & _ & Ht).
  rewrite Hids, Ht. split; vm_compute; reflexivity.
Defined.

Lemma trigger_match_backup_milestones_witness :
  trigger_run (replicate 25 BackupPath) new_scheduler
  = ({| match_counter := 5; matches_per_backup := 10 |}, 2)
  ∧ trigger_run (replicate 12 BackupNothing) new_scheduler
    = ({| match_counter := 12; matches_per_backup := 10 |}, 3).
Proof.
  split.
  - exact (proj1 (trigger_match_backup_milestones 25)).
  - apply (proj2 (trigger_match_backup_milestones 12)); [reflexivity|].
    apply Forall_forall. intros r Hr%elem_of_replicate. destruct Hr as [-> _]. discriminate.
Defined.

Lemma update_match_validates_witness :
  update_match pow10_floor 1 negative_score_update 100 one_session_store
  = (400, one_session_store).
Proof.
  destruct (update_match_validates pow10_floor 1 negative_score_update 100
              one_session_store (JInt (-5)) (JInt 3)) as (Hdb & _ & Hst);
    [reflexivity | reflexivity | right; right; left; reflexivity |].
  rewrite (surjective_pairing (update_match _ _ _ _ _)), Hdb.
  rewrite (Hst (new_match 1 1 2 None None None)); [reflexivity|vm_compute; reflexivity|].
  split; apply (bool_decide_unpack _); vm_compute; exact I.
Defined.

Lemma update_match_without_scores_witness :
  ∃ ps, (update_match pow10_floor 1 notes_only 200 scored_store).1 = 200
        ∧ players (update_match pow10_floor 1 notes_only 200 scored_store).2 = ps
        ∧ shifted (λ q, - applied_delta q scored_match) (players scored_store) ps.
Proof.
  destruct (update_match_without_scores pow10_floor 1 notes_only 200 scored_store
              scored_match) as (ps & E & Hsh).
  - vm_compute. reflexivity.
  - reflexivity.
  - eexists. reflexivity.
  - eexists. reflexivity.
  - split; apply (bool_decide_unpack _); vm_compute; exact I.
  - left. reflexivity.
  - exists ps. rewrite E. split_and!; [reflexivity|reflexivity|exact Hsh].
Defined.
